(** * PKU schedule planner: the schedule-text parser and the conflict engine

    A shallow embedding of [pku_course_parser.py] (meeting-line grammars,
    course rows, the load loop), of [course_ui.py] (occupied cells,
    conflict check, batch add and remove, the timetable grid with its
    week navigation, the two course lists) and of the deduplication of
    [class_info_crawler.py].

    Python [str] values are lists of Unicode code points; literals are
    written as UTF-8 text and decoded by [u]. *)

From Stdlib Require Import ZArith QArith String Ascii List Lia Bool.
From stdpp Require Import gmap sorting.
Import ListNotations.
Local Open Scope Z_scope.

(** ** Strings as code points *)

Abbreviation str := (list Z).

(** UTF-8 decoding of a literal: [pending] continuation bytes are still
    expected for the code point accumulated in [acc]. *)
Fixpoint utf8_go (bs : list Z) (pending : nat) (acc : Z) : str :=
  match bs with
  | [] => []
  | b :: bs' =>
      match pending with
      | O =>
          if b <? 128 then b :: utf8_go bs' 0 0
          else if b <? 224 then utf8_go bs' 1 (Z.land b 31)
          else if b <? 240 then utf8_go bs' 2 (Z.land b 15)
          else utf8_go bs' 3 (Z.land b 7)
      | S O => (acc * 64 + Z.land b 63) :: utf8_go bs' 0 0
      | S p => utf8_go bs' p (acc * 64 + Z.land b 63)
      end
  end.

Fixpoint bytes_of (s : string) : list Z :=
  match s with
  | EmptyString => []
  | String a s' => Z.of_N (N_of_ascii a) :: bytes_of s'
  end.

Definition u (s : string) : str := utf8_go (bytes_of s) 0 0.

Definition NL : Z := 10.
Definition CR : Z := 13.
Definition TAB : Z := 9.
Definition SP : Z := 32.

(** [str.isspace] of one code point: the set [str.strip()] removes and the
    class [\s] of a [str] pattern matches. *)
Definition is_space (c : Z) : bool :=
  ((9 <=? c) && (c <=? 13)) || ((28 <=? c) && (c <=? 32))
  || (c =? 133) || (c =? 160) || (c =? 5760)
  || ((8192 <=? c) && (c <=? 8202))
  || (c =? 8232) || (c =? 8233) || (c =? 8239) || (c =? 8287) || (c =? 12288).

(** The decimal digits [0]..[9]; the digits of other scripts, which [\d]
    and [int] also accept, are left out of the model. *)
Definition is_digit (c : Z) : bool := (48 <=? c) && (c <=? 57).

Definition mem (c : Z) (l : str) : bool := existsb (Z.eqb c) l.

Fixpoint str_eqb (a b : str) : bool :=
  match a, b with
  | [], [] => true
  | x :: a', y :: b' => (x =? y) && str_eqb a' b'
  | _, _ => false
  end.

(** [s.startswith(p)] *)
Fixpoint startswith (s p : str) {struct p} : bool :=
  match p, s with
  | [], _ => true
  | x :: p', y :: s' => (x =? y) && startswith s' p'
  | _ :: _, [] => false
  end.

(** [s.lstrip(chars)] and [s.rstrip(chars)] for a predicate on code points *)
Fixpoint lstrip_by (p : Z -> bool) (s : str) : str :=
  match s with
  | c :: s' => if p c then lstrip_by p s' else s
  | [] => []
  end.

Fixpoint rstrip_by (p : Z -> bool) (s : str) : str :=
  match s with
  | c :: s' =>
      match rstrip_by p s' with
      | [] => if p c then [] else [c]
      | r => c :: r
      end
  | [] => []
  end.

(** [s.strip()] *)
Definition strip (s : str) : str := rstrip_by is_space (lstrip_by is_space s).

(** [s.replace(a, b)] for a one-character [a] *)
Definition replace1 (a : Z) (b : str) (s : str) : str :=
  flat_map (fun c => if c =? a then b else [c]) s.

(** [s.replace("\r\n", "\n")] *)
Fixpoint replace_crlf (s : str) : str :=
  match s with
  | c :: s' =>
      match s' with
      | d :: s'' =>
          if (c =? CR) && (d =? NL) then NL :: replace_crlf s''
          else c :: replace_crlf s'
      | [] => [c]
      end
  | [] => []
  end.

(** [s.split("\n")]: never empty, one more field than separators *)
Fixpoint split_nl (s : str) : list str :=
  match s with
  | [] => [[]]
  | c :: s' =>
      if c =? NL then [] :: split_nl s'
      else match split_nl s' with
           | f :: fs => (c :: f) :: fs
           | [] => [[c]]
           end
  end.

(** [s.split(",")[-1]]: the text after the last comma *)
Fixpoint after_last_comma (s : str) : str :=
  match s with
  | [] => []
  | c :: s' => if mem 44 s' then after_last_comma s'
               else if c =? 44 then s' else s
  end.

(** ** Regular expressions

    The patterns of the parser, as syntax trees, and a backtracking matcher
    with the priorities of Python's [re]: alternatives left to right, greedy
    repetition longest first, lazy repetition shortest first.  Repetition is
    only ever applied to a single character class in the source patterns. *)

Inductive cls : Type :=
| CIs (c : Z)              (* a literal character *)
| COneOf (l : str)         (* [...] *)
| CNoneOf (l : str)        (* [^...] *)
| CDigit                   (* \d *)
| CSpace                   (* \s *)
| CDot.                    (* . : anything but a newline *)

Definition cls_match (k : cls) (c : Z) : bool :=
  match k with
  | CIs x => c =? x
  | COneOf l => mem c l
  | CNoneOf l => negb (mem c l)
  | CDigit => is_digit c
  | CSpace => is_space c
  | CDot => negb (c =? NL)
  end.

Inductive re : Type :=
| Eps
| Chr (c : cls)
| Bol                      (* ^ *)
| Eol                      (* $ : the end, or before a final newline *)
| Seq (a b : re)
| Alt (a b : re)
| Star (c : cls)           (* c* *)
| StarL (c : cls)          (* c*? *)
| Grp (n : string) (a : re).

(** Captured groups, most recent binding first. *)
Abbreviation env := (list (string * str)).

Fixpoint group (g : env) (n : string) : option str :=
  match g with
  | [] => None
  | (n', w) :: g' => if String.eqb n n' then Some w else group g' n
  end.

Section Matcher.
Context {A : Type}.

Fixpoint star_g (p : Z -> bool) (s : str) (k : str -> option A) : option A :=
  match s with
  | c :: s' =>
      if p c then
        match star_g p s' k with
        | Some r => Some r
        | None => k s
        end
      else k s
  | [] => k []
  end.

Fixpoint star_l (p : Z -> bool) (s : str) (k : str -> option A) {struct s} : option A :=
  match k s with
  | Some r => Some r
  | None =>
      match s with
      | c :: s' => if p c then star_l p s' k else None
      | [] => None
      end
  end.

(** [mt r n0 s g k]: match [r] at the front of [s] (a suffix of a subject
    of length [n0]) with groups [g], then continue with [k] on what is left;
    [None] makes the matcher try its next choice. *)
Fixpoint mt (r : re) (n0 : nat) (s : str) (g : env)
    (k : str -> env -> option A) : option A :=
  match r with
  | Eps => k s g
  | Chr c =>
      match s with
      | x :: s' => if cls_match c x then k s' g else None
      | [] => None
      end
  | Bol => if Nat.eqb (length s) n0 then k s g else None
  | Eol =>
      match s with
      | [] => k s g
      | [x] => if x =? NL then k s g else None
      | _ => None
      end
  | Seq a b => mt a n0 s g (fun s' g' => mt b n0 s' g' k)
  | Alt a b =>
      match mt a n0 s g k with
      | Some x => Some x
      | None => mt b n0 s g k
      end
  | Star c => star_g (cls_match c) s (fun s' => k s' g)
  | StarL c => star_l (cls_match c) s (fun s' => k s' g)
  | Grp n a =>
      mt a n0 s g
        (fun s' g' => k s' ((n, take (length s - length s')%nat s) :: g'))
  end.

End Matcher.

(** A match object: the groups and the text after the match. *)
Definition mt_here (r : re) (n0 : nat) (s : str) : option (env * str) :=
  mt r n0 s [] (fun s' g => Some (g, s')).

(** [pattern.match(s)] *)
Definition re_match (r : re) (s : str) : option env :=
  fst <$> mt_here r (length s) s.

(** [re.search(pattern, s)]: the leftmost match *)
Fixpoint search_from (r : re) (n0 : nat) (s : str) : option env :=
  match mt_here r n0 s with
  | Some (g, _) => Some g
  | None =>
      match s with
      | [] => None
      | _ :: s' => search_from r n0 s'
      end
  end.

Definition re_search (r : re) (s : str) : option env := search_from r (length s) s.

(** [re.sub(pattern, repl, s)] for a pattern that matches no empty string
    (all patterns substituted in this program are such): every leftmost
    match, scanning on from its end. *)
Fixpoint sub_go (fuel : nat) (r : re) (n0 : nat) (repl s : str) : str :=
  match fuel with
  | O => s
  | S fuel' =>
      match mt_here r n0 s with
      | Some (_, s') =>
          if (length s' <? length s)%nat then repl ++ sub_go fuel' r n0 repl s'
          else match s with
               | [] => []
               | c :: t => c :: sub_go fuel' r n0 repl t
               end
      | None =>
          match s with
          | [] => []
          | c :: t => c :: sub_go fuel' r n0 repl t
          end
      end
  end.

Definition re_sub (r : re) (repl s : str) : str :=
  sub_go (S (length s)) r (length s) repl s.

(** Pattern combinators *)
Definition cat (rs : list re) : re := fold_right Seq Eps rs.
Definition lit (s : string) : re := cat (map (fun c => Chr (CIs c)) (u s)).
Definition opt (r : re) : re := Alt r Eps.                  (* r? *)
Definition plus (c : cls) : re := Seq (Chr c) (Star c).     (* c+ *)
Definition plusL (c : cls) : re := Seq (Chr c) (StarL c).   (* c+? *)
Definition rep12 (c : cls) : re := Seq (Chr c) (opt (Chr c)).          (* c{1,2} *)
Definition rep34 (c : cls) : re := cat [Chr c; Chr c; Chr c; opt (Chr c)]. (* c{3,4} *)
Definition alts (rs : list re) : re :=
  match rs with
  | [] => Eps
  | r :: rs' => fold_left Alt rs' r
  end.

(** ** Exceptions *)

Inductive exn : Type := TypeError | ValueError | KeyError.

Inductive exc (A : Type) : Type :=
| Ret (a : A)
| Raise (e : exn).
Arguments Ret {A} a.
Arguments Raise {A} e.

Definition bind {A B : Type} (x : exc A) (f : A -> exc B) : exc B :=
  match x with
  | Ret a => f a
  | Raise e => Raise e
  end.

Notation "x <- e1 ;; e2" := (bind e1 (fun x => e2))
  (at level 100, e1 at next level, right associativity).

(** Case analysis on the first call of a sequence in a hypothesis. *)
Ltac exc_step :=
  match goal with
  | H : context [bind ?x _] |- _ =>
      let E := fresh "E" in
      destruct x eqn:E; cbn [bind] in H; [|discriminate H]
  end.

(** [int(w)] on the text of a group: the value of a non-empty run of
    decimal digits, [ValueError] on other text. *)
Definition digit_val (c : Z) : Z := c - 48.

Definition int_of_str (w : str) : exc Z :=
  match w with
  | [] => Raise ValueError
  | _ => if forallb is_digit w
         then Ret (fold_left (fun acc c => 10 * acc + digit_val c) w 0)
         else Raise ValueError
  end.

(** [int(m.group(n))]: a group that took no part in the match is [None],
    and [int(None)] raises [TypeError]. *)
Definition int_group (o : option str) : exc Z :=
  match o with
  | Some w => int_of_str w
  | None => Raise TypeError
  end.

(** [x or ""] *)
Definition or_empty (o : option str) : str := default [] o.

(** Truth value of a [str] *)
Definition nonempty (s : str) : bool :=
  match s with
  | [] => false
  | _ => true
  end.

(** ** Data model *)

Inductive WeekPattern : Type := EVERY | ODD | EVEN.

Definition WEEKDAY_MAP : list (str * Z) :=
  [ (u "一", 1); (u "二", 2); (u "三", 3); (u "四", 4);
    (u "五", 5); (u "六", 6); (u "日", 7); (u "天", 7) ].

(** [WEEKDAY_MAP.get(k)] *)
Fixpoint dict_get (d : list (str * Z)) (k : str) : option Z :=
  match d with
  | [] => None
  | (k', v) :: d' => if str_eqb k k' then Some v else dict_get d' k
  end.

Definition WEEKDAY_MAP_get (k : option str) : option Z :=
  match k with
  | Some w => dict_get WEEKDAY_MAP w
  | None => None
  end.

Record CourseKey : Type := mkCourseKey {
  key_course_name : str;
  key_course_code : str;
  key_room : str;
  key_class_no : str
}.

Record Meeting : Type := mkMeeting {
  start_week : Z;
  end_week : Z;
  pattern : WeekPattern;
  weekday : Z;
  start_period : Z;
  end_period : Z;
  room : str;
  raw : str
}.

Definition occurs_on_week (self : Meeting) (week : Z) : bool :=
  if (week <? start_week self) || (week >? end_week self) then false
  else match pattern self with
       | EVERY => true
       | ODD => week mod 2 =? 1
       | EVEN => week mod 2 =? 0
       end.

Definition occurs_on (self : Meeting) (week wd period : Z) : bool :=
  occurs_on_week self week
  && (weekday self =? wd)
  && ((start_period self <=? period) && (period <=? end_period self)).

Abbreviation uid_t := (str * str)%type.
Abbreviation row_t := (gmap str str).

Record Course (F : Type) : Type := mkCourse {
  uid : uid_t;
  key : CourseKey;
  course_name : str;
  course_code : str;
  teacher : str;
  department : str;
  credits : F;
  class_no : str;
  category : str;
  grade : str;
  meetings : list Meeting;
  raw_row : row_t;
  parse_warnings : list str
}.
Arguments mkCourse {F}.
Arguments uid {F}.
Arguments key {F}.
Arguments course_name {F}.
Arguments course_code {F}.
Arguments teacher {F}.
Arguments department {F}.
Arguments credits {F}.
Arguments class_no {F}.
Arguments category {F}.
Arguments grade {F}.
Arguments meetings {F}.
Arguments raw_row {F}.
Arguments parse_warnings {F}.

#[global] Instance CourseKey_eq_dec : EqDecision CourseKey.
Proof. solve_decision. Defined.

#[global] Instance CourseKey_countable : Countable CourseKey.
Proof.
  refine (inj_countable'
            (fun k => (key_course_name k, key_course_code k, key_room k, key_class_no k))
            (fun '(a, b, c, d) => mkCourseKey a b c d) _).
  intros []. reflexivity.
Defined.

(** ** Normalization helpers *)

Definition EXAM_PREFIXES : list str := [u "考试时间"; u "考试方式"].

Definition RE_BLANKS : re := plus (COneOf [SP; TAB]).             (* [ \t]+ *)
Definition RE_NEWLINES : re :=                                    (* \n{2,} *)
  cat [Chr (CIs NL); Chr (CIs NL); Star (CIs NL)].

Definition _normalize_spaces (s : str) : str :=
  let s := replace1 CR [NL] (replace_crlf s) in
  let s := replace1 65307 (u ";") s in      (* the fullwidth semicolon *)
  let s := replace1 65292 (u ",") s in      (* the fullwidth comma *)
  let s := re_sub RE_BLANKS (u " ") s in
  let s := re_sub RE_NEWLINES [NL] s in
  strip s.

Definition _split_info_lines (info : str) : list str :=
  let info := _normalize_spaces info in
  if nonempty info
  then filter (fun ln => nonempty ln = true) (map strip (split_nl info))
  else [].

Definition _is_exam_line (line : str) : bool :=
  let line := strip line in
  existsb (fun pfx =>
             startswith line (pfx ++ [65306])     (* the fullwidth colon *)
             || startswith line (pfx ++ u ":")
             || startswith line pfx)
          EXAM_PREFIXES.

Definition _pattern_from_text (pat : option str) : WeekPattern :=
  match pat with
  | Some w =>
      if str_eqb w (u "单周") then ODD
      else if str_eqb w (u "双周") then EVEN
      else EVERY
  | None => EVERY
  end.

(* ^\s*备注[:：]\s* *)
Definition RE_REMARK : re :=
  cat [Bol; Star CSpace; lit "备注"; Chr (COneOf (u ":：")); Star CSpace].

Definition _strip_wrapping_parens (line : str) : str :=
  let s := strip line in
  let s := rstrip_by (fun c => mem c (u "）)")) (lstrip_by (fun c => mem c (u "（(")) s) in
  let s := re_sub RE_REMARK [] s in
  strip s.

(* (机房|内)$ *)
Definition RE_ROOM_SUFFIX : re := cat [Grp "1" (Alt (lit "机房") (lit "内")); Eol].

Definition _normalize_room (room : str) : str :=
  let room := strip room in
  if negb (nonempty room) then []
  else
    let room := strip (re_sub RE_ROOM_SUFFIX [] room) in
    re_sub (plus CSpace) [] room.

(** ** The two meeting grammars *)

Definition WEEKDAY_CHARS : cls := COneOf (u "一二三四五六日天").
Definition DASH : cls := COneOf (u "-~～").
Definition COLON : cls := COneOf (u ":：").
Definition LPAREN : str := u "（(".

Definition MEETING_PERIOD_RE : re :=
  cat [ Bol; Star CSpace;
        Grp "ws" (plus CDigit); Star CSpace; lit "~"; Star CSpace;
        Grp "we" (plus CDigit); Star CSpace; lit "周";
        plus CSpace;
        opt (cat [Grp "pat" (alts [lit "每周"; lit "单周"; lit "双周"]); Star CSpace]);
        lit "周"; Grp "wd" (Chr WEEKDAY_CHARS);
        Star CSpace;
        Grp "ps" (plus CDigit); Star CSpace; lit "~"; Star CSpace;
        Grp "pe" (plus CDigit); Star CSpace; lit "节";
        Star CSpace;
        opt (Grp "room" (plusL (CNoneOf LPAREN)));
        Star CSpace; opt (cat [Chr (COneOf LPAREN); Star CDot]); Eol ].

Definition MEETING_CLOCK_RE : re :=
  cat [ Bol; Star CSpace;
        opt (lit "第"); Star CSpace; Grp "ws" (plus CDigit); Star CSpace;
        Chr DASH; Star CSpace; Grp "we" (plus CDigit); Star CSpace; lit "周";
        Star CSpace; lit "周"; Grp "wd" (Chr WEEKDAY_CHARS);
        Star CSpace;
        opt (Grp "tod" (alts [lit "上午"; lit "下午"; lit "晚上"; lit "晚"]));
        Star CSpace;
        Grp "h1" (rep12 CDigit); Star CSpace;
        opt (cat [Chr COLON; Grp "m1" (rep12 CDigit)]); Star CSpace;
        opt (lit "点"); opt (Grp "half1" (lit "半"));
        Star CSpace; Chr DASH; Star CSpace;
        Grp "h2" (rep12 CDigit); Star CSpace;
        opt (cat [Chr COLON; Grp "m2" (rep12 CDigit)]); Star CSpace;
        opt (lit "点"); opt (Grp "half2" (lit "半"));
        Star CSpace;
        opt (cat [Chr (COneOf (u ",，")); Star CSpace; Grp "room" (plusL CDot)]);
        Star CSpace; Eol ].

(** (label, start, end, (p1, p2)) *)
Definition CLOCK_SLOT_MAP : list (str * Z * Z * (Z * Z)) :=
  [ (u "下午", 13 * 60, 16 * 60 + 30, (5, 8));
    (u "晚", 18 * 60, 21 * 60 + 30, (9, 12));
    (u "晚上", 18 * 60, 21 * 60 + 30, (9, 12)) ].

Definition _to_minutes (h m : Z) : Z := h * 60 + m.

Definition _parse_clock_parts (h m half : option str) : exc Z :=
  hh <- int_group h ;;
  mm <- match m with
        | Some _ => int_group m
        | None => Ret 0
        end ;;
  let mm := match half with
            | Some _ => 30
            | None => mm
            end in
  Ret (_to_minutes hh mm).

(** The first slot of the table accepted by [ok], as a [for] loop with an
    early [return] finds it. *)
Fixpoint first_slot (ok : str -> Z -> Z -> bool)
    (slots : list (str * Z * Z * (Z * Z))) : option (Z * Z) :=
  match slots with
  | [] => None
  | (label, s, e, pp) :: rest =>
      if ok label s e then Some pp else first_slot ok rest
  end.

Definition _clock_to_periods (tod : option str) (start_min end_min : Z)
  : option (Z * Z) :=
  let tod_norm := strip (or_empty tod) in
  let tod_norm := if str_eqb tod_norm (u "晚上") then u "晚上" else tod_norm in
  let tod_norm := if str_eqb tod_norm (u "晚") then u "晚" else tod_norm in
  match first_slot
          (fun label s e =>
             if nonempty tod_norm && negb (str_eqb tod_norm label) then false
             else (Z.abs (start_min - s) <=? 20) && (Z.abs (end_min - e) <=? 20))
          CLOCK_SLOT_MAP with
  | Some pp => Some pp
  | None =>
      match first_slot
              (fun label s e =>
                 if nonempty tod_norm && negb (str_eqb tod_norm label) then false
                 else (start_min >=? s - 20) && (end_min <=? e + 20))
              CLOCK_SLOT_MAP with
      | Some pp => Some pp
      | None =>
          if (12 * 60 <=? start_min) && (start_min <=? 15 * 60)
             && (end_min >=? 16 * 60)
          then Some (5, 8)
          else if start_min >=? 17 * 60 then Some (9, 12)
          else None
      end
  end.

(** ** Room extraction *)

(* [（(].*?[）)] *)
Definition RE_PAREN_NOTE : re :=
  cat [Chr (COneOf LPAREN); StarL CDot; Chr (COneOf (u "）)"))].

Definition ASCII_DIGIT : cls := COneOf (u "0123456789").      (* [0-9] *)

(* (理教|一教|二教|三教|四教)\s*([0-9]{3,4})\s*$ *)
Definition RE_ROOM_SHORT : re :=
  cat [ Grp "1" (alts [lit "理教"; lit "一教"; lit "二教"; lit "三教"; lit "四教"]);
        Star CSpace; Grp "2" (rep34 ASCII_DIGIT); Star CSpace; Eol ].

(* (理科\s*[一二三四五六七八九十0-9]+号楼)\s*([0-9]{3,4}) *)
Definition RE_ROOM_SCIENCE : re :=
  cat [ Grp "1" (cat [lit "理科"; Star CSpace;
                      plus (COneOf (u "一二三四五六七八九十0123456789")); lit "号楼"]);
        Star CSpace; Grp "2" (rep34 ASCII_DIGIT) ].

(** The groups 1 and 2 take part in every match of the two room patterns. *)
Definition extract_room_from_any (line : str) : str :=
  let s := _normalize_spaces line in
  let s2 := _strip_wrapping_parens s in
  match re_match MEETING_PERIOD_RE s with
  | Some m => _normalize_room (strip (or_empty (group m "room")))
  | None =>
      match re_match MEETING_CLOCK_RE s2 with
      | Some m => _normalize_room (strip (or_empty (group m "room")))
      | None =>
          let tail := strip (re_sub RE_PAREN_NOTE [] s) in
          let tail := strip (after_last_comma tail) in
          match re_search RE_ROOM_SHORT tail with
          | Some m2 =>
              _normalize_room (or_empty (group m2 "1") ++ or_empty (group m2 "2"))
          | None =>
              match re_search RE_ROOM_SCIENCE tail with
              | Some m3 =>
                  _normalize_room (or_empty (group m3 "1") ++ or_empty (group m3 "2"))
              | None => []
              end
          end
      end
  end.

(** ** Meeting parsing *)

Definition parse_meeting_line (line : str) : exc (option Meeting) :=
  let raw := strip line in
  if negb (nonempty raw) || _is_exam_line raw then Ret None
  else
    let s := _normalize_spaces raw in
    match re_match MEETING_PERIOD_RE s with
    | Some m =>
        ws <- int_group (group m "ws") ;;
        we <- int_group (group m "we") ;;
        let pat := _pattern_from_text (group m "pat") in
        match WEEKDAY_MAP_get (group m "wd") with
        | None => Ret None
        | Some wd =>
            ps <- int_group (group m "ps") ;;
            pe <- int_group (group m "pe") ;;
            let '(ps, pe) := if ps >? pe then (pe, ps) else (ps, pe) in
            let room := _normalize_room (strip (or_empty (group m "room"))) in
            Ret (Some (mkMeeting ws we pat wd ps pe room raw))
        end
    | None =>
        let s2 := _strip_wrapping_parens s in
        match re_match MEETING_CLOCK_RE s2 with
        | Some m =>
            ws <- int_group (group m "ws") ;;
            we <- int_group (group m "we") ;;
            match WEEKDAY_MAP_get (group m "wd") with
            | None => Ret None
            | Some wd =>
                let tod := strip (or_empty (group m "tod")) in
                let tod_key :=
                  if str_eqb tod (u "晚上") then u "晚上"
                  else if str_eqb tod (u "晚") then u "晚"
                  else tod in
                start_min <- _parse_clock_parts (group m "h1") (group m "m1") (group m "half1") ;;
                end_min <- _parse_clock_parts (group m "h2") (group m "m2") (group m "half2") ;;
                (* 12-hour clock: 1-4点半 in the afternoon is 13:00-16:30 *)
                let pm := existsb (str_eqb tod_key) [u "下午"; u "晚"; u "晚上"] in
                let start_min :=
                  if pm && (start_min <? 12 * 60) then start_min + 12 * 60 else start_min in
                let end_min :=
                  if pm && (end_min <? 12 * 60) then end_min + 12 * 60 else end_min in
                match _clock_to_periods (Some tod_key) start_min end_min with
                | None => Ret None
                | Some (p1, p2) =>
                    let room := _normalize_room (strip (or_empty (group m "room"))) in
                    Ret (Some (mkMeeting ws we EVERY wd p1 p2 room raw))
                end
            end
        | None => Ret None
        end
    end.

(** ** Course row parsing *)

Definition ROOM_UNKNOWN : str := u "（地点未知）".

(** [str(row.get(k, ""))] *)
Definition row_get (row : row_t) (k : string) : str := default [] (row !! u k).

(** The three lists the loop of [parse_course_row] appends to. *)
Record row_acc : Type := mkAcc {
  acc_meetings : list Meeting;
  acc_warnings : list str;
  acc_rooms : list str
}.

Definition add_room (rooms : list str) (rm : str) : list str :=
  if nonempty rm then rooms ++ [rm] else rooms.

(** One iteration of [for ln in lines] *)
Definition row_step (acc : row_acc) (ln : str) : exc row_acc :=
  if _is_exam_line ln then Ret acc
  else
    mt <- parse_meeting_line ln ;;
    match mt with
    | None =>
        Ret (mkAcc (acc_meetings acc)
                   (acc_warnings acc ++ [u "未能解析上课行：" ++ ln])
                   (add_room (acc_rooms acc) (extract_room_from_any ln)))
    | Some mt =>
        Ret (mkAcc (acc_meetings acc ++ [mt])
                   (acc_warnings acc)
                   (if nonempty (room mt) then acc_rooms acc ++ [room mt]
                    else add_room (acc_rooms acc) (extract_room_from_any ln)))
    end.

Fixpoint row_loop (acc : row_acc) (lines : list str) : exc row_acc :=
  match lines with
  | [] => Ret acc
  | ln :: rest => acc' <- row_step acc ln ;; row_loop acc' rest
  end.

(** Every room gathered so far is a non-empty text. *)
Definition rooms_named (acc : row_acc) : Prop :=
  Forall (fun r => nonempty r = true) (acc_rooms acc).

(** [rooms[0] if rooms else "（地点未知）"] *)
Definition room_for_key (rooms : list str) : str :=
  match rooms with
  | r :: _ => r
  | [] => ROOM_UNKNOWN
  end.

Section Rows.
(** [float(text)] is a parameter: [None] stands for its [ValueError]. *)
Context {F : Type} (float_of_str : str -> option F) (fzero : F).

Definition parse_course_row (row : row_t) : exc (Course F) :=
  let course_code := strip (row_get row "课程号") in
  let course_name := strip (row_get row "课程名") in
  let teacher := strip (row_get row "教师") in
  let department := strip (row_get row "开课单位") in
  let class_no := strip (row_get row "班号") in
  let category := strip (row_get row "课程类别") in
  let grade := strip (row_get row "年级") in
  let credits_raw := strip (row_get row "学分") in
  let credits :=
    if nonempty credits_raw then default fzero (float_of_str credits_raw)
    else fzero in
  let info := strip (row_get row "上课考试信息") in
  let lines := _split_info_lines info in
  acc <- row_loop (mkAcc [] [] []) lines ;;
  let key := mkCourseKey course_name course_code (room_for_key (acc_rooms acc)) class_no in
  Ret (mkCourse (course_code, class_no) key course_name course_code teacher
                department credits class_no category grade
                (acc_meetings acc) row (acc_warnings acc)).

(** *** The load loop of [parse_file]

    The diagnostics keep the values their messages interpolate. *)

Inductive diag : Type :=
| UidDuplicate (idx : Z) (id : uid_t) (old_teacher new_teacher : str)
| RowFailed (idx : Z) (e : exn)
| RoomEmpty (idx : Z) (code name cls_no tch info : str)
| MeetingWarning (idx : Z) (code name cls_no w : str)
| KeyCollision (idx : Z) (k : CourseKey) (old_class old_teacher new_class new_teacher : str).

Record ParseResult : Type := mkResult {
  courses : list (Course F);
  by_key : gmap CourseKey (list (Course F));
  by_uid : gmap uid_t (Course F);
  global_warnings : list diag;
  empty_room_rows : list diag;
  meeting_parse_warnings : list diag;
  key_collisions : list diag;
  total_rows : nat
}.

(** The body of [for idx, row in enumerate(rows, start=2)], with its
    [try] / [except Exception]. *)
Definition load_step (res : ParseResult) (idx : Z) (row : row_t) : ParseResult :=
  match parse_course_row row with
  | Ret c =>
      let gw :=
        match by_uid res !! uid c with
        | Some old => global_warnings res ++ [UidDuplicate idx (uid c) (teacher old) (teacher c)]
        | None => global_warnings res
        end in
      let er :=
        if str_eqb (key_room (key c)) []
        then empty_room_rows res
               ++ [RoomEmpty idx (course_code c) (course_name c) (class_no c) (teacher c)
                             (row_get row "上课考试信息")]
        else empty_room_rows res in
      let mw :=
        meeting_parse_warnings res
          ++ map (MeetingWarning idx (course_code c) (course_name c) (class_no c))
                 (parse_warnings c) in
      let lst := default [] (by_key res !! key c) in
      let kc :=
        match lst with
        | old :: _ =>
            key_collisions res
              ++ [KeyCollision idx (key c) (class_no old) (teacher old) (class_no c) (teacher c)]
        | [] => key_collisions res
        end in
      mkResult (courses res ++ [c])
               (<[key c := lst ++ [c]]> (by_key res))
               (<[uid c := c]> (by_uid res))
               gw er mw kc (total_rows res)
  | Raise e =>
      mkResult (courses res) (by_key res) (by_uid res)
               (global_warnings res ++ [RowFailed idx e])
               (empty_room_rows res) (meeting_parse_warnings res)
               (key_collisions res) (total_rows res)
  end.

Fixpoint load_loop (res : ParseResult) (idx : Z) (rows : list row_t) : ParseResult :=
  match rows with
  | [] => res
  | row :: rest => load_loop (load_step res idx row) (idx + 1) rest
  end.

(** [parse_file] from the rows its loader read *)
Definition parse_rows (rows : list row_t) : ParseResult :=
  load_loop (mkResult [] ∅ ∅ [] [] [] [] (length rows)) 2 rows.

End Rows.

(** ** Occupancy and selection ([course_ui.py]) *)

Definition WEEK_MIN : Z := 1.
Definition WEEK_MAX : Z := 16.

(** (week, weekday, period) *)
Abbreviation cell := (Z * Z * Z)%type.

(** [range(a, b)] *)
Definition range (a b : Z) : list Z := seqZ a (b - a).

Definition add_meeting_cells (week : Z) (occ : gset cell) (m : Meeting) : gset cell :=
  if negb (occurs_on_week m week) then occ
  else foldl (fun occ p => occ ∪ {[ (week, weekday m, p) ]}) occ
             (range (start_period m) (end_period m + 1)).

Definition build_occupied_cells_for_course {F : Type} (c : Course F) : gset cell :=
  foldl (fun occ week => foldl (add_meeting_cells week) occ (meetings c))
        ∅ (range WEEK_MIN (WEEK_MAX + 1)).

(** [[f(x) for x in xs]] where [f] may raise *)
Fixpoint mapM {A B : Type} (f : A -> exc B) (xs : list A) : exc (list B) :=
  match xs with
  | [] => Ret []
  | x :: xs' => y <- f x ;; ys <- mapM f xs' ;; Ret (y :: ys)
  end.

(** [d[k]] *)
Definition getitem {K : Type} `{Countable K} {V : Type} (d : gmap K V) (k : K) : exc V :=
  match d !! k with
  | Some v => Ret v
  | None => Raise KeyError
  end.

Section Selection.
(** Credits are floats: their arithmetic is a parameter ([fsum] is the
    builtin [sum], [ftruthy] the truth value of a float, [tol] is [1e-9]).
    So is the order in which a [set] is iterated. *)
Context {F : Type}.
Context (fadd : F -> F -> F) (fgt : F -> F -> bool) (fsum : list F -> F).
Context (ftruthy : F -> bool) (fzero tol : F).
Context (iter_uids : gset uid_t -> list uid_t).
Context (iter_cells : gset cell -> list cell).

(** The part of [CourseUI] the selection logic reads and writes. *)
Record CourseUI : Type := mkUI {
  ui_by_uid : gmap uid_t (Course F);
  selected : gset uid_t;
  credit_limit_var : F
}.

(** [self.occ_cache], filled once in [__init__] *)
Definition occ_cache (self : CourseUI) : gmap uid_t (gset cell) :=
  build_occupied_cells_for_course <$> ui_by_uid self.

(** [float(x or 0.0)] *)
Definition float_or_zero (x : F) : F := if ftruthy x then x else fzero.

Definition credits_of (self : CourseUI) (id : uid_t) : exc F :=
  c <- getitem (ui_by_uid self) id ;; Ret (float_or_zero (credits c)).

Definition _current_total_credits (self : CourseUI) : exc F :=
  cs <- mapM (credits_of self) (iter_uids (selected self)) ;; Ret (fsum cs).

(** A reported conflict: the two courses and the cell, the values the
    message interpolates. *)
Record conflict : Type := mkConflict {
  conflict_c1 : Course F;
  conflict_c2 : Course F;
  conflict_cell : cell
}.

(** [for cell in self.occ_cache[uid]: occupied[cell] = uid] *)
Definition claim_cells (occupied : gmap cell uid_t) (id : uid_t) (cells : list cell)
  : gmap cell uid_t :=
  foldl (fun occ c => <[c := id]> occ) occupied cells.

Fixpoint claim_selected (self : CourseUI) (occupied : gmap cell uid_t)
    (ids : list uid_t) : exc (gmap cell uid_t) :=
  match ids with
  | [] => Ret occupied
  | id :: rest =>
      cells <- getitem (occ_cache self) id ;;
      claim_selected self (claim_cells occupied id (iter_cells cells)) rest
  end.

(** The inner loop over one candidate's cells: the owner and the cell of
    the first collision, or the map with the candidate's cells claimed. *)
Fixpoint scan_cells (occupied : gmap cell uid_t) (id : uid_t) (cells : list cell)
  : (uid_t * cell) + gmap cell uid_t :=
  match cells with
  | [] => inr occupied
  | c :: rest =>
      match occupied !! c with
      | Some other => inl (other, c)
      | None => scan_cells (<[c := id]> occupied) id rest
      end
  end.

Fixpoint scan_uids (self : CourseUI) (occupied : gmap cell uid_t)
    (uids : list uid_t) : exc (option conflict) :=
  match uids with
  | [] => Ret None
  | id :: rest =>
      cells <- getitem (occ_cache self) id ;;
      match scan_cells occupied id (iter_cells cells) with
      | inl (other, c) =>
          c1 <- getitem (ui_by_uid self) other ;;
          c2 <- getitem (ui_by_uid self) id ;;
          Ret (Some (mkConflict c1 c2 c))
      | inr occupied' => scan_uids self occupied' rest
      end
  end.

Definition _find_conflict_between (self : CourseUI) (uids : list uid_t)
  : exc (option conflict) :=
  occupied <- claim_selected self ∅ (iter_uids (selected self)) ;;
  scan_uids self occupied uids.

(** What the user is shown after a click on "add". *)
Inductive ui_event : Type :=
| Nothing
| ConflictWarning (c : conflict)
| CreditWarning (current add_credits limit : F)
| Refreshed.

Definition _add_selected_courses (self : CourseUI) (uids_to_add : list uid_t)
  : exc (CourseUI * ui_event) :=
  match uids_to_add with
  | [] => Ret (self, Nothing)
  | _ =>
      found <- _find_conflict_between self uids_to_add ;;
      match found with
      | Some c => Ret (self, ConflictWarning c)
      | None =>
          current <- _current_total_credits self ;;
          cs <- mapM (credits_of self) uids_to_add ;;
          let add_credits := fsum cs in
          let limit := float_or_zero (credit_limit_var self) in
          if fgt (fadd current add_credits) (fadd limit tol)
          then Ret (self, CreditWarning current add_credits limit)
          else
            Ret (mkUI (ui_by_uid self)
                      (foldl (fun sel id => sel ∪ {[ id ]}) (selected self) uids_to_add)
                      (credit_limit_var self),
                 Refreshed)
      end
  end.

(** The cells of a course in the cache (none for an unknown uid), and the
    cells claimed when candidate number [i] of a batch is examined: those
    of the selected courses and of the candidates before it. *)
Definition cells_of (self : CourseUI) (id : uid_t) : gset cell :=
  default ∅ (occ_cache self !! id).

Definition claimed_before (self : CourseUI) (uids : list uid_t) (i : nat) (c : cell) : Prop :=
  exists o, (o ∈ selected self \/ o ∈ take i uids) /\ c ∈ cells_of self o.

(** The invariant of the map [occupied] of the conflict check: every
    cell in it has an owner among [own] that occupies it, and every cell
    of a uid in [own] is in it. *)
Definition owned (self : CourseUI) (occupied : gmap cell uid_t) (own : list uid_t) : Prop :=
  (forall c o, occupied !! c = Some o -> o ∈ own /\ c ∈ cells_of self o)
  /\ (forall c o, o ∈ own -> c ∈ cells_of self o -> is_Some (occupied !! c)).

(** Every uid in use is a key of [by_uid]. *)
Definition known (self : CourseUI) (uids : list uid_t) : Prop :=
  (forall id, id ∈ selected self -> is_Some (ui_by_uid self !! id))
  /\ (forall id, id ∈ uids -> is_Some (ui_by_uid self !! id)).

End Selection.

(** ** A sample selection

    Three courses on Wednesdays: [A] in periods 3 to 4 of every week, [B]
    in periods 4 to 5 of week 5, [C] in periods 5 to 6 of every week; [A]
    is selected.  Credits are rationals here, with the tolerance [1e-9]. *)

Definition sample_course (code : string) (cr : Q) (ms : list Meeting) : Course Q :=
  mkCourse (u code, u "1") (mkCourseKey (u code) (u code) ROOM_UNKNOWN (u "1"))
           (u code) (u code) [] [] cr (u "1") [] [] ms ∅ [].

Definition course_a : Course Q := sample_course "A" 3 [mkMeeting 1 16 EVERY 3 3 4 [] []].
Definition course_b : Course Q := sample_course "B" 2 [mkMeeting 5 5 EVERY 3 4 5 [] []].
Definition course_c : Course Q := sample_course "C" 2 [mkMeeting 1 16 EVERY 3 5 6 [] []].

Definition sample_ui (limit : Q) : @CourseUI Q :=
  mkUI (<[uid course_a := course_a]>
          (<[uid course_b := course_b]> (<[uid course_c := course_c]> ∅)))
       {[ uid course_a ]} limit.

Definition q_gt (x y : Q) : bool := negb (Qle_bool x y).
Definition q_sum (xs : list Q) : Q := fold_left Qplus xs 0%Q.
Definition q_truthy (x : Q) : bool := negb (Qeq_bool x 0).
Definition q_tol : Q := (1 # 1000000000)%Q.

(** ** What a match binds

    A relational reading of the matcher (the text a pattern consumes and
    the groups it binds), and two syntactic checks on patterns: the groups
    every match binds, and the groups whose text is a run of digits. *)

Fixpoint sem (r : re) (s : str) (g : env) (s' : str) (g' : env) : Prop :=
  match r with
  | Eps | Bol | Eol => s' = s /\ g' = g
  | Chr c => exists x, s = x :: s' /\ cls_match c x = true /\ g' = g
  | Seq a b => exists s1 g1, sem a s g s1 g1 /\ sem b s1 g1 s' g'
  | Alt a b => sem a s g s' g' \/ sem b s g s' g'
  | Star c | StarL c =>
      exists w, s = w ++ s' /\ forallb (cls_match c) w = true /\ g' = g
  | Grp n a =>
      exists g1, sem a s g s' g1 /\ g' = (n, take (length s - length s')%nat s) :: g1
  end.

Definition has_name (n : string) (l : list string) : bool := existsb (String.eqb n) l.

(** The groups bound by every match of the pattern *)
Fixpoint binds (r : re) : list string :=
  match r with
  | Seq a b => binds a ++ binds b
  | Alt a b => List.filter (fun n => has_name n (binds b)) (binds a)
  | Grp n a => n :: binds a
  | _ => []
  end.

(** Patterns that consume digits only and bind nothing *)
Fixpoint only_digits (r : re) : bool :=
  match r with
  | Eps => true
  | Chr CDigit | Star CDigit | StarL CDigit => true
  | Seq a b | Alt a b => only_digits a && only_digits b
  | _ => false
  end.

(** Patterns that consume at least one character *)
Fixpoint nonnull (r : re) : bool :=
  match r with
  | Chr _ => true
  | Seq a b => nonnull a || nonnull b
  | Alt a b => nonnull a && nonnull b
  | Grp _ a => nonnull a
  | _ => false
  end.

(** The groups the parser passes to [int] *)
Definition numeric (n : string) : bool :=
  has_name n ["ws"; "we"; "ps"; "pe"; "h1"; "m1"; "h2"; "m2"]%string.

(** Every numeric group of the pattern wraps a non-empty run of digits. *)
Fixpoint caps_ok (r : re) : bool :=
  match r with
  | Seq a b | Alt a b => caps_ok a && caps_ok b
  | Grp n a => caps_ok a && (if numeric n then only_digits a && nonnull a else true)
  | _ => true
  end.

Definition digits (w : str) : Prop := w <> [] /\ forallb is_digit w = true.

(** The numeric groups of [g] hold digits. *)
Definition caps (g : env) : Prop :=
  forall n w, numeric n = true -> group g n = Some w -> digits w.

(** ** What one line of the meeting field contributes

    The meeting of a line that parses, whether a line is reported as
    unparsed, and the room recovered from a line. *)

Definition line_meeting (ln : str) : option Meeting :=
  if _is_exam_line ln then None
  else match parse_meeting_line ln with
       | Ret (Some m) => Some m
       | _ => None
       end.

Definition line_unparsed (ln : str) : bool :=
  negb (_is_exam_line ln)
  && match parse_meeting_line ln with
     | Ret None => true
     | _ => false
     end.

Definition line_room (ln : str) : option str :=
  if _is_exam_line ln then None
  else if nonempty (extract_room_from_any ln) then Some (extract_room_from_any ln)
  else None.

(** ** The invariant of the load loop *)

Definition is_uid_duplicate (d : diag) : Prop :=
  match d with
  | UidDuplicate _ _ _ _ => True
  | _ => False
  end.

(** The index by uid holds the last course of each uid, the index by key
    the courses of each key in row order, and the duplicate warnings and
    key collisions count the rows beyond the first of each uid and key. *)
Definition load_inv {F : Type} (res : @ParseResult F) : Prop :=
  (forall id, by_uid res !! id = last (filter (fun c => uid c = id) (courses res)))
  /\ (forall k, by_key res !! k
                = match filter (fun c => key c = k) (courses res) with
                  | [] => None
                  | l => Some l
                  end)
  /\ (length (global_warnings res) + size (by_uid res) = length (courses res))%nat
  /\ (length (key_collisions res) + size (by_key res) = length (courses res))%nat
  /\ Forall is_uid_duplicate (global_warnings res).


(** ** Deduplication ([class_info_crawler.py]) *)

(** [(course.get("课程号", ""), course.get("班号", ""))] *)
Definition dedup_key (course : row_t) : str * str :=
  (row_get course "课程号", row_get course "班号").

(** One iteration of the loop of [deduplicate], on the pair of [seen] and
    [unique]. *)
Definition dedup_step (st : gset (str * str) * list row_t) (course : row_t)
  : gset (str * str) * list row_t :=
  let key := dedup_key course in
  if decide (key ∈ st.1) then st else (st.1 ∪ {[ key ]}, st.2 ++ [course]).

Definition deduplicate (courses : list row_t) : list row_t :=
  (foldl dedup_step (∅, []) courses).2.

(** ** Removing courses, and selections without conflicts *)

Section SelectionMore.
Context {F : Type}.

(** No two selected courses share a cell. *)
Definition conflict_free (self : @CourseUI F) : Prop :=
  forall a b, a ∈ selected self -> b ∈ selected self -> a <> b ->
              cells_of self a ## cells_of self b.

(** No candidate shares a cell with a selected course or with the
    candidate at another position of the batch. *)
Definition batch_clear (self : @CourseUI F) (uids : list uid_t) : Prop :=
  (forall id o, id ∈ uids -> o ∈ selected self -> cells_of self id ## cells_of self o)
  /\ (forall i j a b, i <> j -> uids !! i = Some a -> uids !! j = Some b ->
                      cells_of self a ## cells_of self b).

Definition _remove_selected_courses (self : @CourseUI F) (uids_to_remove : list uid_t)
  : @CourseUI F * @ui_event F :=
  match uids_to_remove with
  | [] => (self, Nothing)
  | _ =>
      (mkUI (ui_by_uid self)
            (foldl (fun sel id => sel ∖ {[ id ]}) (selected self) uids_to_remove)
            (credit_limit_var self),
       Refreshed)
  end.

End SelectionMore.


(** ** The timetable grid ([course_ui.py]) *)

Definition DAYS : list str :=
  [ u "周一"; u "周二"; u "周三"; u "周四"; u "周五"; u "周六"; u "周日" ].

(** [str(n)] of an [int] *)
Fixpoint str_of_uint (d : Decimal.uint) : str :=
  match d with
  | Decimal.Nil => []
  | Decimal.D0 d => 48 :: str_of_uint d
  | Decimal.D1 d => 49 :: str_of_uint d
  | Decimal.D2 d => 50 :: str_of_uint d
  | Decimal.D3 d => 51 :: str_of_uint d
  | Decimal.D4 d => 52 :: str_of_uint d
  | Decimal.D5 d => 53 :: str_of_uint d
  | Decimal.D6 d => 54 :: str_of_uint d
  | Decimal.D7 d => 55 :: str_of_uint d
  | Decimal.D8 d => 56 :: str_of_uint d
  | Decimal.D9 d => 57 :: str_of_uint d
  end.

Definition str_of_int (n : Z) : str :=
  match Z.to_int n with
  | Decimal.Pos d => str_of_uint d
  | Decimal.Neg d => 45 :: str_of_uint d
  end.

(** [DAYS[weekday - 1]] is in range under the test, so the default is
    never taken. *)
Definition weekday_to_label (weekday : Z) : str :=
  if (1 <=? weekday) && (weekday <=? 7)
  then default [] (DAYS !! Z.to_nat (weekday - 1))
  else u "周" ++ str_of_int weekday.

(** A [tk.Label] of the grid, as far as the code configures it *)
Record Label : Type := mkLabel {
  label_text : str;
  label_background : str
}.

Abbreviation grid_t := (gmap (Z * Z) Label).

Definition HEADER_BG : str := u "#f5f5f5".
Definition WHITE : str := u "white".

(** [CourseUI._build_timetable_grid]: the dict [self.cells] it fills *)
Definition _build_timetable_grid : grid_t :=
  let cells : grid_t := <[(0, 0) := mkLabel (u "节次/星期") HEADER_BG]> ∅ in
  let cells :=
    foldl (fun (cells : grid_t) '(i, day) => <[(0, i) := mkLabel day HEADER_BG]> cells)
          cells (imap (fun i day => (1 + Z.of_nat i, day)) DAYS) in
  foldl (fun (cells : grid_t) period =>
           let cells :=
             <[(period, 0) := mkLabel (u "第" ++ str_of_int period ++ u "节") HEADER_BG]> cells in
           foldl (fun (cells : grid_t) daycol => <[(period, daycol) := mkLabel [] WHITE]> cells)
                 cells (range 1 8))
        cells (range 1 13).

(** The widgets [_refresh_timetable] writes to, with the week shown. *)
Record Timetable : Type := mkTimetable {
  week_var : Z;
  week_label : str;
  grid_cells : grid_t;
  credit_status : str
}.

Fixpoint foldM {A B : Type} (f : A -> B -> exc A) (a : A) (xs : list B) : exc A :=
  match xs with
  | [] => Ret a
  | x :: xs' => a' <- f a x ;; foldM f a' xs'
  end.

(** [self.cells[k].config(text=..., background=...)] *)
Definition config_cell (cells : grid_t) (k : Z * Z) (text bg : str) : exc grid_t :=
  _ <- getitem cells k ;; Ret (<[k := mkLabel text bg]> cells).

Definition clear_cells (cells : grid_t) : exc grid_t :=
  foldM (fun cells period =>
           foldM (fun cells daycol => config_cell cells (period, daycol) [] WHITE)
                 cells (range 1 8))
        cells (range 1 13).

(** [grid_text]: a dict, its keys in insertion order *)
Abbreviation grid_text_t := (list ((Z * Z) * list str)).

(** [grid_text.setdefault(key, []).append(x)] *)
Fixpoint setdefault_append (g : grid_text_t) (k : Z * Z) (x : str) : grid_text_t :=
  match g with
  | [] => [(k, [x])]
  | (k', l) :: rest =>
      if decide (k' = k) then (k', l ++ [x]) :: rest
      else (k', l) :: setdefault_append rest k x
  end.

(** [sep.join(parts)] *)
Fixpoint join (sep : str) (parts : list str) : str :=
  match parts with
  | [] => []
  | [p] => p
  | p :: rest => p ++ sep ++ join sep rest
  end.

Definition PALETTE : list str :=
  [ u "#e8f4ff"; u "#e9f8ef"; u "#fff2e6"; u "#f3e8ff"; u "#ffe8f0"; u "#f0f0ff" ].

Definition ENTRY_SEP : str := NL :: u "---" ++ [NL].

Section TimetableRefresh.
Context {F : Type}.
Context (fsum : list F -> F) (ftruthy : F -> bool) (fzero : F).
(** [format(x, "g")] of a float and the builtin [hash] of a [str] are
    parameters. *)
Context (fmt_g : F -> str) (hash : str -> Z).
Context (iter_uids : gset uid_t -> list uid_t).

Definition _update_credit_status (self : @CourseUI F) (tt : Timetable) : exc Timetable :=
  total <- _current_total_credits fsum ftruthy fzero iter_uids self ;;
  let limit := float_or_zero ftruthy fzero (credit_limit_var self) in
  Ret (mkTimetable (week_var tt) (week_label tt) (grid_cells tt)
         (u "已选总学分：" ++ fmt_g total ++ u " / 上限：" ++ fmt_g limit)).

(** [(m.room or c.key.room or "地点未知").strip()] *)
Definition place (c : Course F) (m : Meeting) : str :=
  strip (if nonempty (room m) then room m
         else if nonempty (key_room (key c)) then key_room (key c)
         else u "地点未知").

Definition cell_entry (c : Course F) (m : Meeting) : str :=
  course_name c ++ [NL] ++ teacher c ++ [NL] ++ place c m.

Definition add_meeting_text (week : Z) (c : Course F) (g : grid_text_t) (m : Meeting)
  : grid_text_t :=
  if negb (occurs_on_week m week) then g
  else foldl (fun g p => setdefault_append g (p, weekday m) (cell_entry c m)) g
             (range (start_period m) (end_period m + 1)).

Definition collect_grid_text (self : @CourseUI F) (week : Z) (ids : list uid_t)
  : exc grid_text_t :=
  foldM (fun g id => c <- getitem (ui_by_uid self) id ;;
                     Ret (foldl (add_meeting_text week c) g (meetings c)))
        [] ids.

Definition color_for (name : str) : str :=
  default [] (PALETTE !! Z.to_nat (hash name mod Z.of_nat (length PALETTE))).

(** [lines[0].split("\n")[0] if lines else ""] *)
Definition first_name (lines : list str) : str :=
  match lines with
  | [] => []
  | l :: _ => default [] (head (split_nl l))
  end.

(** The text and colour a cell gets from the entries gathered for it. *)
Definition cell_label (lines : list str) : Label :=
  mkLabel (join ENTRY_SEP lines) (color_for (first_name lines)).

Definition paint (cells : grid_t) (g : grid_text_t) : exc grid_t :=
  foldM (fun cells '(k, lines) =>
           let txt := join ENTRY_SEP lines in
           config_cell cells k txt (color_for (first_name lines)))
        cells g.

Definition _refresh_timetable (self : @CourseUI F) (tt : Timetable) : exc Timetable :=
  let week := week_var tt in
  let label := u "第 " ++ str_of_int week ++ u " 周（1~16 可切换）" in
  cells <- clear_cells (grid_cells tt) ;;
  grid_text <- collect_grid_text self week (iter_uids (selected self)) ;;
  cells <- paint cells grid_text ;;
  _update_credit_status self (mkTimetable week label cells (credit_status tt)).

Definition _prev_week (self : @CourseUI F) (tt : Timetable) : exc Timetable :=
  let w := week_var tt in
  if w >? WEEK_MIN
  then _refresh_timetable self
         (mkTimetable (w - 1) (week_label tt) (grid_cells tt) (credit_status tt))
  else Ret tt.

Definition _next_week (self : @CourseUI F) (tt : Timetable) : exc Timetable :=
  let w := week_var tt in
  if w <? WEEK_MAX
  then _refresh_timetable self
         (mkTimetable (w + 1) (week_label tt) (grid_cells tt) (credit_status tt))
  else Ret tt.

(** The two buttons of the week navigation, and pressing them in turn. *)
Inductive week_button : Type := PrevWeek | NextWeek.

Definition press (self : @CourseUI F) (tt : Timetable) (b : week_button) : exc Timetable :=
  match b with
  | PrevWeek => _prev_week self tt
  | NextWeek => _next_week self tt
  end.

End TimetableRefresh.

(** The keys of the grid: periods 0 to 12 by columns 0 to 7, row 0 and
    column 0 holding the headers. *)
Definition on_grid (k : Z * Z) : Prop := 0 <= k.1 <= 12 /\ 0 <= k.2 <= 7.

(** The keys of [grid_text] are distinct and none has an empty list. *)
Definition grid_text_wf (g : grid_text_t) : Prop :=
  NoDup g.*1 /\ Forall (fun kl => kl.2 <> []) g.


(** [grid_text.get(k, [])] *)
Fixpoint texts (g : grid_text_t) (k : Z * Z) : list str :=
  match g with
  | [] => []
  | (k', l) :: rest => if decide (k' = k) then l else texts rest k
  end.

(** What the loops of [_refresh_timetable] gather for one cell: the
    entries of the meetings that occur on it, course by course. *)
Section TimetableEntries.
Context {F : Type}.

Definition meeting_entries (week p d : Z) (c : Course F) : list str :=
  flat_map (fun m => if occurs_on m week d p then [cell_entry c m] else []) (meetings c).

Definition cell_entries (self : @CourseUI F) (week : Z) (ids : list uid_t) (p d : Z)
  : list str :=
  flat_map (fun id => match ui_by_uid self !! id with
                      | Some c => meeting_entries week p d c
                      | None => []
                      end) ids.

End TimetableEntries.

(** ** The two course lists ([course_ui.py]) *)

(** [a < b] on [str]: by code points, a proper prefix first *)
Fixpoint str_ltb (a b : str) : bool :=
  match a, b with
  | _, [] => false
  | [], _ :: _ => true
  | x :: a', y :: b' => if x =? y then str_ltb a' b' else x <? y
  end.

(** [a < b] on the tuples the lists are sorted by: decided at the first
    component that differs *)
Definition key_ltb (a b : str * str * str * str) : bool :=
  let '(a1, a2, a3, a4) := a in
  let '(b1, b2, b3, b4) := b in
  if negb (str_eqb a1 b1) then str_ltb a1 b1
  else if negb (str_eqb a2 b2) then str_ltb a2 b2
  else if negb (str_eqb a3 b3) then str_ltb a3 b3
  else str_ltb a4 b4.

(** [list.sort]: the stable sort, which uses [<] only; an insertion sort
    computes it. *)
Fixpoint insert_sorted {A : Type} (ltb : A -> A -> bool) (x : A) (l : list A) : list A :=
  match l with
  | [] => [x]
  | y :: l' => if ltb y x then y :: insert_sorted ltb x l' else x :: l
  end.

Definition list_sort {A : Type} (ltb : A -> A -> bool) (l : list A) : list A :=
  foldr (insert_sorted ltb) [] l.

Section CourseLists.
Context {F : Type}.
(** The order in which a [dict] and a [set] are iterated are parameters. *)
Context (iter_items : gmap uid_t (Course F) -> list (uid_t * Course F)).
Context (iter_uids : gset uid_t -> list uid_t).

Definition sort_key (c : Course F) : str * str * str * str :=
  (strip (department c), strip (course_name c), strip (teacher c), strip (class_no c)).

(** [uids.sort(key=lambda u: (...self.by_uid[u]...))]: the keys are
    computed first, one lookup per uid. *)
Definition sort_uids (self : @CourseUI F) (uids : list uid_t) : exc (list uid_t) :=
  keyed <- mapM (fun id => c <- getitem (ui_by_uid self) id ;; Ret (sort_key c, id)) uids ;;
  Ret (snd <$> list_sort (fun a b => key_ltb a.1 b.1) keyed).

(** The test of the loop of [_filtered_unselected_uids] on one item of
    [self.by_uid.items()]: the uid it appends, if any. *)
Definition unselected_candidate (self : @CourseUI F) (dept : str) (item : uid_t * Course F)
  : option uid_t :=
  let '(id, c) := item in
  if decide (id ∈ selected self) then None
  else if negb (str_eqb dept (u "全部")) && negb (str_eqb (strip (department c)) dept)
       then None
       else Some id.

Definition _filtered_unselected_uids (self : @CourseUI F) (dept_var : str)
  : exc (list uid_t) :=
  let dept := strip dept_var in
  let uids := omap (unselected_candidate self dept) (iter_items (ui_by_uid self)) in
  sort_uids self uids.

Definition _selected_uids_sorted (self : @CourseUI F) : exc (list uid_t) :=
  sort_uids self (iter_uids (selected self)).

(** The sort key of a uid, as the lists' order is stated. *)
Definition uid_key (self : @CourseUI F) (id : uid_t) : str * str * str * str :=
  match ui_by_uid self !! id with
  | Some c => sort_key c
  | None => ([], [], [], [])
  end.

(** A course passes the department filter. *)
Definition dept_matches (dept_var : str) (c : Course F) : Prop :=
  strip dept_var = u "全部" \/ strip (department c) = strip dept_var.

End CourseLists.

(** A timetable as [__init__] leaves it before the first refresh, in
    week [w]; a course with periods 13 to 14 and a selection of it; a
    file of one row, loaded and selected. *)
Definition sample_timetable (w : Z) : Timetable := mkTimetable w [] _build_timetable_grid [].

Definition course_late : Course Q := sample_course "L" 2 [mkMeeting 1 16 EVERY 1 13 14 [] []].

Definition late_ui : @CourseUI Q :=
  mkUI (<[uid course_late := course_late]> ∅) {[ uid course_late ]} 25%Q.

Definition sample_row : row_t :=
  <[u "课程号" := u "00130201"]>
    (<[u "班号" := u "1"]>
       (<[u "课程名" := u "高等数学"]>
          (<[u "上课考试信息" := u "1~16周 周一 1~2节 理教107"]> ∅))).

Definition loaded_ui : @CourseUI Q :=
  mkUI (by_uid (parse_rows (fun _ => None) 0%Q [sample_row]))
       {[ (u "00130201", u "1") ]} 25%Q.

(** Boolean tests in hypotheses, as propositions. *)
Ltac bools :=
  repeat match goal with
    | H : (_ && _) = true |- _ => apply andb_true_iff in H as [? ?]
    | H : (_ && _) = false |- _ => apply andb_false_iff in H
    | H : (_ <=? _) = true |- _ => apply Z.leb_le in H
    | H : (_ <=? _) = false |- _ => apply Z.leb_gt in H
    | H : (_ >=? _) = true |- _ => rewrite Z.geb_leb in H; apply Z.leb_le in H
    | H : (_ >=? _) = false |- _ => rewrite Z.geb_leb in H; apply Z.leb_gt in H
    end.

(** * Properties *)

(** ** Literals and sample lines *)

Example u_decodes : u "周1~" = [21608; 49; 126].
Proof. reflexivity. Qed.

Example fullwidth_marks : u "；，：" = [65307; 65292; 65306].
Proof. reflexivity. Qed.

(** The period-notation line of the specification parses to one meeting
    with the numbers, the pattern, the weekday and the room it names. *)
Theorem period_line_parses :
  parse_meeting_line (u "3~16周 每周 周三 3~4节 理教107")
  = Ret (Some (mkMeeting 3 16 EVERY 3 3 4 (u "理教107") (u "3~16周 每周 周三 3~4节 理教107"))).
Proof. vm_compute. reflexivity. Qed.

(** A line with the odd-week token gives the pattern [ODD]: the meeting
    skips week 2 and takes place in week 3. *)
Theorem odd_week_line_parses :
  exists m, parse_meeting_line (u "1~16周 单周 周五 5~6节") = Ret (Some m)
            /\ pattern m = ODD
            /\ occurs_on_week m 2 = false /\ occurs_on_week m 3 = true.
Proof. eexists. split; [vm_compute; reflexivity | repeat split]. Qed.

(** ** Week pattern *)

Lemma mod2_odd (w : Z) : (w mod 2 =? 1) = Z.odd w.
Proof. rewrite Zmod_odd. destruct (Z.odd w); reflexivity. Qed.

Lemma mod2_even (w : Z) : (w mod 2 =? 0) = Z.even w.
Proof. rewrite Zmod_even. destruct (Z.even w); reflexivity. Qed.

(** C1: a meeting occurs on week [w] exactly when [w] lies in its week
    range and has the parity of its pattern ([EVERY] takes every week,
    [ODD] the odd ones, [EVEN] the even ones), for every integer [w]. *)
Theorem occurs_on_week_iff (m : Meeting) (w : Z) :
  occurs_on_week m w = true <->
  (start_week m <= w <= end_week m
   /\ match pattern m with
      | EVERY => True
      | ODD => Z.odd w = true
      | EVEN => Z.even w = true
      end).
Proof.
  unfold occurs_on_week.
  destruct (w <? start_week m) eqn:Hlo; [apply Z.ltb_lt in Hlo | apply Z.ltb_ge in Hlo];
    cbn [orb].
  - split; [discriminate | lia].
  - destruct (w >? end_week m) eqn:Hhi.
    + apply Z.gtb_lt in Hhi. split; [discriminate | lia].
    + assert (w <= end_week m) by (rewrite Z.gtb_ltb in Hhi; apply Z.ltb_ge in Hhi; lia).
      destruct (pattern m); rewrite ?mod2_odd, ?mod2_even; intuition lia.
Qed.

(** ** Stripping and prefixes *)

Lemma rstrip_by_keep (p : Z -> bool) (c : Z) (s : str) :
  p c = false -> rstrip_by p (c :: s) = c :: rstrip_by p s.
Proof. intros Hc. cbn [rstrip_by]. rewrite Hc. destruct (rstrip_by p s); reflexivity. Qed.

Lemma startswith_app (pfx rest : str) : startswith (pfx ++ rest) pfx = true.
Proof.
  induction pfx as [|c pfx IH]; [reflexivity|].
  cbn [app startswith]. rewrite Z.eqb_refl. exact IH.
Qed.

(** Stripping keeps a prefix that holds no white space. *)
Lemma strip_keeps_prefix (pfx rest : str) :
  forallb (fun c => negb (is_space c)) pfx = true ->
  exists rest', strip (pfx ++ rest) = pfx ++ rest'.
Proof.
  intros Hns. unfold strip.
  destruct pfx as [|c pfx]; [exists (rstrip_by is_space (lstrip_by is_space rest)); reflexivity|].
  cbn [forallb] in Hns. apply andb_true_iff in Hns as [Hc Hns].
  apply negb_true_iff in Hc.
  cbn [app lstrip_by]. rewrite Hc.
  rewrite (rstrip_by_keep _ _ _ Hc).
  revert Hns. generalize rest. induction pfx as [|d pfx IH]; intros rest0 Hns.
  - eexists. reflexivity.
  - cbn [forallb] in Hns. apply andb_true_iff in Hns as [Hd Hns].
    apply negb_true_iff in Hd. cbn [app]. rewrite (rstrip_by_keep _ _ _ Hd).
    destruct (IH rest0 Hns) as [r Hr]. injection Hr as Hr.
    exists r. cbn [app]. rewrite Hr. reflexivity.
Qed.

Lemma exam_prefix_no_space (pfx : str) :
  In pfx EXAM_PREFIXES -> forallb (fun c => negb (is_space c)) pfx = true /\ pfx <> [].
Proof.
  intros [<- | [<- | []]]; split; try (vm_compute; reflexivity); discriminate.
Qed.

Lemma is_exam_line_prefix (pfx rest : str) :
  In pfx EXAM_PREFIXES -> _is_exam_line (pfx ++ rest) = true.
Proof.
  intros Hin. destruct (exam_prefix_no_space pfx Hin) as [Hns Hne].
  destruct (strip_keeps_prefix pfx rest Hns) as [r Hr].
  unfold _is_exam_line. rewrite Hr. apply existsb_exists.
  exists pfx. split; [exact Hin|].
  rewrite (startswith_app pfx r). apply orb_true_r.
Qed.

(** ** The loop over the lines of one row *)

Lemma row_loop_app (acc : row_acc) (l1 l2 : list str) :
  row_loop acc (l1 ++ l2) = (acc' <- row_loop acc l1 ;; row_loop acc' l2).
Proof.
  revert acc. induction l1 as [|ln l1 IH]; intros acc; [reflexivity|].
  cbn [app row_loop]. destruct (row_step acc ln) as [acc'|e]; cbn [bind]; [apply IH | reflexivity].
Qed.

(** C6: a line that starts with an exam-schedule prefix (followed by a
    colon or not) is recognised, parses to no meeting, and leaves the
    meetings, warnings and rooms gathered for the row as they were: the
    row is built as if the line were not there. *)
Theorem exam_line_skipped (pfx rest : str) (acc : row_acc) (before after : list str) :
  In pfx EXAM_PREFIXES ->
  _is_exam_line (pfx ++ rest) = true
  /\ parse_meeting_line (pfx ++ rest) = Ret None
  /\ row_step acc (pfx ++ rest) = Ret acc
  /\ row_loop acc (before ++ (pfx ++ rest) :: after) = row_loop acc (before ++ after).
Proof.
  intros Hin. pose proof (is_exam_line_prefix pfx rest Hin) as Hex.
  assert (Hstep : forall a, row_step a (pfx ++ rest) = Ret a).
  { intros a. unfold row_step. rewrite Hex. reflexivity. }
  repeat split; [exact Hex | | apply Hstep |].
  - unfold parse_meeting_line.
    assert (Hraw : _is_exam_line (strip (pfx ++ rest)) = true).
    { destruct (exam_prefix_no_space pfx Hin) as [Hns _].
      destruct (strip_keeps_prefix pfx rest Hns) as [r Hr].
      rewrite Hr. apply is_exam_line_prefix. exact Hin. }
    rewrite Hraw, orb_true_r. reflexivity.
  - rewrite !row_loop_app.
    destruct (row_loop acc before) as [acc'|e]; cbn [bind row_loop]; [|reflexivity].
    rewrite Hstep. reflexivity.
Qed.

Lemma exam_line_skipped_witness :
  In (u "考试时间") EXAM_PREFIXES
  /\ (_is_exam_line (u "考试时间" ++ u "：2024-01-10 14:00") = true
      /\ parse_meeting_line (u "考试时间" ++ u "：2024-01-10 14:00") = Ret None
      /\ row_step (mkAcc [] [] []) (u "考试时间" ++ u "：2024-01-10 14:00")
         = Ret (mkAcc [] [] [])
      /\ row_loop (mkAcc [] [] []) ([] ++ (u "考试时间" ++ u "：2024-01-10 14:00") :: [])
         = row_loop (mkAcc [] [] []) ([] ++ [])).
Proof.
  split; [left; reflexivity|].
  apply (exam_line_skipped (u "考试时间") (u "：2024-01-10 14:00")).
  left; reflexivity.
Defined.

Example exam_only_field :
  row_loop (mkAcc [] [] []) (_split_info_lines (u "考试时间：2024-01-10 14:00"))
  = Ret (mkAcc [] [] []).
Proof. vm_compute. reflexivity. Qed.

(** ** Clock notation *)

(** A trailing half-hour mark sets the minutes to 30 whatever minute
    digits were written. *)
Lemma parse_clock_parts_half (h m : str) (half : str) (hh mm : Z) :
  int_of_str h = Ret hh -> int_of_str m = Ret mm ->
  _parse_clock_parts (Some h) (Some m) (Some half) = Ret (hh * 60 + 30)
  /\ _parse_clock_parts (Some h) None (Some half) = Ret (hh * 60 + 30).
Proof.
  intros Hh Hm. unfold _parse_clock_parts, int_group, _to_minutes.
  rewrite Hh, Hm. split; reflexivity.
Qed.

(** C5: the clock-notation line "1-16周周二下午1-4点半,二教205" parses to
    exactly one meeting: weeks 1 to 16, every week, Tuesday, periods 5 to
    8, room "二教205".  The half-hour mark gives 4:30, the afternoon token
    moves 1:00 and 4:30 to 13:00 and 16:30, and that interval is the
    afternoon slot. *)
Theorem clock_line_afternoon :
  let line := u "1-16周周二下午1-4点半,二教205" in
  let m := mkMeeting 1 16 EVERY 2 5 8 (u "二教205") line in
  parse_meeting_line line = Ret (Some m)
  /\ row_loop (mkAcc [] [] []) (_split_info_lines line) = Ret (mkAcc [m] [] [u "二教205"])
  /\ _parse_clock_parts (Some (u "1")) None None = Ret (1 * 60)
  /\ _parse_clock_parts (Some (u "4")) None (Some (u "半")) = Ret (4 * 60 + 30)
  /\ _clock_to_periods (Some (u "下午")) (1 * 60 + 12 * 60) (4 * 60 + 30 + 12 * 60)
     = Some (5, 8).
Proof. cbv zeta. repeat split; vm_compute; reflexivity. Qed.

(** ** Lines that match neither grammar *)



Example undecided_line :
  row_loop (mkAcc [] [] []) (_split_info_lines (u "待定"))
  = Ret (mkAcc [] [u "未能解析上课行：待定"] []).
Proof. vm_compute. reflexivity. Qed.

Example undecided_line_with_room :
  (acc <- row_loop (mkAcc [] [] []) (_split_info_lines (u "待定,理教 107")) ;;
   Ret (acc_meetings acc, room_for_key (acc_rooms acc)))
  = Ret ([], u "理教107").
Proof. vm_compute. reflexivity. Qed.

(** ** Bounds of a parsed meeting *)

Lemma dict_get_In (d : list (str * Z)) (k : str) (v : Z) :
  dict_get d k = Some v -> exists k', In (k', v) d.
Proof.
  induction d as [|[k' v'] d IH]; cbn [dict_get]; [discriminate|].
  destruct (str_eqb k k').
  - intros [= <-]. exists k'. left; reflexivity.
  - intros H. destruct (IH H) as [k'' Hk]. exists k''. right; exact Hk.
Qed.

Lemma weekday_map_range (k : option str) (wd : Z) :
  WEEKDAY_MAP_get k = Some wd -> 1 <= wd <= 7.
Proof.
  destruct k as [w|]; [|discriminate]. cbn [WEEKDAY_MAP_get]. intros H.
  apply dict_get_In in H as [k' Hin]. unfold WEEKDAY_MAP in Hin. cbn [In] in Hin.
  repeat (destruct Hin as [[= _ <-] | Hin]; [lia|]). destruct Hin.
Qed.

Lemma first_slot_In (ok : str -> Z -> Z -> bool) (slots : list (str * Z * Z * (Z * Z)))
    (pp : Z * Z) :
  first_slot ok slots = Some pp -> exists label s e, In (label, s, e, pp) slots.
Proof.
  induction slots as [|[[[label s] e] qq] slots IH]; cbn [first_slot]; [discriminate|].
  destruct (ok label s e).
  - intros [= <-]. exists label, s, e. left; reflexivity.
  - intros H. destruct (IH H) as (l' & s' & e' & Hin). exists l', s', e'. right; exact Hin.
Qed.

Lemma clock_slot_periods (label : str) (s e : Z) (pp : Z * Z) :
  In (label, s, e, pp) CLOCK_SLOT_MAP -> pp = (5, 8) \/ pp = (9, 12).
Proof.
  unfold CLOCK_SLOT_MAP. cbn [In].
  intros [[= _ _ _ <-] | [[= _ _ _ <-] | [[= _ _ _ <-] | []]]]; auto.
Qed.

Lemma clock_to_periods_range (tod : option str) (a b : Z) (pp : Z * Z) :
  _clock_to_periods tod a b = Some pp -> pp = (5, 8) \/ pp = (9, 12).
Proof.
  unfold _clock_to_periods.
  repeat match goal with
         | |- context [first_slot ?f ?l] =>
             let H := fresh "Hslot" in
             destruct (first_slot f l) as [qq|] eqn:H;
             [ intros [= <-]; apply first_slot_In in H as (l' & s' & e' & Hin);
               eapply clock_slot_periods; exact Hin | ]
         end.
  repeat match goal with
         | |- context [if ?c then _ else _] => destruct c
         end; intros [= <-]; auto.
Qed.



(** The period numbers of the period grammar are taken as written: periods
    13 to 14 parse, although the timetable has twelve. *)
Lemma parsed_period_beyond_twelve :
  exists m,
    parse_meeting_line (u "1~16周 周一 13~14节") = Ret (Some m)
    /\ end_period m = 14
    /\ ~ (1 <= weekday m <= 7 /\ start_week m <= end_week m
          /\ 1 <= start_period m /\ start_period m <= end_period m <= 12).
Proof.
  eexists. split; [vm_compute; reflexivity|].
  cbn [weekday start_week end_week start_period end_period]. split; [reflexivity | lia].
Qed.

(** C2: the bounds of the data model are not all established by the
    parser.  A reversed week range is kept as written, next to a reversed
    period range, which is swapped: "16~1周 周一 4~3节" gives weeks 16 to
    1 and periods 3 to 4, a meeting that occurs on no week. *)
Theorem reversed_weeks_kept :
  exists m,
    parse_meeting_line (u "16~1周 周一 4~3节") = Ret (Some m)
    /\ start_week m = 16 /\ end_week m = 1
    /\ start_period m = 3 /\ end_period m = 4
    /\ forall w, occurs_on_week m w = false.
Proof.
  eexists. split; [vm_compute; reflexivity|].
  cbn [start_week end_week start_period end_period]. repeat split.
  intros w. unfold occurs_on_week. cbn [start_week end_week].
  destruct (w <? 16) eqn:H1; [reflexivity|]. destruct (w >? 1) eqn:H2; [reflexivity|].
  apply Z.ltb_ge in H1. rewrite Z.gtb_ltb in H2. apply Z.ltb_ge in H2. lia.
Qed.

(** ** The matcher against its relational reading *)

Section MatcherSound.
Context {A : Type}.

Lemma star_g_sound (p : Z -> bool) (s : str) (k : str -> option A) (res : A) :
  star_g p s k = Some res ->
  exists w s', s = w ++ s' /\ forallb p w = true /\ k s' = Some res.
Proof.
  induction s as [|c s IH]; cbn [star_g]; intros H.
  - exists [], []. repeat split; assumption.
  - destruct (p c) eqn:Hc.
    + destruct (star_g p s k) as [r|] eqn:Hs.
      * injection H as ->. destruct (IH eq_refl) as (w & s' & -> & Hw & Hk).
        exists (c :: w), s'. cbn [forallb app]. rewrite Hc, Hw. repeat split; assumption.
      * exists [], (c :: s). repeat split; assumption.
    + exists [], (c :: s). repeat split; assumption.
Qed.

Lemma star_l_sound (p : Z -> bool) (s : str) (k : str -> option A) (res : A) :
  star_l p s k = Some res ->
  exists w s', s = w ++ s' /\ forallb p w = true /\ k s' = Some res.
Proof.
  induction s as [|c s IH]; cbn [star_l]; intros H.
  - destruct (k []) eqn:Hk; [|discriminate]. exists [], []. repeat split; congruence.
  - destruct (k (c :: s)) eqn:Hk.
    + exists [], (c :: s). repeat split; congruence.
    + destruct (p c) eqn:Hc; [|discriminate].
      destruct (IH H) as (w & s' & -> & Hw & Hk').
      exists (c :: w), s'. cbn [forallb app]. rewrite Hc, Hw. repeat split; assumption.
Qed.

Lemma mt_sound (r : re) (n0 : nat) :
  forall (s : str) (g : env) (k : str -> env -> option A) (res : A),
    mt r n0 s g k = Some res ->
    exists s' g', sem r s g s' g' /\ k s' g' = Some res.
Proof.
  induction r as [| c | | | a IHa b IHb | a IHa b IHb | c | c | n a IHa];
    intros s g k res H; cbn [mt] in H; cbn [sem].
  - exists s, g. auto.
  - destruct s as [|x s']; [discriminate|].
    destruct (cls_match c x) eqn:Hc; [|discriminate].
    exists s', g. split; [exists x; auto | exact H].
  - destruct (Nat.eqb (length s) n0); [|discriminate]. exists s, g. auto.
  - destruct s as [|x [|y s']].
    + exists [], g. auto.
    + destruct (x =? NL); [|discriminate]. exists [x], g. auto.
    + discriminate.
  - apply IHa in H as (s1 & g1 & Ha & H). apply IHb in H as (s' & g' & Hb & H).
    exists s', g'. split; [exists s1, g1; auto | exact H].
  - destruct (mt a n0 s g k) as [x|] eqn:Ha.
    + injection H as ->. apply IHa in Ha as (s' & g' & Ha & H). exists s', g'. auto.
    + apply IHb in H as (s' & g' & Hb & H). exists s', g'. auto.
  - apply star_g_sound in H as (w & s' & -> & Hw & H). exists s', g.
    split; [exists w; auto | exact H].
  - apply star_l_sound in H as (w & s' & -> & Hw & H). exists s', g.
    split; [exists w; auto | exact H].
  - apply IHa in H as (s' & g1 & Ha & H).
    eexists s', _. split; [exists g1; split; [exact Ha | reflexivity] | exact H].
Qed.

End MatcherSound.

Lemma re_match_sem (r : re) (s : str) (g : env) :
  re_match r s = Some g -> exists s', sem r s [] s' g.
Proof.
  unfold re_match, mt_here. intros H.
  destruct (mt r (length s) s [] _) as [[g' s']|] eqn:Hm; [|discriminate].
  injection H as <-. apply mt_sound in Hm as (s1 & g1 & Hs & [= <- <-]).
  exists s1. exact Hs.
Qed.

(** What a pattern consumes is a prefix of the text. *)
Lemma sem_suffix (r : re) :
  forall s g s' g', sem r s g s' g' -> exists w, s = w ++ s'.
Proof.
  induction r as [| c | | | a IHa b IHb | a IHa b IHb | c | c | n a IHa];
    intros s g s' g' H; cbn [sem] in H.
  - destruct H as [-> _]. exists []. reflexivity.
  - destruct H as (x & -> & _). exists [x]. reflexivity.
  - destruct H as [-> _]. exists []. reflexivity.
  - destruct H as [-> _]. exists []. reflexivity.
  - destruct H as (s1 & g1 & Ha & Hb).
    apply IHa in Ha as [w1 ->]. apply IHb in Hb as [w2 ->].
    exists (w1 ++ w2). rewrite <- app_assoc. reflexivity.
  - destruct H as [H | H]; eauto.
  - destruct H as (w & -> & _). exists w. reflexivity.
  - destruct H as (w & -> & _). exists w. reflexivity.
  - destruct H as (g1 & Ha & _). eauto.
Qed.

Lemma sem_only_digits (r : re) :
  only_digits r = true ->
  forall s g s' g', sem r s g s' g' ->
    exists w, s = w ++ s' /\ forallb is_digit w = true /\ g' = g.
Proof.
  induction r as [| c | | | a IHa b IHb | a IHa b IHb | c | c | n a IHa];
    cbn [only_digits]; intros Hd s g s' g' H; cbn [sem] in H; try discriminate.
  - destruct H as [-> ->]. exists []. auto.
  - destruct c; try discriminate. destruct H as (x & -> & Hx & ->).
    exists [x]. cbn [forallb cls_match] in *. rewrite Hx. auto.
  - apply andb_true_iff in Hd as [Ha Hb]. destruct H as (s1 & g1 & Hsa & Hsb).
    destruct (IHa Ha _ _ _ _ Hsa) as (w1 & -> & Hw1 & ->).
    destruct (IHb Hb _ _ _ _ Hsb) as (w2 & -> & Hw2 & ->).
    exists (w1 ++ w2). rewrite <- app_assoc, forallb_app, Hw1, Hw2. auto.
  - apply andb_true_iff in Hd as [Ha Hb]. destruct H as [H | H]; eauto.
  - destruct c; try discriminate. destruct H as (w & -> & Hw & ->). exists w. auto.
  - destruct c; try discriminate. destruct H as (w & -> & Hw & ->). exists w. auto.
Qed.

Lemma sem_nonnull (r : re) :
  nonnull r = true ->
  forall s g s' g', sem r s g s' g' -> (length s' < length s)%nat.
Proof.
  induction r as [| c | | | a IHa b IHb | a IHa b IHb | c | c | n a IHa];
    cbn [nonnull]; intros Hn s g s' g' H; cbn [sem] in H; try discriminate.
  - destruct H as (x & -> & _). cbn [length]. lia.
  - destruct H as (s1 & g1 & Hsa & Hsb).
    pose proof (sem_suffix _ _ _ _ _ Hsa) as [w1 E1].
    pose proof (sem_suffix _ _ _ _ _ Hsb) as [w2 E2].
    apply (f_equal (@length Z)) in E1, E2. rewrite length_app in E1, E2.
    apply orb_true_iff in Hn as [Hn | Hn].
    + specialize (IHa Hn _ _ _ _ Hsa). lia.
    + specialize (IHb Hn _ _ _ _ Hsb). lia.
  - apply andb_true_iff in Hn as [Ha Hb]. destruct H as [H | H]; eauto.
  - destruct H as (g1 & Ha & _). eauto.
Qed.

(** ** Groups bound by a match *)

Lemma has_name_In (n : string) (l : list string) : has_name n l = true <-> In n l.
Proof.
  unfold has_name. rewrite existsb_exists. split.
  - intros (x & Hin & Hx). apply String.eqb_eq in Hx. subst. exact Hin.
  - intros Hin. exists n. split; [exact Hin | apply String.eqb_refl].
Qed.

Lemma sem_binds (r : re) :
  forall s g s' g', sem r s g s' g' ->
    (forall n, group g n <> None -> group g' n <> None)
    /\ (forall n, has_name n (binds r) = true -> group g' n <> None).
Proof.
  induction r as [| c | | | a IHa b IHb | a IHa b IHb | c | c | n a IHa];
    intros s g s' g' H; cbn [sem] in H; cbn [binds].
  - destruct H as [_ ->]. split; [auto | discriminate].
  - destruct H as (x & _ & _ & ->). split; [auto | discriminate].
  - destruct H as [_ ->]. split; [auto | discriminate].
  - destruct H as [_ ->]. split; [auto | discriminate].
  - destruct H as (s1 & g1 & Ha & Hb).
    destruct (IHa _ _ _ _ Ha) as [Ka Na]. destruct (IHb _ _ _ _ Hb) as [Kb Nb].
    split; [auto|]. intros m Hm. apply has_name_In, in_app_or in Hm as [Hm | Hm].
    + apply Kb, Na, has_name_In, Hm.
    + apply Nb, has_name_In, Hm.
  - assert (Hboth : forall m,
               has_name m (List.filter (fun n => has_name n (binds b)) (binds a)) = true ->
               has_name m (binds a) = true /\ has_name m (binds b) = true).
    { intros m Hm. apply has_name_In, filter_In in Hm as [Hm1 Hm2].
      split; [apply has_name_In, Hm1 | exact Hm2]. }
    destruct H as [H | H].
    + destruct (IHa _ _ _ _ H) as [K N]. split; [auto|]. intros m Hm. apply N, Hboth, Hm.
    + destruct (IHb _ _ _ _ H) as [K N]. split; [auto|]. intros m Hm. apply N, Hboth, Hm.
  - destruct H as (w & _ & _ & ->). split; [auto | discriminate].
  - destruct H as (w & _ & _ & ->). split; [auto | discriminate].
  - destruct H as (g1 & Ha & ->). destruct (IHa _ _ _ _ Ha) as [K N].
    assert (Hcons : forall m, (String.eqb m n = true \/ group g1 m <> None) ->
                              group ((n, take (length s - length s') s) :: g1) m <> None).
    { intros m Hm. cbn [group]. destruct (String.eqb m n); [discriminate|].
      destruct Hm as [Hm | Hm]; [discriminate | exact Hm]. }
    split.
    + intros m Hm. apply Hcons. right. apply K, Hm.
    + intros m Hm. apply Hcons. unfold has_name in Hm. cbn [existsb] in Hm.
      apply orb_true_iff in Hm as [Hm | Hm]; [left; exact Hm | right; apply N, Hm].
Qed.

Lemma sem_caps (r : re) :
  caps_ok r = true ->
  forall s g s' g', sem r s g s' g' -> caps g -> caps g'.
Proof.
  induction r as [| c | | | a IHa b IHb | a IHa b IHb | c | c | n a IHa];
    cbn [caps_ok]; intros Hok s g s' g' H Hg; cbn [sem] in H.
  - destruct H as [_ ->]. exact Hg.
  - destruct H as (x & _ & _ & ->). exact Hg.
  - destruct H as [_ ->]. exact Hg.
  - destruct H as [_ ->]. exact Hg.
  - apply andb_true_iff in Hok as [Ha Hb]. destruct H as (s1 & g1 & Hsa & Hsb). eauto.
  - apply andb_true_iff in Hok as [Ha Hb]. destruct H as [H | H]; eauto.
  - destruct H as (w & _ & _ & ->). exact Hg.
  - destruct H as (w & _ & _ & ->). exact Hg.
  - apply andb_true_iff in Hok as [Ha Hn]. destruct H as (g1 & Hsa & ->).
    pose proof (IHa Ha _ _ _ _ Hsa Hg) as Hg1.
    intros m w Hm Hw. cbn [group] in Hw.
    destruct (String.eqb m n) eqn:Hmn; [|eapply Hg1; eassumption].
    apply String.eqb_eq in Hmn. subst m. rewrite Hm in Hn.
    apply andb_true_iff in Hn as [Hd Hnn]. injection Hw as <-.
    destruct (sem_only_digits _ Hd _ _ _ _ Hsa) as (v & -> & Hv & _).
    pose proof (sem_nonnull _ Hnn _ _ _ _ Hsa) as Hlen.
    rewrite length_app in *.
    replace (length v + length s' - length s')%nat with (length v) by lia.
    rewrite take_app_length. split; [|exact Hv].
    destruct v; [cbn in Hlen; lia | discriminate].
Qed.

Lemma int_of_digits (w : str) : digits w -> exists z, int_of_str w = Ret z.
Proof.
  intros [Hne Hd]. unfold int_of_str. destruct w; [congruence|]. rewrite Hd. eauto.
Qed.

(** After a match of a checked pattern, [int] of a numeric group the
    pattern always binds returns, and so does [int] of any numeric group
    that is bound. *)
Lemma match_numeric_groups (r : re) (s : str) (g : env) (n : string) :
  caps_ok r = true -> re_match r s = Some g -> numeric n = true ->
  (has_name n (binds r) = true -> exists z, int_group (group g n) = Ret z)
  /\ (forall w, group g n = Some w -> exists z, int_group (Some w) = Ret z).
Proof.
  intros Hok Hm Hn. apply re_match_sem in Hm as [s' Hs].
  assert (Hcaps : caps g).
  { eapply sem_caps; [exact Hok | exact Hs |]. intros m w _ Hw. discriminate Hw. }
  split.
  - intros Hb. destruct (sem_binds _ _ _ _ _ Hs) as [_ N]. specialize (N n Hb).
    destruct (group g n) as [w|] eqn:Hw; [|congruence].
    apply int_of_digits. eapply Hcaps; eassumption.
  - intros w Hw. apply int_of_digits. eapply Hcaps; eassumption.
Qed.

Lemma parse_clock_parts_total (r : re) (s : str) (g : env) (h m half : string) :
  caps_ok r = true -> re_match r s = Some g ->
  numeric h = true -> numeric m = true -> has_name h (binds r) = true ->
  exists z, _parse_clock_parts (group g h) (group g m) (group g half) = Ret z.
Proof.
  intros Hok Hm Hh Hmm Hb. unfold _parse_clock_parts.
  destruct (match_numeric_groups r s g h Hok Hm Hh) as [H1 _].
  destruct (H1 Hb) as [hh ->]. cbn [bind].
  destruct (match_numeric_groups r s g m Hok Hm Hmm) as [_ H2].
  destruct (group g m) as [w|].
  - destruct (H2 w eq_refl) as [mm ->]. cbn [bind]. eauto.
  - cbn [bind]. eauto.
Qed.

(** [parse_meeting_line] raises nothing. *)
Lemma parse_meeting_line_total (line : str) :
  exists r, parse_meeting_line line = Ret r.
Proof.
  unfold parse_meeting_line.
  destruct (negb (nonempty (strip line)) || _is_exam_line (strip line)); [eauto|].
  destruct (re_match MEETING_PERIOD_RE _) as [g|] eqn:Hp.
  - assert (Hint : forall n, numeric n = true -> has_name n (binds MEETING_PERIOD_RE) = true ->
                             exists z, int_group (group g n) = Ret z).
    { intros n Hn Hb.
      destruct (match_numeric_groups _ _ g n (eq_refl : caps_ok MEETING_PERIOD_RE = true) Hp Hn)
        as [H _]. exact (H Hb). }
    destruct (Hint "ws"%string eq_refl eq_refl) as [ws ->].
    destruct (Hint "we"%string eq_refl eq_refl) as [we ->].
    destruct (Hint "ps"%string eq_refl eq_refl) as [ps ->].
    destruct (Hint "pe"%string eq_refl eq_refl) as [pe ->].
    cbn [bind]. destruct (WEEKDAY_MAP_get _); [|eauto].
    destruct (ps >? pe); eauto.
  - destruct (re_match MEETING_CLOCK_RE _) as [g|] eqn:Hc; [|eauto].
    pose proof (eq_refl : caps_ok MEETING_CLOCK_RE = true) as Hok.
    assert (Hint : forall n, numeric n = true -> has_name n (binds MEETING_CLOCK_RE) = true ->
                             exists z, int_group (group g n) = Ret z).
    { intros n Hn Hb.
      destruct (match_numeric_groups _ _ g n Hok Hc Hn) as [H _]. exact (H Hb). }
    destruct (Hint "ws"%string eq_refl eq_refl) as [ws ->].
    destruct (Hint "we"%string eq_refl eq_refl) as [we ->].
    cbn [bind]. destruct (WEEKDAY_MAP_get _); [|eauto].
    destruct (parse_clock_parts_total _ _ g "h1" "m1" "half1" Hok Hc eq_refl eq_refl eq_refl)
      as [t1 ->].
    destruct (parse_clock_parts_total _ _ g "h2" "m2" "half2" Hok Hc eq_refl eq_refl eq_refl)
      as [t2 ->].
    cbn [bind]. destruct (_clock_to_periods _ _ _) as [[p1 p2]|]; eauto.
Qed.

(** ** Rows *)

Lemma row_step_total (acc : row_acc) (ln : str) : exists acc', row_step acc ln = Ret acc'.
Proof.
  unfold row_step. destruct (_is_exam_line ln); [eauto|].
  destruct (parse_meeting_line_total ln) as [[mt|] ->]; cbn [bind]; eauto.
Qed.

Lemma row_loop_total (lines : list str) :
  forall acc, exists acc', row_loop acc lines = Ret acc'.
Proof.
  induction lines as [|ln lines IH]; intros acc; cbn [row_loop]; [eauto|].
  destruct (row_step_total acc ln) as [acc' ->]. cbn [bind]. apply IH.
Qed.

Lemma add_room_named (rooms : list str) (rm : str) :
  Forall (fun r => nonempty r = true) rooms ->
  Forall (fun r => nonempty r = true) (add_room rooms rm).
Proof.
  intros H. unfold add_room. destruct (nonempty rm) eqn:Hrm; [|exact H].
  apply Forall_app. split; [exact H | repeat constructor; exact Hrm].
Qed.

(** Only non-empty rooms are ever appended. *)
Lemma row_step_rooms_named (acc acc' : row_acc) (ln : str) :
  rooms_named acc -> row_step acc ln = Ret acc' -> rooms_named acc'.
Proof.
  unfold rooms_named, row_step. intros Hacc.
  destruct (_is_exam_line ln); [intros [= <-]; exact Hacc|].
  destruct (parse_meeting_line ln) as [[mt|]|e]; cbn [bind]; intros [= <-];
    cbn [acc_rooms].
  - destruct (nonempty (room mt)) eqn:Hr; [|apply add_room_named, Hacc].
    apply Forall_app. split; [exact Hacc | repeat constructor; exact Hr].
  - apply add_room_named, Hacc.
Qed.

Lemma row_loop_rooms_named (lines : list str) :
  forall acc acc', rooms_named acc -> row_loop acc lines = Ret acc' -> rooms_named acc'.
Proof.
  induction lines as [|ln lines IH]; intros acc acc' Hacc; cbn [row_loop].
  - intros [= <-]. exact Hacc.
  - destruct (row_step acc ln) as [acc1|e] eqn:Hs; cbn [bind]; [|discriminate].
    apply IH. eapply row_step_rooms_named; eassumption.
Qed.

Lemma room_for_key_named (rooms : list str) :
  Forall (fun r => nonempty r = true) rooms -> room_for_key rooms <> [].
Proof.
  intros H. destruct rooms as [|r rooms]; cbn [room_for_key]; [discriminate|].
  apply Forall_inv in H. destruct r; [discriminate H | discriminate].
Qed.

Lemma str_eqb_nil (s : str) : s <> [] -> str_eqb s [] = false.
Proof. destruct s; [congruence | reflexivity]. Qed.

Section RowFacts.
Context {F : Type} (float_of_str : str -> option F) (fzero : F).

(** Building a course raises nothing, and its key always has a room text:
    a recovered room or the unknown-room marker. *)
Lemma parse_course_row_total (row : row_t) :
  exists c, parse_course_row float_of_str fzero row = Ret c
            /\ key_room (key c) <> []
            /\ raw_row c = row.
Proof.
  unfold parse_course_row.
  destruct (row_loop_total (_split_info_lines (strip (row_get row "上课考试信息")))
              (mkAcc [] [] [])) as [acc Hacc].
  rewrite Hacc. cbn [bind]. eexists. split; [reflexivity|].
  cbn [key key_room raw_row]. split; [|reflexivity].
  apply room_for_key_named. eapply row_loop_rooms_named; [|exact Hacc]. constructor.
Qed.

Lemma load_step_courses (res : ParseResult) (idx : Z) (row : row_t) :
  exists c,
    parse_course_row float_of_str fzero row = Ret c
    /\ courses (load_step float_of_str fzero res idx row) = courses res ++ [c]
    /\ empty_room_rows (load_step float_of_str fzero res idx row) = empty_room_rows res
    /\ total_rows (load_step float_of_str fzero res idx row) = total_rows res.
Proof.
  destruct (parse_course_row_total row) as (c & Hc & Hroom & _).
  exists c. split; [exact Hc|]. unfold load_step. rewrite Hc.
  cbn [courses empty_room_rows total_rows]. rewrite (str_eqb_nil _ Hroom). auto.
Qed.

Lemma load_loop_courses (rows : list row_t) :
  forall res idx,
    length (courses (load_loop float_of_str fzero res idx rows)) = (length (courses res) + length rows)%nat
    /\ empty_room_rows (load_loop float_of_str fzero res idx rows) = empty_room_rows res
    /\ total_rows (load_loop float_of_str fzero res idx rows) = total_rows res.
Proof.
  induction rows as [|row rows IH]; intros res idx; cbn [load_loop length].
  - repeat split. lia.
  - destruct (load_step_courses res idx row) as (c & _ & Hc & He & Ht).
    destruct (IH (load_step float_of_str fzero res idx row) (idx + 1)) as (IH1 & IH2 & IH3).
    rewrite IH1, IH2, IH3, Hc, He, Ht, length_app. cbn [length]. repeat split. lia.
Qed.


(** The test [c.key.room == ""] of the load loop never holds, so
    [empty_room_rows] stays empty for every input. *)
Lemma empty_room_rows_nil (rows : list row_t) : empty_room_rows (parse_rows float_of_str fzero rows) = [].
Proof.
  unfold parse_rows.
  destruct (load_loop_courses rows (mkResult [] ∅ ∅ [] [] [] [] (length rows)) 2)
    as (_ & H2 & _).
  rewrite H2. reflexivity.
Qed.

End RowFacts.

(** C3: a row from which no room is recovered gets the unknown-room marker
    as its key room and is kept in the course list, but it is not flagged:
    [empty_room_rows] stays empty. *)
Theorem unknown_room_row_not_flagged {F : Type} (float_of_str : str -> option F) (fzero : F) :
  let row : row_t := {[ u "上课考试信息" := u "待定" ]} in
  let res := parse_rows float_of_str fzero [row] in
  exists c,
    courses res = [c]
    /\ meetings c = []
    /\ key_room (key c) = ROOM_UNKNOWN
    /\ empty_room_rows res = [].
Proof.
  cbv zeta. eexists. split; [vm_compute; reflexivity|].
  split; [reflexivity|]. split; [reflexivity|]. apply empty_room_rows_nil.
Qed.

(** ** Occupied cells *)

Lemma elem_of_range (a b k : Z) : k ∈ range a b <-> a <= k < b.
Proof. unfold range. rewrite elem_of_seqZ. lia. Qed.

Lemma foldl_union_spec {A : Type} (f : gset cell -> A -> gset cell) (P : A -> cell -> Prop) :
  (forall occ a c, c ∈ f occ a <-> c ∈ occ \/ P a c) ->
  forall (l : list A) (occ : gset cell) (c : cell),
    c ∈ foldl f occ l <-> c ∈ occ \/ exists a, a ∈ l /\ P a c.
Proof.
  intros Hf l. induction l as [|a l IH]; intros occ c; cbn [foldl].
  - split; [auto|]. intros [H | (a & Ha & _)]; [exact H|]. inversion Ha.
  - rewrite IH, Hf. split.
    + intros [[H | H] | (a' & Ha' & H)]; [auto | right; exists a | right; exists a'].
      * split; [left | exact H].
      * split; [right; exact Ha' | exact H].
    + intros [H | (a' & Ha' & H)]; [auto|].
      apply elem_of_cons in Ha' as [-> | Ha']; [auto | right; eauto].
Qed.

Lemma elem_of_add_meeting_cells (week : Z) (occ : gset cell) (m : Meeting) (c : cell) :
  c ∈ add_meeting_cells week occ m <->
  c ∈ occ \/ (occurs_on_week m week = true
              /\ exists p, start_period m <= p <= end_period m /\ c = (week, weekday m, p)).
Proof.
  unfold add_meeting_cells. destruct (occurs_on_week m week); cbn [negb].
  - rewrite (foldl_union_spec _ (fun p c => c = (week, weekday m, p))).
    + split; (intros [H | H]; [auto|right]).
      * destruct H as (p & Hp & ->). apply elem_of_range in Hp.
        split; [reflexivity|]. exists p. split; [lia | reflexivity].
      * destruct H as (_ & p & Hp & ->). exists p. split; [apply elem_of_range; lia | reflexivity].
    + intros occ' p c'. rewrite elem_of_union, elem_of_singleton. reflexivity.
  - split; [auto|]. intros [H | [H _]]; [exact H | discriminate].
Qed.

(** The cells of a course: the weeks 1 to 16 on which a meeting occurs,
    its weekday, and each period of its range. *)
Lemma elem_of_occupied_cells {F : Type} (c : Course F) (week wd p : Z) :
  (week, wd, p) ∈ build_occupied_cells_for_course c <->
  1 <= week <= 16
  /\ exists m, m ∈ meetings c /\ occurs_on_week m week = true
               /\ wd = weekday m /\ start_period m <= p <= end_period m.
Proof.
  unfold build_occupied_cells_for_course.
  rewrite (foldl_union_spec _
             (fun w x => exists m, m ∈ meetings c /\ occurs_on_week m w = true
                                   /\ exists q, start_period m <= q <= end_period m
                                                /\ x = (w, weekday m, q))).
  - split.
    + intros [H | (w & Hw & m & Hm & Hocc & q & Hq & [= -> -> ->])]; [set_solver|].
      apply elem_of_range in Hw. unfold WEEK_MIN, WEEK_MAX in Hw.
      split; [lia|]. exists m. auto.
    + intros (Hw & m & Hm & Hocc & -> & Hp). right. exists week.
      split; [apply elem_of_range; unfold WEEK_MIN, WEEK_MAX; lia|].
      exists m. repeat split; try assumption. exists p. auto.
  - intros occ w x.
    rewrite (foldl_union_spec _
               (fun m x => occurs_on_week m w = true
                           /\ exists q, start_period m <= q <= end_period m
                                        /\ x = (w, weekday m, q))).
    + split; (intros [H | (m & Hm & H)]; [auto | right; exists m; tauto]).
    + intros occ' m x'. apply elem_of_add_meeting_cells.
Qed.

(** ** The conflict check *)

Lemma claim_cells_lookup (occ : gmap cell uid_t) (id : uid_t) (cells : list cell) (c : cell) :
  claim_cells occ id cells !! c = if decide (c ∈ cells) then Some id else occ !! c.
Proof.
  unfold claim_cells. revert occ.
  induction cells as [|x cells IH]; intros occ; cbn [foldl].
  - rewrite decide_False; [reflexivity | apply not_elem_of_nil].
  - rewrite IH. destruct (decide (c ∈ cells)) as [Hin | Hout].
    + rewrite decide_True; [reflexivity | right; exact Hin].
    + destruct (decide (c = x)) as [-> | Hne].
      * rewrite lookup_insert_eq, decide_True; [reflexivity | left].
      * rewrite lookup_insert_ne by congruence.
        rewrite decide_False; [reflexivity|].
        intros Hc. apply elem_of_cons in Hc as [? | ?]; contradiction.
Qed.

(** The inner loop stops at the first cell already in the map, and
    otherwise claims all the candidate's cells. *)
Lemma scan_cells_spec (id : uid_t) (cells : list cell) :
  NoDup cells ->
  forall occ : gmap cell uid_t,
    match scan_cells occ id cells with
    | inl (other, c) => c ∈ cells /\ occ !! c = Some other
    | inr occ' => (forall c, c ∈ cells -> occ !! c = None) /\ occ' = claim_cells occ id cells
    end.
Proof.
  induction cells as [|x cells IH]; intros Hnd occ; cbn [scan_cells].
  - split; [|reflexivity]. intros c Hc. inversion Hc.
  - apply NoDup_cons in Hnd as [Hx Hnd].
    destruct (occ !! x) as [other|] eqn:Hox.
    + split; [left | exact Hox].
    + specialize (IH Hnd (<[x := id]> occ)).
      destruct (scan_cells (<[x := id]> occ) id cells) as [[other c] | occ'].
      * destruct IH as [Hc Hl]. split; [right; exact Hc|].
        rewrite lookup_insert_ne in Hl; [exact Hl|]. intros ->. contradiction.
      * destruct IH as [Hfree ->]. split; [|reflexivity].
        intros c Hc. apply elem_of_cons in Hc as [-> | Hc]; [exact Hox|].
        specialize (Hfree c Hc). rewrite lookup_insert_ne in Hfree; [exact Hfree|].
        intros ->. contradiction.
Qed.

Section SelectionFacts.
Context {F : Type}.
Context (fadd : F -> F -> F) (fgt : F -> F -> bool) (fsum : list F -> F).
Context (ftruthy : F -> bool) (fzero tol : F).
Context (iter_uids : gset uid_t -> list uid_t).
Context (iter_cells : gset cell -> list cell).
(** Iterating a set visits each of its elements once, in some order. *)
Hypothesis iter_uids_perm : forall X, iter_uids X ≡ₚ elements X.
Hypothesis iter_cells_perm : forall X, iter_cells X ≡ₚ elements X.

Implicit Types (self : @CourseUI F) (uids own : list uid_t) (id : uid_t).

Lemma iter_cells_elem (X : gset cell) (c : cell) : c ∈ iter_cells X <-> c ∈ X.
Proof. rewrite iter_cells_perm. apply elem_of_elements. Qed.

Lemma iter_cells_NoDup (X : gset cell) : NoDup (iter_cells X).
Proof. rewrite iter_cells_perm. apply NoDup_elements. Qed.

Lemma iter_uids_elem (X : gset uid_t) (id : uid_t) : id ∈ iter_uids X <-> id ∈ X.
Proof. rewrite iter_uids_perm. apply elem_of_elements. Qed.

Lemma occ_cache_lookup self id (c : Course F) :
  ui_by_uid self !! id = Some c ->
  occ_cache self !! id = Some (build_occupied_cells_for_course c)
  /\ cells_of self id = build_occupied_cells_for_course c.
Proof.
  intros H. unfold cells_of, occ_cache. rewrite lookup_fmap, H. split; reflexivity.
Qed.

Lemma cells_of_known self id (c : cell) :
  c ∈ cells_of self id -> is_Some (ui_by_uid self !! id).
Proof.
  unfold cells_of, occ_cache. rewrite lookup_fmap.
  destruct (ui_by_uid self !! id); [eauto|]. cbn. intros H. set_solver.
Qed.

Lemma owned_claim self (occ : gmap cell uid_t) own id (cells : gset cell) :
  owned self occ own -> occ_cache self !! id = Some cells ->
  owned self (claim_cells occ id (iter_cells cells)) (own ++ [id]).
Proof.
  intros [Ho1 Ho2] Hid.
  assert (Hcells : cells_of self id = cells) by (unfold cells_of; rewrite Hid; reflexivity).
  split.
  - intros c o. rewrite claim_cells_lookup.
    destruct (decide (c ∈ iter_cells cells)) as [Hin | Hout].
    + intros [= <-]. split; [apply elem_of_app; right; left|].
      rewrite Hcells. apply iter_cells_elem, Hin.
    + intros H. destruct (Ho1 c o H) as [Hown Hc]. split; [|exact Hc].
      apply elem_of_app. left. exact Hown.
  - intros c o Ho Hc. rewrite claim_cells_lookup.
    destruct (decide (c ∈ iter_cells cells)) as [Hin | Hout]; [eauto|].
    apply elem_of_app in Ho as [Ho | Ho]; [eapply Ho2; eassumption|].
    apply list_elem_of_singleton in Ho. subst o. rewrite Hcells in Hc.
    apply iter_cells_elem in Hc. contradiction.
Qed.

Lemma claim_selected_owned self (ids : list uid_t) :
  forall (occ : gmap cell uid_t) own,
    owned self occ own ->
    (forall id, id ∈ ids -> is_Some (ui_by_uid self !! id)) ->
    exists occ', claim_selected iter_cells self occ ids = Ret occ'
                 /\ owned self occ' (own ++ ids).
Proof.
  induction ids as [|id ids IH]; intros occ own Hown Hk; cbn [claim_selected].
  - exists occ. rewrite app_nil_r. auto.
  - destruct (Hk id) as [c Hc]; [left|].
    destruct (occ_cache_lookup self id c Hc) as [Hcache _].
    unfold getitem. rewrite Hcache. cbn [bind].
    destruct (IH (claim_cells occ id (iter_cells (build_occupied_cells_for_course c)))
                (own ++ [id])) as (occ' & Hr & Ho).
    + apply owned_claim; assumption.
    + intros id' Hid'. apply Hk. right. exact Hid'.
    + exists occ'. split; [exact Hr|]. rewrite <- app_assoc in Ho. exact Ho.
Qed.

(** The walk over the candidates: it returns, and what it returns is the
    first collision with the cells claimed so far. *)
Lemma scan_uids_spec self uids :
  forall own (occ : gmap cell uid_t),
    owned self occ own ->
    (forall id, id ∈ uids -> is_Some (ui_by_uid self !! id)) ->
    exists r, scan_uids iter_cells self occ uids = Ret r
      /\ match r with
         | None =>
             forall i id c o, uids !! i = Some id -> c ∈ cells_of self id ->
                              o ∈ own ++ take i uids -> c ∉ cells_of self o
         | Some k =>
             exists i id other,
               uids !! i = Some id
               /\ ui_by_uid self !! other = Some (conflict_c1 k)
               /\ ui_by_uid self !! id = Some (conflict_c2 k)
               /\ conflict_cell k ∈ cells_of self id
               /\ conflict_cell k ∈ cells_of self other
               /\ other ∈ own ++ take i uids
               /\ (forall j idj c o, (j < i)%nat -> uids !! j = Some idj ->
                                     c ∈ cells_of self idj ->
                                     o ∈ own ++ take j uids -> c ∉ cells_of self o)
         end.
Proof.
  induction uids as [|id uids IH]; intros own occ Hown Hk; cbn [scan_uids].
  - exists None. split; [reflexivity|]. intros i id c o Hi. inversion Hi.
  - destruct (Hk id) as [cid Hcid]; [left|].
    destruct (occ_cache_lookup self id cid Hcid) as [Hcache Hcells].
    unfold getitem at 1. rewrite Hcache. cbn [bind].
    pose proof (scan_cells_spec id _ (iter_cells_NoDup (build_occupied_cells_for_course cid)) occ)
      as Hscan.
    assert (Hfirst : (forall c, c ∈ iter_cells (build_occupied_cells_for_course cid) ->
                                occ !! c = None) ->
                     forall c o, c ∈ cells_of self id -> o ∈ own ++ take 0 (id :: uids) ->
                                 c ∉ cells_of self o).
    { intros Hfree c o Hc Ho Hco. cbn [take] in Ho. rewrite app_nil_r in Ho.
      destruct Hown as [_ Ho2]. destruct (Ho2 c o Ho Hco) as [x Hx].
      rewrite Hfree in Hx; [discriminate|]. apply iter_cells_elem. rewrite <- Hcells. exact Hc. }
    destruct (scan_cells occ id _) as [[other c] | occ'].
    + destruct Hscan as [Hc Hother]. apply iter_cells_elem in Hc.
      destruct Hown as [Ho1 _]. destruct (Ho1 c other Hother) as [Hin Hco].
      destruct (cells_of_known self other c Hco) as [c1 Hc1].
      unfold getitem. rewrite Hc1, Hcid. cbn [bind].
      eexists. split; [reflexivity|]. exists 0%nat, id, other.
      cbn [conflict_c1 conflict_c2 conflict_cell take]. rewrite app_nil_r, Hcells.
      repeat split; try assumption. intros j idj c' o Hj. lia.
    + destruct Hscan as [Hfree ->].
      destruct (IH (own ++ [id])
                  (claim_cells occ id (iter_cells (build_occupied_cells_for_course cid))))
        as (r & Hr & Hpost).
      * apply owned_claim; assumption.
      * intros id' Hid'. apply Hk. right. exact Hid'.
      * exists r. split; [exact Hr|].
        assert (Hshift : forall i, (own ++ [id]) ++ take i uids = own ++ take (S i) (id :: uids)).
        { intros i. rewrite <- app_assoc. reflexivity. }
        destruct r as [k|].
        -- destruct Hpost as (i & idi & other & Hi & H1 & H2 & H3 & H4 & H5 & H6).
           exists (S i), idi, other. rewrite <- Hshift.
           repeat split; try assumption.
           intros j idj c o Hj Hidj Hc Ho. destruct j as [|j].
           ++ cbn in Hidj. injection Hidj as <-. apply (Hfirst Hfree c o Hc Ho).
           ++ cbn in Hidj. rewrite <- Hshift in Ho. apply (H6 j idj c o); [lia | assumption ..].
        -- intros i idi c o Hi Hc Ho. destruct i as [|i].
           ++ cbn in Hi. injection Hi as <-. apply (Hfirst Hfree c o Hc Ho).
           ++ cbn in Hi. rewrite <- Hshift in Ho. apply (Hpost i idi c o); assumption.
Qed.

Lemma owned_empty self : owned self ∅ [].
Proof.
  split.
  - intros c o H. rewrite lookup_empty in H. discriminate.
  - intros c o H. inversion H.
Qed.

(** The conflict check returns, with [None] when no cell of a candidate is
    claimed before its turn, and otherwise with the first collision. *)
Lemma find_conflict_spec self uids :
  known self uids ->
  exists r, _find_conflict_between iter_uids iter_cells self uids = Ret r
    /\ match r with
       | None =>
           forall i id c, uids !! i = Some id -> c ∈ cells_of self id ->
                          ~ claimed_before self uids i c
       | Some k =>
           exists i id other,
             uids !! i = Some id
             /\ ui_by_uid self !! other = Some (conflict_c1 k)
             /\ ui_by_uid self !! id = Some (conflict_c2 k)
             /\ conflict_cell k ∈ cells_of self id
             /\ conflict_cell k ∈ cells_of self other
             /\ (other ∈ selected self \/ other ∈ take i uids)
             /\ (forall j idj c, (j < i)%nat -> uids !! j = Some idj ->
                                 c ∈ cells_of self idj -> ~ claimed_before self uids j c)
       end.
Proof.
  intros [Hsel Hu]. unfold _find_conflict_between.
  destruct (claim_selected_owned self (iter_uids (selected self)) ∅ [] (owned_empty self))
    as (occ & -> & Hown).
  { intros id Hid. apply Hsel, iter_uids_elem, Hid. }
  cbn [bind app] in *.
  destruct (scan_uids_spec self uids _ occ Hown Hu) as (r & Hr & Hpost).
  exists r. split; [exact Hr|].
  assert (Hmem : forall o i, o ∈ selected self \/ o ∈ take i uids <->
                             o ∈ iter_uids (selected self) ++ take i uids).
  { intros o i. rewrite elem_of_app, iter_uids_elem. reflexivity. }
  destruct r as [k|].
  - destruct Hpost as (i & id & other & Hi & H1 & H2 & H3 & H4 & H5 & H6).
    exists i, id, other. repeat split; try assumption; [apply Hmem, H5|].
    intros j idj c Hj Hidj Hc (o & Ho & Hco).
    apply (H6 j idj c o); try assumption. apply Hmem, Ho.
  - intros i id c Hi Hc (o & Ho & Hco).
    apply (Hpost i id c o); try assumption. apply Hmem, Ho.
Qed.

(** C8: the conflict check returns; it reports no conflict exactly when no
    cell of any candidate is claimed, at that candidate's turn, by a
    selected course or an earlier candidate; a report names the first
    such candidate, a course that owns the cell, and the cell.  So a
    selected course and a proposed one that share a cell are reported, and
    two courses whose meetings have disjoint period ranges are not. *)
Theorem conflict_check_first_collision self uids :
  known self uids ->
  exists r, _find_conflict_between iter_uids iter_cells self uids = Ret r
    /\ (r = None <->
        forall i id c, uids !! i = Some id -> c ∈ cells_of self id ->
                       ~ claimed_before self uids i c)
    /\ (forall k, r = Some k ->
        exists i id other,
          uids !! i = Some id
          /\ ui_by_uid self !! other = Some (conflict_c1 k)
          /\ ui_by_uid self !! id = Some (conflict_c2 k)
          /\ conflict_cell k ∈ cells_of self id
          /\ conflict_cell k ∈ cells_of self other
          /\ (other ∈ selected self \/ other ∈ take i uids)
          /\ (forall j idj c, (j < i)%nat -> uids !! j = Some idj ->
                              c ∈ cells_of self idj -> ~ claimed_before self uids j c))
    /\ (forall a b c, selected self = {[ a ]} -> uids = [b] ->
                      c ∈ cells_of self a -> c ∈ cells_of self b ->
        exists k, r = Some k
                  /\ ui_by_uid self !! a = Some (conflict_c1 k)
                  /\ ui_by_uid self !! b = Some (conflict_c2 k))
    /\ (forall a b (ca cb : Course F),
          selected self = {[ a ]} -> uids = [b] ->
          ui_by_uid self !! a = Some ca -> ui_by_uid self !! b = Some cb ->
          (forall ma mb, ma ∈ meetings ca -> mb ∈ meetings cb ->
                         end_period ma < start_period mb \/ end_period mb < start_period ma) ->
          r = None).
Proof.
  intros Hk. destruct (find_conflict_spec self uids Hk) as (r & Hr & Hpost).
  exists r. split; [exact Hr|].
  assert (Hsingle : forall a b k, selected self = {[ a ]} -> uids = [b] -> r = Some k ->
            ui_by_uid self !! a = Some (conflict_c1 k)
            /\ ui_by_uid self !! b = Some (conflict_c2 k)
            /\ conflict_cell k ∈ cells_of self b /\ conflict_cell k ∈ cells_of self a).
  { intros a b k Hsel Hu ->. destruct Hpost as (i & id & other & Hi & H1 & H2 & H3 & H4 & H5 & _).
    subst uids. destruct i as [|i]; [|destruct i; discriminate Hi].
    injection Hi as <-. cbn [take] in H5. rewrite Hsel in H5.
    destruct H5 as [H5 | H5]; [|inversion H5].
    apply elem_of_singleton in H5. subst other. auto. }
  split; [|split; [|split]].
  - split.
    + intros ->. exact Hpost.
    + intros Hfree. destruct r as [k|]; [|reflexivity]. exfalso.
      destruct Hpost as (i & id & other & Hi & _ & _ & H3 & H4 & H5 & _).
      apply (Hfree i id (conflict_cell k) Hi H3). exists other. auto.
  - intros k ->. exact Hpost.
  - intros a b c Hsel Hu Hca Hcb. destruct r as [k|].
    + exists k. destruct (Hsingle a b k Hsel Hu eq_refl) as (H1 & H2 & _). auto.
    + exfalso. apply (Hpost 0%nat b c); [subst uids; reflexivity | exact Hcb |].
      exists a. split; [left; rewrite Hsel; apply elem_of_singleton; reflexivity | exact Hca].
  - intros a b ca cb Hsel Hu Ha Hb Hdis. destruct r as [k|]; [exfalso | reflexivity].
    destruct (Hsingle a b k Hsel Hu eq_refl) as (_ & _ & Hcb & Hca).
    destruct (occ_cache_lookup self a ca Ha) as [_ Ea].
    destruct (occ_cache_lookup self b cb Hb) as [_ Eb].
    rewrite Ea in Hca. rewrite Eb in Hcb.
    destruct (conflict_cell k) as [[w d] p].
    apply elem_of_occupied_cells in Hca as (_ & ma & Hma & _ & _ & Hpa).
    apply elem_of_occupied_cells in Hcb as (_ & mb & Hmb & _ & _ & Hpb).
    destruct (Hdis ma mb Hma Hmb); lia.
Qed.

Lemma mapM_credits_total self (ids : list uid_t) :
  (forall id, id ∈ ids -> is_Some (ui_by_uid self !! id)) ->
  exists cs, mapM (credits_of ftruthy fzero self) ids = Ret cs.
Proof.
  induction ids as [|id ids IH]; intros Hk; cbn [mapM]; [eauto|].
  destruct (Hk id) as [c Hc]; [left|].
  unfold credits_of at 1, getitem. rewrite Hc. cbn [bind].
  destruct IH as [cs ->]; [intros id' Hid'; apply Hk; right; exact Hid'|].
  cbn [bind]. eauto.
Qed.

Lemma foldl_add_selected (sel : gset uid_t) (ids : list uid_t) :
  foldl (fun s id => s ∪ {[ id ]}) sel ids = sel ∪ list_to_set ids.
Proof.
  revert sel. induction ids as [|id ids IH]; intros sel; cbn [foldl list_to_set].
  - rewrite (right_id_L ∅ (∪)). reflexivity.
  - rewrite IH, <- (assoc_L (∪)). reflexivity.
Qed.


(** C10: a candidate that is already selected and occupies a cell makes
    the conflict check report a conflict, whatever else the batch holds,
    so the batch add shows the warning and leaves the selection alone. *)
Theorem selected_candidate_conflicts self uids id :
  known self uids -> id ∈ selected self -> id ∈ uids -> cells_of self id <> ∅ ->
  exists k,
    _find_conflict_between iter_uids iter_cells self uids = Ret (Some k)
    /\ _add_selected_courses fadd fgt fsum ftruthy fzero tol iter_uids iter_cells self uids
       = Ret (self, ConflictWarning k).
Proof.
  intros Hk Hsel Hin Hcells.
  destruct (find_conflict_spec self uids Hk) as (r & Hr & Hpost).
  destruct r as [k|].
  - exists k. split; [exact Hr|]. unfold _add_selected_courses.
    destruct uids as [|id0 rest]; [inversion Hin|]. rewrite Hr. reflexivity.
  - exfalso. apply set_choose_L in Hcells as [c Hc].
    apply list_elem_of_lookup in Hin as [i Hi].
    apply (Hpost i id c Hi Hc). exists id. auto.
Qed.

End SelectionFacts.

(** ** The sample selection *)

Lemma sample_lookup (limit : Q) :
  ui_by_uid (sample_ui limit) !! uid course_a = Some course_a
  /\ ui_by_uid (sample_ui limit) !! uid course_b = Some course_b
  /\ ui_by_uid (sample_ui limit) !! uid course_c = Some course_c.
Proof. repeat split; vm_compute; reflexivity. Qed.

Lemma sample_known (limit : Q) (id : uid_t) :
  In id [uid course_a; uid course_b; uid course_c] ->
  known (sample_ui limit) [id].
Proof.
  intros Hid. destruct (sample_lookup limit) as (Ha & Hb & Hc). split.
  - intros x Hx. cbn [selected sample_ui] in Hx. apply elem_of_singleton in Hx.
    subst x. eauto.
  - intros x Hx. apply list_elem_of_singleton in Hx. subst x.
    destruct Hid as [<- | [<- | [<- | []]]]; eauto.
Qed.

Lemma sample_shared_cell (limit : Q) :
  (5, 3, 4) ∈ cells_of (sample_ui limit) (uid course_a)
  /\ (5, 3, 4) ∈ cells_of (sample_ui limit) (uid course_b).
Proof.
  destruct (sample_lookup limit) as (Ha & Hb & _).
  destruct (occ_cache_lookup _ _ _ Ha) as [_ ->].
  destruct (occ_cache_lookup _ _ _ Hb) as [_ ->].
  split; apply elem_of_occupied_cells; (split; [lia|]); eexists; (split; [left|]);
    repeat split; cbn; lia.
Qed.

Lemma conflict_check_first_collision_witness :
  known (sample_ui 25) [uid course_b]
  /\ exists k,
       _find_conflict_between elements elements (sample_ui 25) [uid course_b] = Ret (Some k)
       /\ conflict_c1 k = course_a /\ conflict_c2 k = course_b.
Proof.
  pose proof (sample_known 25 (uid course_b) (or_intror (or_introl eq_refl))) as Hk.
  split; [exact Hk|].
  destruct (conflict_check_first_collision elements elements
              (fun X => reflexivity (elements X)) (fun X => reflexivity (elements X))
              (sample_ui 25) [uid course_b] Hk)
    as (r & Hr & _ & _ & Hshare & _).
  destruct (sample_shared_cell 25) as [Ha Hb].
  destruct (Hshare (uid course_a) (uid course_b) (5, 3, 4) eq_refl eq_refl Ha Hb)
    as (k & -> & H1 & H2).
  destruct (sample_lookup 25) as (La & Lb & _).
  exists k. split; [exact Hr|]. rewrite La in H1. rewrite Lb in H2.
  injection H1 as <-. injection H2 as <-. split; reflexivity.
Defined.


Lemma selected_candidate_conflicts_witness :
  known (sample_ui 25) [uid course_a]
  /\ uid course_a ∈ selected (sample_ui 25)
  /\ uid course_a ∈ [uid course_a]
  /\ cells_of (sample_ui 25) (uid course_a) <> ∅
  /\ exists k,
       _find_conflict_between elements elements (sample_ui 25) [uid course_a] = Ret (Some k)
       /\ _add_selected_courses Qplus q_gt q_sum q_truthy 0%Q q_tol elements elements
            (sample_ui 25) [uid course_a]
          = Ret (sample_ui 25, ConflictWarning k).
Proof.
  pose proof (sample_known 25 (uid course_a) (or_introl eq_refl)) as Hk.
  assert (Hsel : uid course_a ∈ selected (sample_ui 25)) by (apply elem_of_singleton; reflexivity).
  assert (Hin : uid course_a ∈ [uid course_a]) by left.
  assert (Hcells : cells_of (sample_ui 25) (uid course_a) <> ∅).
  { intros E. destruct (sample_shared_cell 25) as [Ha _]. rewrite E in Ha.
    exact (not_elem_of_empty _ Ha). }
  repeat (split; [assumption|]).
  exact (selected_candidate_conflicts Qplus q_gt q_sum q_truthy 0%Q q_tol elements elements
           (fun X => reflexivity (elements X)) (fun X => reflexivity (elements X))
           (sample_ui 25) [uid course_a] (uid course_a) Hk Hsel Hin Hcells).
Defined.

Example sample_disjoint_periods :
  _find_conflict_between elements elements (sample_ui 25) [uid course_c] = Ret None.
Proof. vm_compute. reflexivity. Qed.

(** ** Further properties of the load and of the occupancy *)


(** The occupied cells of a course are the triples (week, weekday, period)
    with the week in 1..16, a meeting of the course occurring on that week
    on that weekday, and the period within the meeting's range. *)
Theorem occupied_cells_are_meeting_cells {F : Type} (c : Course F) (week wd p : Z) :
  (week, wd, p) ∈ build_occupied_cells_for_course c <->
  1 <= week <= 16
  /\ exists m, m ∈ meetings c /\ occurs_on_week m week = true
               /\ wd = weekday m /\ start_period m <= p <= end_period m.
Proof. apply elem_of_occupied_cells. Qed.

(** A row whose uid is already in the index replaces the earlier course
    there, is kept in the course list next to it, and leaves a warning
    with the two teachers. *)
Theorem duplicate_uid_later_row_wins {F : Type} (float_of_str : str -> option F) (fzero : F)
    (res : ParseResult) (idx : Z) (row : row_t) :
  exists c,
    parse_course_row float_of_str fzero row = Ret c
    /\ by_uid (load_step float_of_str fzero res idx row) !! uid c = Some c
    /\ courses (load_step float_of_str fzero res idx row) = courses res ++ [c]
    /\ global_warnings (load_step float_of_str fzero res idx row)
       = match by_uid res !! uid c with
         | Some old => global_warnings res ++ [UidDuplicate idx (uid c) (teacher old) (teacher c)]
         | None => global_warnings res
         end.
Proof.
  destruct (parse_course_row_total float_of_str fzero row) as (c & Hc & _ & _).
  exists c. split; [exact Hc|]. unfold load_step. rewrite Hc.
  cbn [by_uid courses global_warnings]. rewrite lookup_insert_eq.
  repeat split.
Qed.

(** The credit gate on the sample: a total that meets the limit is
    admitted, a total above it is rejected with the current total, the
    batch's total and the limit. *)
Theorem credit_gate_on_sample :
  (exists self',
     _add_selected_courses Qplus q_gt q_sum q_truthy 0%Q q_tol elements elements
       (sample_ui 5) [uid course_c] = Ret (self', Refreshed)
     /\ selected self' = {[ uid course_a ]} ∪ {[ uid course_c ]})
  /\ (exists current add_credits limit,
        _add_selected_courses Qplus q_gt q_sum q_truthy 0%Q q_tol elements elements
          (sample_ui 4) [uid course_c]
        = Ret (sample_ui 4, CreditWarning current add_credits limit)
        /\ (current == 3 /\ add_credits == 2 /\ limit == 4)%Q).
Proof.
  split.
  - eexists. split; vm_compute; reflexivity.
  - do 3 eexists. split; [vm_compute; reflexivity | repeat split].
Qed.

(** * Further properties *)

Lemma rstrip_by_idem (p : Z -> bool) (s : str) : rstrip_by p (rstrip_by p s) = rstrip_by p s.
Proof.
  induction s as [|c s IH]; [reflexivity|]. cbn [rstrip_by].
  destruct (rstrip_by p s) as [|d r] eqn:Hr.
  - destruct (p c) eqn:Hc; [reflexivity|]. cbn [rstrip_by]. rewrite Hc. reflexivity.
  - change (rstrip_by p (c :: d :: r)) with
      (match rstrip_by p (d :: r) with [] => if p c then [] else [c] | x => c :: x end).
    rewrite IH. reflexivity.
Qed.

Lemma lstrip_by_head (p : Z -> bool) (s : str) :
  match lstrip_by p s with [] => True | c :: _ => p c = false end.
Proof.
  induction s as [|c s IH]; cbn [lstrip_by]; [exact I|].
  destruct (p c) eqn:Hc; [exact IH | exact Hc].
Qed.

Lemma rstrip_by_head (p : Z -> bool) (s : str) :
  match rstrip_by p s, s with
  | c :: _, d :: _ => c = d
  | _, _ => True
  end.
Proof.
  destruct s as [|c s]; cbn [rstrip_by]; [exact I|].
  destruct (rstrip_by p s); [destruct (p c)|]; reflexivity.
Qed.

Lemma strip_idem (s : str) : strip (strip s) = strip s.
Proof.
  unfold strip.
  pose proof (lstrip_by_head is_space s) as Hl.
  pose proof (rstrip_by_head is_space (lstrip_by is_space s)) as Hr.
  destruct (rstrip_by is_space (lstrip_by is_space s)) as [|c t] eqn:Ht; [reflexivity|].
  destruct (lstrip_by is_space s) as [|d l] eqn:Hls; [discriminate Ht|].
  subst d. cbn [lstrip_by]. rewrite Hl. rewrite <- Ht. apply rstrip_by_idem.
Qed.

Lemma lstrip_by_In (p : Z -> bool) (s : str) (x : Z) : In x (lstrip_by p s) -> In x s.
Proof.
  induction s as [|c s IH]; cbn [lstrip_by]; [auto|].
  destruct (p c); [right; auto | auto].
Qed.

Lemma rstrip_by_In (p : Z -> bool) (s : str) (x : Z) : In x (rstrip_by p s) -> In x s.
Proof.
  induction s as [|c s IH]; cbn [rstrip_by]; [auto|].
  destruct (rstrip_by p s) as [|d r].
  - destruct (p c); [intros [] | intros [-> | []]; left; reflexivity].
  - intros [-> | H]; [left; reflexivity | right; apply IH, H].
Qed.

Lemma strip_In (s : str) (x : Z) : In x (strip s) -> In x s.
Proof. intros H. apply lstrip_by_In with is_space, rstrip_by_In with is_space, H. Qed.

Lemma split_nl_no_newline (s : str) : Forall (fun f => ~ In NL f) (split_nl s).
Proof.
  induction s as [|c s IH]; cbn [split_nl]; [repeat constructor; auto|].
  destruct (c =? NL) eqn:Hc.
  - constructor; [auto | exact IH].
  - destruct (split_nl s) as [|f fs]; [repeat constructor|].
    + intros [-> | []]. rewrite Z.eqb_refl in Hc. discriminate.
    + inversion IH as [|? ? Hf Hfs]; subst. constructor; [|exact Hfs].
      intros [-> | H]; [rewrite Z.eqb_refl in Hc; discriminate | auto].
Qed.


Lemma nonempty_true (s : str) : nonempty s = true <-> s <> [].
Proof. destruct s; cbn; split; congruence. Qed.

(** The lines [_split_info_lines] returns are clean: none is empty, none
    has blanks at either end, and none contains a newline. *)
Theorem split_info_lines_clean (info ln : str) :
  ln ∈ _split_info_lines info ->
  ln <> [] /\ strip ln = ln /\ ~ In NL ln.
Proof.
  unfold _split_info_lines. destruct (nonempty (_normalize_spaces info)); [|intros H; inversion H].
  intros H. apply list_elem_of_filter in H as [Hne H].
  apply nonempty_true in Hne. split; [exact Hne|].
  apply list_elem_of_fmap in H as (f & -> & Hf).
  split; [apply strip_idem|].
  intros Hnl. apply strip_In in Hnl.
  pose proof (split_nl_no_newline (_normalize_spaces info)) as Hall.
  rewrite Forall_forall in Hall. apply (Hall f); [|exact Hnl].
  exact Hf.
Qed.

Lemma split_info_lines_blank (info : str) :
  _normalize_spaces info = [] -> _split_info_lines info = [].
Proof. intros H. unfold _split_info_lines. rewrite H. reflexivity. Qed.

(** On a line that parses, the room recovered from the line is the room
    of the meeting. *)
Lemma extract_room_of_parsed (ln : str) (m : Meeting) :
  strip ln = ln -> parse_meeting_line ln = Ret (Some m) ->
  extract_room_from_any ln = room m.
Proof.
  intros Hs. unfold parse_meeting_line, extract_room_from_any. rewrite Hs.
  destruct (negb (nonempty ln) || _is_exam_line ln); [discriminate|].
  destruct (re_match MEETING_PERIOD_RE _) as [g|].
  - intros H. do 2 exc_step.
    destruct (WEEKDAY_MAP_get _); [|discriminate H]. do 2 exc_step.
    destruct (_ >? _); injection H as <-; reflexivity.
  - destruct (re_match MEETING_CLOCK_RE _) as [g|]; [|discriminate].
    intros H. do 2 exc_step.
    destruct (WEEKDAY_MAP_get _); [|discriminate H]. do 2 exc_step.
    destruct (_clock_to_periods _ _ _) as [[p1 p2]|]; [|discriminate H].
    injection H as <-. reflexivity.
Qed.

Lemma row_step_contrib (acc : row_acc) (ln : str) :
  strip ln = ln ->
  row_step acc ln
  = Ret (mkAcc (acc_meetings acc ++ option_list (line_meeting ln))
               (acc_warnings acc
                ++ (if line_unparsed ln then [u "未能解析上课行：" ++ ln] else []))
               (acc_rooms acc ++ option_list (line_room ln))).
Proof.
  intros Hs. unfold row_step, line_meeting, line_unparsed, line_room.
  destruct (_is_exam_line ln) eqn:Hex; cbn [negb andb option_list].
  { rewrite !app_nil_r. destruct acc; reflexivity. }
  destruct (parse_meeting_line_total ln) as [[m|] Hp]; rewrite Hp; cbn [bind option_list].
  - rewrite (extract_room_of_parsed ln m Hs Hp), app_nil_r.
    unfold add_room. destruct (nonempty (room m)); cbn [option_list];
      rewrite ?app_nil_r; reflexivity.
  - unfold add_room. destruct (nonempty (extract_room_from_any ln)); cbn [option_list];
      rewrite ?app_nil_r; reflexivity.
Qed.

Lemma row_loop_contrib (lines : list str) :
  Forall (fun ln => strip ln = ln) lines ->
  forall acc,
    row_loop acc lines
    = Ret (mkAcc (acc_meetings acc ++ omap line_meeting lines)
                 (acc_warnings acc
                  ++ map (app (u "未能解析上课行：")) (List.filter line_unparsed lines))
                 (acc_rooms acc ++ omap line_room lines)).
Proof.
  induction 1 as [|ln lines Hln Hall IH]; intros acc; cbn [row_loop].
  - cbn. rewrite !app_nil_r. destruct acc; reflexivity.
  - rewrite (row_step_contrib acc ln Hln). cbn [bind]. rewrite IH.
    cbn [acc_meetings acc_warnings acc_rooms omap list_omap List.filter map].
    rewrite <- !app_assoc.
    destruct (line_meeting ln), (line_unparsed ln), (line_room ln); reflexivity.
Qed.


Section CourseLines.
Context {F : Type} (float_of_str : str -> option F) (fzero : F).

Lemma info_lines_stripped (info : str) :
  Forall (fun ln => strip ln = ln) (_split_info_lines info).
Proof.
  apply Forall_forall. intros ln Hln.
  destruct (split_info_lines_clean info ln Hln) as (_ & H & _). exact H.
Qed.



End CourseLines.

Lemma startswith_iff (s p : str) : startswith s p = true <-> exists rest, s = p ++ rest.
Proof.
  revert s. induction p as [|x p IH]; intros s; cbn [startswith].
  - split; [intros _; exists s; reflexivity | reflexivity].
  - destruct s as [|y s]; [split; [discriminate | intros [r Hr]; discriminate Hr]|].
    rewrite andb_true_iff, Z.eqb_eq, IH. split.
    + intros [-> [r ->]]. exists r. reflexivity.
    + intros [r [= -> ->]]. split; [reflexivity | exists r; reflexivity].
Qed.

(** A line is an exam line exactly when, the blanks at its ends removed,
    it starts with one of the two exam prefixes; the tests with a colon
    after the prefix add nothing. *)
Theorem is_exam_line_iff (line : str) :
  _is_exam_line line = true <->
  exists pfx rest, In pfx EXAM_PREFIXES /\ strip line = pfx ++ rest.
Proof.
  unfold _is_exam_line. rewrite existsb_exists. split.
  - intros (pfx & Hin & H). exists pfx.
    apply orb_true_iff in H as [H | H]; [apply orb_true_iff in H as [H | H]|];
      apply startswith_iff in H as [r Hr].
    + exists (65306 :: r). rewrite <- app_assoc in Hr. auto.
    + exists (u ":" ++ r). rewrite <- app_assoc in Hr. auto.
    + exists r. auto.
  - intros (pfx & r & Hin & Hr). exists pfx. split; [exact Hin|].
    apply orb_true_iff. right. apply startswith_iff. exists r. exact Hr.
Qed.


Lemma first_slot_ok (ok : str -> Z -> Z -> bool) (slots : list (str * Z * Z * (Z * Z)))
    (pp : Z * Z) :
  first_slot ok slots = Some pp ->
  exists label s e, In (label, s, e, pp) slots /\ ok label s e = true.
Proof.
  induction slots as [|[[[label s] e] qq] slots IH]; cbn [first_slot]; [discriminate|].
  destruct (ok label s e) eqn:Hok.
  - intros [= <-]. exists label, s, e. split; [left; reflexivity | exact Hok].
  - intros H. destruct (IH H) as (l' & s' & e' & Hin & Hok'). exists l', s', e'.
    split; [right; exact Hin | exact Hok'].
Qed.

(** Clock times map to the afternoon periods 5 to 8 or to the evening
    periods 9 to 12 only, and only from a start at or after 12:00,
    respectively 17:00: a morning meeting in clock notation has no
    periods. *)
Theorem clock_periods_start_after_noon (tod : option str) (start_min end_min : Z) (pp : Z * Z) :
  _clock_to_periods tod start_min end_min = Some pp ->
  (pp = (5, 8) /\ 12 * 60 <= start_min) \/ (pp = (9, 12) /\ 17 * 60 <= start_min).
Proof.
  unfold _clock_to_periods.
  destruct (first_slot _ CLOCK_SLOT_MAP) as [q1|] eqn:H1.
  { intros [= <-]. apply first_slot_ok in H1 as (l & s & e & Hin & Hok).
    destruct (_ && negb _); [discriminate|].
    unfold CLOCK_SLOT_MAP in Hin. cbn [In] in Hin.
    destruct Hin as [[= <- <- <- <-] | [[= <- <- <- <-] | [[= <- <- <- <-] | []]]];
      bools; [left | right | right]; split; try reflexivity; lia. }
  clear H1. destruct (first_slot _ CLOCK_SLOT_MAP) as [q2|] eqn:H2.
  { intros [= <-]. apply first_slot_ok in H2 as (l & s & e & Hin & Hok).
    destruct (_ && negb _); [discriminate|].
    unfold CLOCK_SLOT_MAP in Hin. cbn [In] in Hin.
    destruct Hin as [[= <- <- <- <-] | [[= <- <- <- <-] | [[= <- <- <- <-] | []]]];
      bools; [left | right | right]; split; try reflexivity; lia. }
  destruct (_ && _ && _) eqn:H3.
  { intros [= <-]. bools. left. split; [reflexivity | lia]. }
  destruct (start_min >=? 17 * 60) eqn:H4; [|discriminate].
  intros [= <-]. bools. right. split; [reflexivity | lia].
Qed.

Lemma first_slot_table (ok : str -> Z -> Z -> bool) :
  first_slot ok CLOCK_SLOT_MAP
  = if ok (u "下午") 780 990 then Some (5, 8)
    else if ok (u "晚") 1080 1290 then Some (9, 12)
    else if ok (u "晚上") 1080 1290 then Some (9, 12)
    else None.
Proof. reflexivity. Qed.

(** A clock range within 20 minutes of a slot of the table at both ends
    maps to the periods of that slot, when the time of day is absent or
    names the slot. *)
Theorem clock_slot_within_tolerance (tod : option str) (label : str) (s0 e0 : Z) (pp : Z * Z)
    (start_min end_min : Z) :
  In (label, s0, e0, pp) CLOCK_SLOT_MAP ->
  tod = None \/ tod = Some label ->
  Z.abs (start_min - s0) <= 20 -> Z.abs (end_min - e0) <= 20 ->
  _clock_to_periods tod start_min end_min = Some pp.
Proof.
  intros Hin Htod Hs He. unfold _clock_to_periods. rewrite first_slot_table.
  apply Z.leb_le in Hs, He.
  unfold CLOCK_SLOT_MAP in Hin. cbn [In] in Hin.
  destruct Hin as [[= <- <- <- <-] | [[= <- <- <- <-] | [[= <- <- <- <-] | []]]];
    destruct Htod as [-> | ->];
    match goal with
    | |- context [strip (or_empty ?o)] =>
        let v := eval vm_compute in (strip (or_empty o)) in
        change (strip (or_empty o)) with v
    end;
    repeat match goal with
      | |- context [str_eqb ?a ?b] =>
          let v := eval vm_compute in (str_eqb a b) in
          change (str_eqb a b) with v
      end;
    cbv iota; cbn [nonempty negb andb];
    change (13 * 60) with 780 in *; change (16 * 60 + 30) with 990 in *;
    change (18 * 60) with 1080 in *; change (21 * 60 + 30) with 1290 in *;
    rewrite ?Hs, ?He; cbn [andb]; try reflexivity.
  all: assert (Hno : (Z.abs (start_min - 780) <=? 20) = false)
         by (apply Z.leb_gt; apply Z.leb_le in Hs; lia);
       rewrite Hno; cbn [andb]; reflexivity.
Qed.

(** *** Substitution *)

Lemma star_g_all {A : Type} (p : Z -> bool) (f : str -> A) (s : str) :
  star_g p s (fun s' => Some (f s')) = Some (f (lstrip_by p s)).
Proof.
  induction s as [|c s IH]; cbn [star_g lstrip_by]; [reflexivity|].
  destruct (p c); [rewrite IH|]; reflexivity.
Qed.

Lemma mt_here_plus (c : cls) (n0 : nat) (s : str) :
  mt_here (plus c) n0 s
  = match s with
    | x :: s' => if cls_match c x then Some ([], lstrip_by (cls_match c) s') else None
    | [] => None
    end.
Proof.
  unfold mt_here, plus. cbn [mt]. destruct s as [|x s']; [reflexivity|].
  destruct (cls_match c x); [|reflexivity].
  apply (star_g_all (cls_match c) (fun s' => ([] : env, s'))).
Qed.

Lemma lstrip_by_length (p : Z -> bool) (s : str) : (length (lstrip_by p s) <= length s)%nat.
Proof.
  induction s as [|c s IH]; cbn [lstrip_by length]; [lia|].
  destruct (p c); cbn [length]; lia.
Qed.

Lemma mt_here_suffix (r : re) (n0 : nat) (s s' : str) (g : env) :
  mt_here r n0 s = Some (g, s') -> exists w, s = w ++ s'.
Proof.
  unfold mt_here. intros H. apply mt_sound in H as (s1 & g1 & Hs & [= <- <-]).
  eapply sem_suffix. exact Hs.
Qed.

(** Substitution brings in no character besides those of the replacement. *)
Lemma sub_go_In (r : re) (n0 : nat) (repl : str) (x : Z) (fuel : nat) :
  forall s, In x (sub_go fuel r n0 repl s) -> In x s \/ In x repl.
Proof.
  induction fuel as [|fuel IH]; intros s; cbn [sub_go]; [auto|].
  assert (Hcopy : In x (match s with [] => [] | c :: t => c :: sub_go fuel r n0 repl t end) ->
                  In x s \/ In x repl).
  { destruct s as [|c t]; [intros []|]. intros [-> | H]; [left; left; reflexivity|].
    destruct (IH t H); [left; right|right]; assumption. }
  destruct (mt_here r n0 s) as [[g s']|] eqn:Hm; [|exact Hcopy].
  destruct (length s' <? length s)%nat; [|exact Hcopy].
  intros H. apply in_app_or in H as [H | H]; [right; exact H|].
  destruct (IH s' H) as [H' | H']; [left | right; exact H'].
  apply mt_here_suffix in Hm as [w ->]. apply in_or_app. right. exact H'.
Qed.

Lemma re_sub_In (r : re) (repl s : str) (x : Z) :
  In x (re_sub r repl s) -> In x s \/ In x repl.
Proof. apply sub_go_In. Qed.

(** Substituting for [c+] leaves no character of the class [c] behind. *)
Lemma sub_go_plus_In (c : cls) (n0 : nat) (repl : str) (x : Z) (fuel : nat) :
  forall s, (length s < fuel)%nat ->
    In x (sub_go fuel (plus c) n0 repl s) ->
    (cls_match c x = false /\ In x s) \/ In x repl.
Proof.
  induction fuel as [|fuel IH]; intros s Hlen; [lia|]. cbn [sub_go].
  rewrite mt_here_plus. destruct s as [|y s']; [intros []|].
  cbn [length] in Hlen. destruct (cls_match c y) eqn:Hy.
  - pose proof (lstrip_by_length (cls_match c) s') as Hl.
    replace (length (lstrip_by (cls_match c) s') <? length (y :: s'))%nat with true
      by (symmetry; apply Nat.ltb_lt; cbn [length]; lia).
    intros H. apply in_app_or in H as [H | H]; [right; exact H|].
    destruct (IH (lstrip_by (cls_match c) s') ltac:(lia) H) as [[Hx Hin] | Hr];
      [left | right; exact Hr].
    split; [exact Hx|]. right. eapply lstrip_by_In, Hin.
  - intros [-> | H]; [left; split; [exact Hy | left; reflexivity]|].
    destruct (IH s' ltac:(lia) H) as [[Hx Hin] | Hr]; [left | right; exact Hr].
    split; [exact Hx | right; exact Hin].
Qed.

Lemma re_sub_plus_In (c : cls) (repl s : str) (x : Z) :
  In x (re_sub (plus c) repl s) -> (cls_match c x = false /\ In x s) \/ In x repl.
Proof. apply sub_go_plus_In. lia. Qed.

(** A normalised room has no white space left, and no character the
    given room did not have. *)
Theorem normalize_room_no_space (room : str) (x : Z) :
  In x (_normalize_room room) -> is_space x = false /\ In x room.
Proof.
  unfold _normalize_room. destruct (negb (nonempty (strip room))); [intros []|].
  intros H. apply re_sub_plus_In in H as [[Hx H] | []]. split; [exact Hx|].
  apply strip_In in H. apply re_sub_In in H as [H | []]. apply strip_In, H.
Qed.

Lemma replace1_In (a : Z) (b s : str) (x : Z) :
  In x (replace1 a b s) -> (x <> a /\ In x s) \/ In x b.
Proof.
  unfold replace1. rewrite in_flat_map. intros (c & Hc & H).
  destruct (c =? a) eqn:Hca; [right; exact H|].
  destruct H as [<- | []]. left. split; [|exact Hc]. apply Z.eqb_neq, Hca.
Qed.

Lemma replace_crlf_In (s : str) (x : Z) : In x (replace_crlf s) -> In x s.
Proof.
  assert (Hboth : (In x (replace_crlf s) -> In x s)
                  /\ forall c, In x (replace_crlf (c :: s)) -> In x (c :: s)).
  { induction s as [|d s [IH1 IH2]]; (split; [|intros c]).
    - auto.
    - auto.
    - apply IH2.
    - cbn [replace_crlf]. destruct ((c =? CR) && (d =? NL)) eqn:Hcd.
      + apply andb_true_iff in Hcd as [_ Hd]. apply Z.eqb_eq in Hd. subst d.
        intros [<- | H]; [right; left; reflexivity | right; right; apply IH1, H].
      + intros [<- | H]; [left; reflexivity | right; apply IH2, H]. }
  apply Hboth.
Qed.

(** Normalised text has no carriage return, no tab and no full-width
    semicolon or comma, and its characters are those of the input or of
    the replacements: newline, semicolon, comma, space. *)
Theorem normalize_spaces_clean (s : str) (x : Z) :
  In x (_normalize_spaces s) ->
  x <> CR /\ x <> TAB /\ x <> 65307 /\ x <> 65292
  /\ (In x s \/ In x [NL; 59; 44; SP]).
Proof.
  unfold _normalize_spaces. intros H.
  apply strip_In in H.
  apply re_sub_In in H.
  assert (H4 : In x (re_sub RE_BLANKS (u " ")
                        (replace1 65292 (u ",") (replace1 65307 (u ";")
                           (replace1 CR [NL] (replace_crlf s))))) \/ x = NL).
  { destruct H as [H | [<- | []]]; auto. }
  clear H.
  assert (H3 : (x <> TAB /\ In x (replace1 65292 (u ",") (replace1 65307 (u ";")
                           (replace1 CR [NL] (replace_crlf s))))) \/ x = SP \/ x = NL).
  { destruct H4 as [H | ->]; [|auto].
    apply re_sub_plus_In in H as [[Hx H] | [<- | []]]; [left | right; left; reflexivity].
    split; [|exact H]. intros ->. discriminate Hx. }
  clear H4.
  assert (H2 : (x <> TAB /\ x <> 65292
                /\ In x (replace1 65307 (u ";") (replace1 CR [NL] (replace_crlf s))))
               \/ In x [NL; 59; 44; SP]).
  { destruct H3 as [[Ht H] | [-> | ->]]; [|right; cbn; auto | right; cbn; auto].
    apply replace1_In in H as [[Hx H] | [<- | []]]; [left; auto | right; cbn; auto]. }
  clear H3.
  assert (H1 : (x <> TAB /\ x <> 65292 /\ x <> 65307
                /\ In x (replace1 CR [NL] (replace_crlf s)))
               \/ In x [NL; 59; 44; SP]).
  { destruct H2 as [(Ht & Hc & H) | H]; [|auto].
    apply replace1_In in H as [[Hx H] | [<- | []]]; [left; auto | right; cbn; auto]. }
  clear H2.
  destruct H1 as [(Ht & Hc & Hsc & H) | H].
  - apply replace1_In in H as [[Hx H] | [<- | []]].
    + apply replace_crlf_In in H. repeat split; auto.
    + repeat split; try discriminate. right. left. reflexivity.
  - repeat split; auto; intros ->; cbn in H; 
      repeat (destruct H as [H | H]; [discriminate H|]); destruct H.
Qed.

Section LoadFacts.
Context {F : Type} (float_of_str : str -> option F) (fzero : F).
Implicit Types (res : @ParseResult F) (c : Course F) (rows : list row_t).

Lemma load_step_ret res (idx : Z) (row : row_t) c :
  parse_course_row float_of_str fzero row = Ret c ->
  load_step float_of_str fzero res idx row
  = mkResult (courses res ++ [c])
             (<[key c := default [] (by_key res !! key c) ++ [c]]> (by_key res))
             (<[uid c := c]> (by_uid res))
             (global_warnings res
              ++ match by_uid res !! uid c with
                 | Some old => [UidDuplicate idx (uid c) (teacher old) (teacher c)]
                 | None => []
                 end)
             (empty_room_rows res)
             (meeting_parse_warnings res
              ++ map (MeetingWarning idx (course_code c) (course_name c) (class_no c))
                     (parse_warnings c))
             (key_collisions res
              ++ match default [] (by_key res !! key c) with
                 | old :: _ => [KeyCollision idx (key c) (class_no old) (teacher old)
                                             (class_no c) (teacher c)]
                 | [] => []
                 end)
             (total_rows res).
Proof.
  intros Hc.
  destruct (parse_course_row_total float_of_str fzero row) as (c' & Hc' & Hroom & _).
  rewrite Hc in Hc'. injection Hc' as <-.
  unfold load_step. rewrite Hc, (str_eqb_nil _ Hroom).
  destruct (by_uid res !! uid c), (default [] (by_key res !! key c));
    rewrite ?app_nil_r; reflexivity.
Qed.

Lemma load_inv_step res (idx : Z) (row : row_t) :
  load_inv res -> load_inv (load_step float_of_str fzero res idx row).
Proof.
  intros (Huid & Hkey & Hgw & Hkc & Hdup).
  destruct (parse_course_row_total float_of_str fzero row) as (c & Hc & _).
  rewrite (load_step_ret res idx row c Hc).
  unfold load_inv. cbn [courses by_uid by_key global_warnings key_collisions].
  split; [|split; [|split; [|split]]].
  - intros id. rewrite filter_app, filter_cons, filter_nil.
    destruct (decide (uid c = id)) as [<- | Hne].
    + rewrite lookup_insert_eq, last_snoc. reflexivity.
    + rewrite lookup_insert_ne by exact Hne. rewrite app_nil_r. apply Huid.
  - intros k. rewrite filter_app, filter_cons, filter_nil.
    destruct (decide (key c = k)) as [<- | Hne].
    + rewrite lookup_insert_eq, Hkey.
      destruct (filter (fun c0 => key c0 = key c) (courses res)); reflexivity.
    + rewrite lookup_insert_ne by exact Hne. rewrite app_nil_r. apply Hkey.
  - rewrite !length_app. cbn [length].
    destruct (by_uid res !! uid c) as [old|] eqn:Hold.
    + rewrite map_size_insert_Some by eauto. cbn [length]. lia.
    + rewrite map_size_insert_None by exact Hold. cbn [length]. lia.
  - rewrite !length_app. cbn [length].
    destruct (by_key res !! key c) as [l|] eqn:Hl.
    + rewrite map_size_insert_Some by eauto. cbn [default].
      rewrite Hkey in Hl. destruct l as [|old l]; [|unfold id; cbn [length]; lia].
      exfalso. destruct (filter _ _); discriminate Hl.
    + rewrite map_size_insert_None by exact Hl. cbn [default length]. lia.
  - apply Forall_app. split; [exact Hdup|].
    destruct (by_uid res !! uid c); repeat constructor.
Qed.

Lemma load_inv_loop rows :
  forall res (idx : Z), load_inv res -> load_inv (load_loop float_of_str fzero res idx rows).
Proof.
  induction rows as [|row rows IH]; intros res idx Hinv; cbn [load_loop]; [exact Hinv|].
  apply IH, load_inv_step, Hinv.
Qed.

Lemma load_inv_parse_rows rows : load_inv (parse_rows float_of_str fzero rows).
Proof.
  apply load_inv_loop. unfold load_inv. cbn.
  repeat split; try reflexivity. constructor.
Qed.

(** The courses are the parsed rows, one for one and in order, and the
    per-line warnings are gathered in row order under the row's number. *)
Lemma load_loop_rows rows :
  forall res (idx : Z),
    exists cs,
      Forall2 (fun row c => parse_course_row float_of_str fzero row = Ret c) rows cs
      /\ courses (load_loop float_of_str fzero res idx rows) = courses res ++ cs
      /\ meeting_parse_warnings (load_loop float_of_str fzero res idx rows)
         = meeting_parse_warnings res
           ++ concat (imap (fun i c =>
                              map (MeetingWarning (idx + Z.of_nat i) (course_code c)
                                     (course_name c) (class_no c))
                                  (parse_warnings c)) cs).
Proof.
  induction rows as [|row rows IH]; intros res idx; cbn [load_loop].
  - exists []. cbn. rewrite !app_nil_r. repeat split. constructor.
  - destruct (parse_course_row_total float_of_str fzero row) as (c & Hc & _).
    destruct (IH (load_step float_of_str fzero res idx row) (idx + 1)) as (cs & Hall & Hcs & Hmw).
    exists (c :: cs). split; [constructor; assumption|].
    rewrite Hcs, Hmw, (load_step_ret res idx row c Hc).
    cbn [courses meeting_parse_warnings imap concat]. rewrite <- !app_assoc.
    split; [reflexivity|]. f_equal. rewrite Z.add_0_r. f_equal. f_equal.
    apply imap_ext. intros i x _. cbn. do 2 f_equal. lia.
Qed.

End LoadFacts.

Lemma dedup_inv (l : list row_t) :
  let st := foldl dedup_step (∅, []) l in
  st.1 = list_to_set (dedup_key <$> l)
  /\ (forall k, filter (fun c => dedup_key c = k) st.2
                = option_list (head (filter (fun c => dedup_key c = k) l)))
  /\ sublist st.2 l
  /\ (NoDup (dedup_key <$> l) -> st.2 = l).
Proof.
  cbv zeta. induction l as [|c l IH] using rev_ind.
  - cbn. repeat split; try reflexivity; try constructor.
  - rewrite foldl_app. cbn [foldl].
    destruct IH as (Hseen & Hfil & Hsub & Hnd).
    set (st := foldl dedup_step (∅, []) l) in *.
    unfold dedup_step. rewrite fmap_app, list_to_set_app_L. cbn [fmap list_fmap].
    assert (Hin : forall k, k ∈ st.1 <-> filter (fun c => dedup_key c = k) l <> []).
    { intros k. rewrite Hseen, elem_of_list_to_set, list_elem_of_fmap. split.
      - intros (y & -> & Hy) E.
        assert (y ∈ filter (fun c => dedup_key c = dedup_key y) l)
          by (apply list_elem_of_filter; auto).
        rewrite E in H. inversion H.
      - intros Hne. destruct (filter _ l) as [|y f] eqn:E; [congruence|].
        assert (Hy : y ∈ filter (fun c => dedup_key c = k) l) by (rewrite E; left).
        apply list_elem_of_filter in Hy as [Hk Hy]. exists y. auto. }
    destruct (decide (dedup_key c ∈ st.1)) as [Hmem | Hnew].
    + split; [|split; [|split]].
      * rewrite <- Hseen. cbn [list_to_set]. rewrite (right_id_L ∅ (∪)). symmetry.
        rewrite (comm_L (∪)). apply subseteq_union_1_L.
        apply singleton_subseteq_l, Hmem.
      * intros k. rewrite Hfil, filter_app, filter_cons, filter_nil.
        destruct (decide (dedup_key c = k)) as [<- | Hne]; [|rewrite app_nil_r; reflexivity].
        apply Hin in Hmem. destruct (filter _ l); [congruence | reflexivity].
      * apply sublist_inserts_r, Hsub.
      * intros Hd. exfalso. apply NoDup_app in Hd as (_ & Hd & _).
        rewrite Hseen, elem_of_list_to_set in Hmem. apply (Hd _ Hmem). left.
    + cbn [fst snd]. split; [|split; [|split]].
      * rewrite <- Hseen. cbn [list_to_set]. rewrite (right_id_L ∅ (∪)). reflexivity.
      * intros k. rewrite !filter_app, !filter_cons, !filter_nil, Hfil.
        destruct (decide (dedup_key c = k)) as [<- | Hne]; [|rewrite !app_nil_r; reflexivity].
        destruct (filter (fun c0 => dedup_key c0 = dedup_key c) l) eqn:E; [reflexivity|].
        exfalso. apply Hnew, Hin. rewrite E. discriminate.
      * apply sublist_app; [exact Hsub | reflexivity].
      * intros Hd. apply NoDup_app in Hd as (Hd & _ & _). rewrite (Hnd Hd). reflexivity.
Qed.

Lemma filter_le1_NoDup {A B : Type} `{EqDecision B} (f : A -> B) (l : list A) :
  (forall k, (length (filter (fun c => f c = k) l) <= 1)%nat) -> NoDup (f <$> l).
Proof.
  induction l as [|c l IH]; intros H; cbn [fmap list_fmap]; [constructor|].
  apply NoDup_cons. split.
  - intros Hin. apply list_elem_of_fmap in Hin as (y & Hy & Hyl).
    specialize (H (f c)). rewrite filter_cons in H.
    destruct (decide (f c = f c)); [|congruence]. cbn [length] in H.
    assert (Hy' : y ∈ filter (fun c0 => f c0 = f c) l) by (apply list_elem_of_filter; auto).
    destruct (filter _ l); [inversion Hy' | cbn [length] in H; lia].
  - apply IH. intros k. specialize (H k). rewrite filter_cons in H.
    destruct (decide (f c = k)); cbn [length] in H; lia.
Qed.

Lemma deduplicate_NoDup (l : list row_t) : NoDup (dedup_key <$> deduplicate l).
Proof.
  apply filter_le1_NoDup. intros k.
  destruct (dedup_inv l) as (_ & Hfil & _). unfold deduplicate. rewrite Hfil.
  destruct (head _); cbn; lia.
Qed.

(** The crawler's deduplication keeps, for each pair of course number and
    class number, the first row that has it; it keeps the rows' order,
    leaves no pair twice, and changes nothing when applied again. *)
Theorem deduplicate_keeps_first (courses : list row_t) :
  (forall k, filter (fun c => dedup_key c = k) (deduplicate courses)
             = option_list (head (filter (fun c => dedup_key c = k) courses)))
  /\ sublist (deduplicate courses) courses
  /\ NoDup (dedup_key <$> deduplicate courses)
  /\ deduplicate (deduplicate courses) = deduplicate courses.
Proof.
  destruct (dedup_inv courses) as (_ & Hfil & Hsub & _).
  split; [exact Hfil|]. split; [exact Hsub|]. split; [apply deduplicate_NoDup|].
  destruct (dedup_inv (deduplicate courses)) as (_ & _ & _ & Hid).
  apply Hid, deduplicate_NoDup.
Qed.

Lemma foldl_remove_selected (sel : gset uid_t) (ids : list uid_t) :
  foldl (fun s id => s ∖ {[ id ]}) sel ids = sel ∖ list_to_set ids.
Proof.
  revert sel. induction ids as [|id ids IH]; intros sel; cbn [foldl list_to_set].
  - rewrite difference_empty_L. reflexivity.
  - rewrite IH. apply set_eq. intros x.
    rewrite !elem_of_difference, elem_of_union, elem_of_singleton. tauto.
Qed.

Section SelectionMoreFacts.
Context {F : Type}.
Context (fadd : F -> F -> F) (fgt : F -> F -> bool) (fsum : list F -> F).
Context (ftruthy : F -> bool) (fzero tol : F).
Context (iter_uids : gset uid_t -> list uid_t).
Context (iter_cells : gset cell -> list cell).
Hypothesis iter_uids_perm : forall X, iter_uids X ≡ₚ elements X.
Hypothesis iter_cells_perm : forall X, iter_cells X ≡ₚ elements X.

Implicit Types (self : @CourseUI F) (uids : list uid_t) (id : uid_t).

Lemma add_selected_inv self uids self' (ev : @ui_event F) :
  _add_selected_courses fadd fgt fsum ftruthy fzero tol iter_uids iter_cells self uids
  = Ret (self', ev) ->
  match ev with
  | Refreshed =>
      _find_conflict_between iter_uids iter_cells self uids = Ret None
      /\ self' = mkUI (ui_by_uid self) (selected self ∪ list_to_set uids)
                      (credit_limit_var self)
  | _ => self' = self
  end.
Proof.
  unfold _add_selected_courses. destruct uids as [|id0 rest] eqn:Hu.
  { intros [= <- <-]. reflexivity. }
  rewrite <- Hu.
  destruct (_find_conflict_between iter_uids iter_cells self uids) as [[k|]|e];
    cbn [bind]; [intros [= <- <-]; reflexivity | | discriminate].
  destruct (_current_total_credits _ _ _ _ self) as [cur|e]; cbn [bind]; [|discriminate].
  destruct (mapM _ uids) as [cs|e]; cbn [bind]; [|discriminate].
  destruct (fgt _ _); intros [= <- <-]; [reflexivity|].
  rewrite foldl_add_selected. split; reflexivity.
Qed.

Lemma take_elem_lookup uids (i : nat) id :
  id ∈ take i uids <-> exists j, (j < i)%nat /\ uids !! j = Some id.
Proof.
  rewrite list_elem_of_lookup. split.
  - intros [j Hj]. apply lookup_take_Some in Hj as [Hj Hlt]. eauto.
  - intros (j & Hlt & Hj). exists j. apply lookup_take_Some. auto.
Qed.

(** The conflict check passes exactly on the batches that are clear. *)
Lemma find_none_iff self uids :
  known self uids ->
  _find_conflict_between iter_uids iter_cells self uids = Ret None <-> batch_clear self uids.
Proof.
  intros Hk.
  destruct (find_conflict_spec iter_uids iter_cells iter_uids_perm iter_cells_perm self uids Hk)
    as (r & Hr & Hpost).
  rewrite Hr. split.
  - intros [= ->]. split.
    + intros id o Hid Ho. apply list_elem_of_lookup in Hid as [i Hi].
      apply elem_of_disjoint. intros c Hc Hco.
      apply (Hpost i id c Hi Hc). exists o. auto.
    + assert (Hlt : forall i j a b, (i < j)%nat -> uids !! i = Some a -> uids !! j = Some b ->
                                   cells_of self a ## cells_of self b).
      { intros i j a b Hij Ha Hb. apply elem_of_disjoint. intros c Hca Hcb.
        apply (Hpost j b c Hb Hcb). exists a. split; [right|exact Hca].
        apply take_elem_lookup. eauto. }
      intros i j a b Hij Ha Hb.
      destruct (Nat.lt_ge_cases i j) as [Hlt' | Hge]; [eapply Hlt; eassumption|].
      symmetry. apply (Hlt j i); [lia | assumption ..].
  - intros [Hsel Hpair]. destruct r as [k|]; [exfalso | reflexivity].
    destruct Hpost as (i & id & other & Hi & _ & _ & H3 & H4 & H5 & _).
    destruct H5 as [Ho | Ho].
    + assert (Hid : id ∈ uids) by (apply list_elem_of_lookup; eauto).
      pose proof (Hsel id other Hid Ho) as Hd.
      apply elem_of_disjoint in Hd. exact (Hd _ H3 H4).
    + apply take_elem_lookup in Ho as (j & Hj & Hoj).
      assert (Hne : j <> i) by lia.
      pose proof (Hpair j i other id Hne Hoj Hi) as Hd.
      apply elem_of_disjoint in Hd. exact (Hd _ H4 H3).
Qed.

Lemma batch_clear_perm self uids uids' :
  uids ≡ₚ uids' -> batch_clear self uids -> batch_clear self uids'.
Proof.
  intros Hp [Hsel Hpair]. split.
  - intros id o Hid Ho. apply Hsel; [rewrite Hp; exact Hid | exact Ho].
  - symmetry in Hp. apply Permutation_inj in Hp as (_ & f & Hf & Hlook).
    intros i j a b Hij Ha Hb. rewrite Hlook in Ha, Hb.
    apply (Hpair (f i) (f j)); [|assumption ..].
    intros E. apply Hij, Hf, E.
Qed.

Lemma known_perm self uids uids' : uids ≡ₚ uids' -> known self uids -> known self uids'.
Proof.
  intros Hp [H1 H2]. split; [exact H1|]. intros id Hid. apply H2. rewrite Hp. exact Hid.
Qed.


Lemma cells_of_same_courses self self' id :
  ui_by_uid self' = ui_by_uid self -> cells_of self' id = cells_of self id.
Proof. intros H. unfold cells_of, occ_cache. rewrite H. reflexivity. Qed.

Lemma batch_clear_conflict_free self uids :
  conflict_free self -> batch_clear self uids ->
  conflict_free (mkUI (ui_by_uid self) (selected self ∪ list_to_set uids)
                      (credit_limit_var self)).
Proof.
  intros Hcf [Hsel Hpair] a b Ha Hb Hab. cbn [selected] in Ha, Hb.
  rewrite !(cells_of_same_courses self) by reflexivity.
  apply elem_of_union in Ha as [Ha | Ha]; apply elem_of_union in Hb as [Hb | Hb].
  - apply Hcf; assumption.
  - apply elem_of_list_to_set in Hb. symmetry. apply Hsel; assumption.
  - apply elem_of_list_to_set in Ha. apply Hsel; assumption.
  - apply elem_of_list_to_set, list_elem_of_lookup in Ha as [i Hi].
    apply elem_of_list_to_set, list_elem_of_lookup in Hb as [j Hj].
    apply (Hpair i j); [|assumption ..]. intros ->. congruence.
Qed.

(** The selection stays free of conflicts: adding a batch and removing
    courses both keep the cells of distinct selected courses disjoint. *)
Theorem selection_stays_conflict_free self uids :
  known self uids -> conflict_free self ->
  (forall self' ev,
     _add_selected_courses fadd fgt fsum ftruthy fzero tol iter_uids iter_cells self uids
     = Ret (self', ev) -> conflict_free self')
  /\ conflict_free (_remove_selected_courses self uids).1.
Proof.
  intros Hk Hcf. split.
  - intros self' ev Hadd. apply add_selected_inv in Hadd.
    destruct ev; try (subst self'; exact Hcf).
    destruct Hadd as [Hnone ->]. apply batch_clear_conflict_free; [exact Hcf|].
    apply find_none_iff; assumption.
  - unfold _remove_selected_courses. destruct uids as [|id0 rest] eqn:Hu; [exact Hcf|].
    rewrite <- Hu. cbn [fst]. rewrite foldl_remove_selected.
    intros a b Ha Hb Hab. cbn [selected] in Ha, Hb.
    apply elem_of_difference in Ha as [Ha _]. apply elem_of_difference in Hb as [Hb _].
    rewrite !(cells_of_same_courses self) by reflexivity. apply Hcf; assumption.
Qed.


(** Checking a batch in two parts: the first part, then the second part
    against the selection with the first part added. *)
Theorem conflict_check_batch_split self (l1 l2 : list uid_t) :
  known self (l1 ++ l2) ->
  _find_conflict_between iter_uids iter_cells self (l1 ++ l2) = Ret None <->
  _find_conflict_between iter_uids iter_cells self l1 = Ret None
  /\ _find_conflict_between iter_uids iter_cells
       (mkUI (ui_by_uid self) (selected self ∪ list_to_set l1) (credit_limit_var self)) l2
     = Ret None.
Proof.
  intros Hk. set (self1 := mkUI (ui_by_uid self) (selected self ∪ list_to_set l1)
                                (credit_limit_var self)).
  destruct Hk as [Hks Hku].
  assert (Hk1 : known self l1).
  { split; [exact Hks|]. intros id Hid. apply Hku, elem_of_app. auto. }
  assert (Hk2 : known self1 l2).
  { split.
    - intros id Hid. cbn [selected self1] in Hid. apply elem_of_union in Hid as [Hid | Hid].
      + apply Hks, Hid.
      + apply elem_of_list_to_set in Hid. apply Hku, elem_of_app. left. exact Hid.
    - intros id Hid. apply Hku, elem_of_app. auto. }
  rewrite (find_none_iff self (l1 ++ l2)) by (split; assumption).
  rewrite (find_none_iff self l1 Hk1), (find_none_iff self1 l2 Hk2).
  assert (Hcells : forall id, cells_of self1 id = cells_of self id)
    by (intros id; apply cells_of_same_courses; reflexivity).
  split.
  - intros [Hsel Hpair]. split; [split | split].
    + intros id o Hid Ho. apply Hsel; [apply elem_of_app; auto | exact Ho].
    + intros i j a b Hij Ha Hb. apply (Hpair i j); [exact Hij | |];
        apply lookup_app_l_Some; assumption.
    + intros id o Hid Ho. rewrite !Hcells. cbn [selected self1] in Ho.
      apply elem_of_union in Ho as [Ho | Ho].
      * apply Hsel; [apply elem_of_app; auto | exact Ho].
      * apply elem_of_list_to_set, list_elem_of_lookup in Ho as [i Hi].
        apply list_elem_of_lookup in Hid as [j Hj].
        pose proof (lookup_lt_Some _ _ _ Hi) as Hlen.
        apply (Hpair (length l1 + j)%nat i); [lia | | apply lookup_app_l_Some; exact Hi].
        rewrite lookup_app_r by lia.
        replace (length l1 + j - length l1)%nat with j by lia. exact Hj.
    + intros i j a b Hij Ha Hb. rewrite !Hcells.
      apply (Hpair (length l1 + i)%nat (length l1 + j)%nat); [lia | |];
        rewrite lookup_app_r by lia;
        [replace (length l1 + i - length l1)%nat with i by lia
        |replace (length l1 + j - length l1)%nat with j by lia]; assumption.
  - intros [[Hsel1 Hpair1] [Hsel2 Hpair2]]. split.
    + intros id o Hid Ho. apply elem_of_app in Hid as [Hid | Hid].
      * apply Hsel1; assumption.
      * rewrite <- !Hcells. apply Hsel2; [exact Hid|].
        cbn [selected self1]. apply elem_of_union. auto.
    + intros i j a b Hij Ha Hb.
      apply lookup_app_Some in Ha as [Ha | [Hi Ha]];
        apply lookup_app_Some in Hb as [Hb | [Hj Hb]].
      * apply (Hpair1 i j); assumption.
      * symmetry. rewrite <- !Hcells. apply Hsel2.
        -- apply list_elem_of_lookup. eauto.
        -- cbn [selected self1]. apply elem_of_union. right.
           rewrite elem_of_list_to_set, list_elem_of_lookup. eauto.
      * rewrite <- !Hcells. apply Hsel2.
        -- apply list_elem_of_lookup. eauto.
        -- cbn [selected self1]. apply elem_of_union. right.
           rewrite elem_of_list_to_set, list_elem_of_lookup. eauto.
      * rewrite <- !Hcells. apply (Hpair2 (i - length l1)%nat (j - length l1)%nat);
          [lia | assumption ..].
Qed.

End SelectionMoreFacts.

(** Whether a batch passes the conflict check depends neither on the
    order of its candidates nor on the order in which the sets are
    iterated. *)
Theorem conflict_verdict_order_free {F : Type}
    (iu iu' : gset uid_t -> list uid_t) (ic ic' : gset cell -> list cell)
    (self : @CourseUI F) (uids uids' : list uid_t) :
  (forall X, iu X ≡ₚ elements X) -> (forall X, ic X ≡ₚ elements X) ->
  (forall X, iu' X ≡ₚ elements X) -> (forall X, ic' X ≡ₚ elements X) ->
  known self uids -> uids ≡ₚ uids' ->
  _find_conflict_between iu ic self uids = Ret None <->
  _find_conflict_between iu' ic' self uids' = Ret None.
Proof.
  intros H1 H2 H3 H4 Hk Hp.
  rewrite (find_none_iff iu ic H1 H2 self uids Hk).
  rewrite (find_none_iff iu' ic' H3 H4 self uids' (known_perm self uids uids' Hp Hk)).
  split; apply batch_clear_perm; [exact Hp | symmetry; exact Hp].
Qed.

(** ** The load, as a whole *)

Section LoadTheorems.
Context {F : Type} (float_of_str : str -> option F) (fzero : F).


(** The two indexes follow the list of courses.  On a duplicate uid the
    later row wins: the index by uid maps a uid to the last course of the
    list that has it.  The index by key groups the courses: a key maps to
    the courses of the list that have it, in row order.  A uid or key no
    course has is absent. *)
Theorem indexes_follow_courses (rows : list row_t) (id : uid_t) (k : CourseKey) :
  let res := parse_rows float_of_str fzero rows in
  by_uid res !! id = last (filter (fun c => uid c = id) (courses res))
  /\ by_key res !! k
     = match filter (fun c => key c = k) (courses res) with
       | [] => None
       | l => Some l
       end.
Proof.
  cbv zeta. destruct (load_inv_parse_rows float_of_str fzero rows) as (Hu & Hk & _).
  split; [apply Hu | apply Hk].
Qed.


End LoadTheorems.



(** The occupied cells through [occurs_on]: a cell is occupied exactly
    when its week is one of the weeks 1 to 16 and a meeting of the course
    occurs on it; what a meeting holds beyond week 16 occupies nothing. *)
Theorem occupied_cells_occurs_on {F : Type} (c : Course F) (week wd p : Z) :
  (week, wd, p) ∈ build_occupied_cells_for_course c <->
  1 <= week <= 16 /\ exists m, m ∈ meetings c /\ occurs_on m week wd p = true.
Proof.
  rewrite elem_of_occupied_cells. unfold occurs_on.
  split; intros [Hw (m & Hm & H)]; (split; [exact Hw|]); exists m; (split; [exact Hm|]).
  - destruct H as (-> & -> & H1 & H2). rewrite Z.eqb_refl. cbn [andb].
    apply andb_true_iff. split; apply Z.leb_le; assumption.
  - apply andb_true_iff in H as [H Hp]. apply andb_true_iff in H as [Ho Hd].
    apply andb_true_iff in Hp as [H1 H2].
    apply Z.eqb_eq in Hd. apply Z.leb_le in H1, H2. auto.
Qed.

Section DedupLoad.
Context {F : Type} (float_of_str : str -> option F) (fzero : F).




End DedupLoad.

(** ** The timetable *)

Lemma texts_absent (g : grid_text_t) (k : Z * Z) : k ∉ g.*1 -> texts g k = [].
Proof.
  induction g as [|[k' l] g IH]; intros Hk; cbn [texts]; [reflexivity|].
  cbn [fmap list_fmap fst] in Hk. apply not_elem_of_cons in Hk as [Hne Hk].
  destruct (decide (k' = k)) as [->|_]; [contradiction|]. exact (IH Hk).
Qed.

Lemma texts_present (g : grid_text_t) (k : Z * Z) :
  Forall (fun kl => kl.2 <> []) g -> k ∈ g.*1 -> texts g k <> [].
Proof.
  induction g as [|[k' l] g IH]; intros Hne Hk; cbn [texts]; [inversion Hk|].
  apply Forall_cons in Hne as [Hl Hne].
  destruct (decide (k' = k)) as [->|Hkk]; [exact Hl|].
  cbn [fmap list_fmap fst] in Hk. apply elem_of_cons in Hk as [->|Hk]; [contradiction|].
  exact (IH Hne Hk).
Qed.

Lemma setdefault_append_keys (g : grid_text_t) (k : Z * Z) (x : str) (k' : Z * Z) :
  k' ∈ (setdefault_append g k x).*1 <-> k' ∈ g.*1 \/ k' = k.
Proof.
  induction g as [|[k0 l] g IH]; cbn [setdefault_append fmap list_fmap fst].
  - rewrite elem_of_cons. split; intros [H|H]; auto; inversion H.
  - destruct (decide (k0 = k)) as [->|Hne]; cbn [fmap list_fmap fst].
    + rewrite !elem_of_cons. tauto.
    + rewrite !elem_of_cons. fold (fmap (M := list) (@fst (Z * Z) (list str))). rewrite IH. tauto.
Qed.

Lemma setdefault_append_wf (g : grid_text_t) (k : Z * Z) (x : str) :
  grid_text_wf g -> grid_text_wf (setdefault_append g k x).
Proof.
  intros [Hnd Hne]. induction g as [|[k0 l] g IH]; cbn [setdefault_append].
  - split; [cbn; apply NoDup_singleton | repeat constructor; cbn; discriminate].
  - cbn [fmap list_fmap fst] in Hnd. apply NoDup_cons in Hnd as [Hk0 Hnd].
    apply Forall_cons in Hne as [Hl Hne].
    destruct (decide (k0 = k)) as [->|Hkk].
    + split; [cbn [fmap list_fmap fst]; apply NoDup_cons; auto|].
      constructor; [|exact Hne]. cbn. intros E. apply app_eq_nil in E as [_ E]. discriminate.
    + destruct (IH Hnd Hne) as [Hnd' Hne']. split.
      * cbn [fmap list_fmap fst]. apply NoDup_cons. split; [|exact Hnd'].
        intros Hin. apply setdefault_append_keys in Hin as [Hin | ->]; contradiction.
      * constructor; assumption.
Qed.

Lemma texts_setdefault_append (g : grid_text_t) (k : Z * Z) (x : str) (k' : Z * Z) :
  texts (setdefault_append g k x) k'
  = if decide (k' = k) then texts g k ++ [x] else texts g k'.
Proof.
  induction g as [|[k0 l] g IH]; cbn [setdefault_append texts app].
  - destruct (decide (k = k')), (decide (k' = k)); congruence.
  - destruct (decide (k0 = k)) as [->|Hne]; cbn [texts].
    + destruct (decide (k = k')), (decide (k' = k)); congruence.
    + rewrite IH. destruct (decide (k0 = k')), (decide (k' = k)), (decide (k0 = k)); congruence.
Qed.

Section TimetableFacts.
Context {F : Type}.
Context (fsum : list F -> F) (ftruthy : F -> bool) (fzero : F).
Context (fmt_g : F -> str) (hash : str -> Z).
Context (iter_uids : gset uid_t -> list uid_t).

Implicit Types (self : @CourseUI F) (c : Course F) (m : Meeting) (g : grid_text_t).

Lemma foldl_setdefault_append (wd : Z) (x : str) (ps : list Z) :
  NoDup ps ->
  forall g (p d : Z),
    texts (foldl (fun g p => setdefault_append g (p, wd) x) g ps) (p, d)
    = texts g (p, d) ++ (if decide (d = wd /\ p ∈ ps) then [x] else []).
Proof.
  induction ps as [|p0 ps IH]; intros Hnd g p d; cbn [foldl].
  - destruct (decide _) as [[_ H]|_]; [inversion H | rewrite app_nil_r; reflexivity].
  - apply NoDup_cons in Hnd as [Hp0 Hnd]. rewrite (IH Hnd), texts_setdefault_append.
    destruct (decide ((p, d) = (p0, wd))) as [[= -> ->]|Hne].
    + destruct (decide (wd = wd /\ p0 ∈ ps)) as [[_ Hin]|_]; [contradiction|].
      destruct (decide (wd = wd /\ p0 ∈ p0 :: ps)) as [_|Hn]; [rewrite app_nil_r; reflexivity|].
      exfalso. apply Hn. split; [reflexivity | left].
    + destruct (decide (d = wd /\ p ∈ ps)) as [[-> Hin]|Hn1];
        destruct (decide (_ /\ p ∈ p0 :: ps)) as [[Hd Hin']|Hn2]; try reflexivity.
      * exfalso. apply Hn2. split; [reflexivity | right; exact Hin].
      * exfalso. subst d. apply elem_of_cons in Hin' as [-> | Hin']; [congruence|].
        apply Hn1. auto.
Qed.

Lemma foldl_setdefault_append_wf (wd : Z) (x : str) (ps : list Z) g :
  grid_text_wf g -> grid_text_wf (foldl (fun g p => setdefault_append g (p, wd) x) g ps).
Proof.
  revert g. induction ps as [|p0 ps IH]; intros g Hwf; cbn [foldl]; [exact Hwf|].
  apply IH, setdefault_append_wf, Hwf.
Qed.

Lemma texts_add_meeting (week : Z) c g m (p d : Z) :
  texts (add_meeting_text week c g m) (p, d)
  = texts g (p, d) ++ (if occurs_on m week d p then [cell_entry c m] else []).
Proof.
  unfold add_meeting_text, occurs_on.
  destruct (occurs_on_week m week); cbn [negb andb]; [|rewrite app_nil_r; reflexivity].
  rewrite foldl_setdefault_append by (unfold range; apply NoDup_seqZ).
  f_equal. destruct (decide _) as [[-> Hin]|Hn].
  - apply elem_of_range in Hin. rewrite Z.eqb_refl. cbn [andb].
    replace (start_period m <=? p) with true by (symmetry; apply Z.leb_le; lia).
    replace (p <=? end_period m) with true by (symmetry; apply Z.leb_le; lia).
    reflexivity.
  - destruct (weekday m =? d) eqn:Hd; [|reflexivity]. apply Z.eqb_eq in Hd.
    destruct (start_period m <=? p) eqn:H1; [|reflexivity].
    destruct (p <=? end_period m) eqn:H2; [|reflexivity].
    exfalso. apply Hn. split; [congruence|]. apply elem_of_range.
    apply Z.leb_le in H1, H2. lia.
Qed.

Lemma add_meeting_text_wf (week : Z) c g m :
  grid_text_wf g -> grid_text_wf (add_meeting_text week c g m).
Proof.
  intros Hwf. unfold add_meeting_text. destruct (negb _); [exact Hwf|].
  apply foldl_setdefault_append_wf, Hwf.
Qed.

Lemma texts_add_meetings (week : Z) c (ms : list Meeting) :
  forall g (p d : Z),
    texts (foldl (add_meeting_text week c) g ms) (p, d)
    = texts g (p, d)
      ++ flat_map (fun m => if occurs_on m week d p then [cell_entry c m] else []) ms.
Proof.
  induction ms as [|m ms IH]; intros g p d; cbn [foldl flat_map].
  - rewrite app_nil_r. reflexivity.
  - rewrite IH, texts_add_meeting, <- app_assoc. reflexivity.
Qed.

Lemma add_meetings_wf (week : Z) c (ms : list Meeting) g :
  grid_text_wf g -> grid_text_wf (foldl (add_meeting_text week c) g ms).
Proof.
  revert g. induction ms as [|m ms IH]; intros g Hwf; cbn [foldl]; [exact Hwf|].
  apply IH, add_meeting_text_wf, Hwf.
Qed.

Lemma collect_from self (week : Z) (ids : list uid_t) :
  (forall id, id ∈ ids -> is_Some (ui_by_uid self !! id)) ->
  forall g, grid_text_wf g ->
    exists g',
      foldM (fun g id => c <- getitem (ui_by_uid self) id ;;
                         Ret (foldl (add_meeting_text week c) g (meetings c))) g ids
      = Ret g'
      /\ grid_text_wf g'
      /\ forall p d, texts g' (p, d) = texts g (p, d) ++ cell_entries self week ids p d.
Proof.
  induction ids as [|id ids IH]; intros Hk g Hwf; cbn [foldM].
  - exists g. split; [reflexivity|]. split; [exact Hwf|]. intros p d. cbn.
    rewrite app_nil_r. reflexivity.
  - destruct (Hk id) as [c Hc]; [left|]. unfold getitem at 1. rewrite Hc. cbn [bind].
    destruct (IH (fun id' H => Hk id' (list_elem_of_further _ _ _ H))
                 (foldl (add_meeting_text week c) g (meetings c))
                 (add_meetings_wf week c (meetings c) g Hwf)) as (g' & Hg' & Hwf' & Ht).
    exists g'. split; [exact Hg'|]. split; [exact Hwf'|]. intros p d.
    rewrite Ht, texts_add_meetings, <- app_assoc. unfold cell_entries. cbn [flat_map].
    rewrite Hc. reflexivity.
Qed.

Lemma collect_grid_text_spec self (week : Z) (ids : list uid_t) :
  (forall id, id ∈ ids -> is_Some (ui_by_uid self !! id)) ->
  exists g, collect_grid_text self week ids = Ret g
            /\ grid_text_wf g
            /\ forall p d, texts g (p, d) = cell_entries self week ids p d.
Proof.
  intros Hk. destruct (collect_from self week ids Hk []) as (g & Hg & Hwf & Ht).
  { split; [constructor | constructor]. }
  exists g. split; [exact Hg|]. split; [exact Hwf|]. intros p d. rewrite Ht. reflexivity.
Qed.

Lemma config_cell_ret (cells : grid_t) (k : Z * Z) (text bg : str) :
  is_Some (cells !! k) -> config_cell cells k text bg = Ret (<[k := mkLabel text bg]> cells).
Proof. intros [l Hl]. unfold config_cell, getitem. rewrite Hl. reflexivity. Qed.

Lemma config_cell_raise (cells : grid_t) (k : Z * Z) (text bg : str) :
  cells !! k = None -> config_cell cells k text bg = Raise KeyError.
Proof. intros Hl. unfold config_cell, getitem. rewrite Hl. reflexivity. Qed.

Lemma paint_spec g :
  grid_text_wf g ->
  forall cells : grid_t,
    (forall k, k ∈ g.*1 -> is_Some (cells !! k)) ->
    exists cells',
      paint hash cells g = Ret cells'
      /\ forall k, cells' !! k
                   = if decide (texts g k = []) then cells !! k
                     else Some (cell_label hash (texts g k)).
Proof.
  unfold paint. cbv zeta. induction g as [|[k0 l0] g IH]; intros [Hnd Hne] cells Hdom; cbn [foldM].
  - exists cells. split; reflexivity.
  - cbn [fmap list_fmap fst] in Hnd, Hdom. apply NoDup_cons in Hnd as [Hk0 Hnd].
    apply Forall_cons in Hne as [Hl0 Hne]. cbn [snd] in Hl0.
    rewrite config_cell_ret by (apply Hdom; left). cbn [bind].
    destruct (IH (conj Hnd Hne)
                 (<[k0 := mkLabel (join ENTRY_SEP l0) (color_for hash (first_name l0))]> cells))
      as (cells' & Hp & Hl).
    { intros k Hk. destruct (decide (k = k0)) as [->|Hkk].
      - rewrite lookup_insert_eq. eauto.
      - rewrite lookup_insert_ne by congruence. apply Hdom. right. exact Hk. }
    exists cells'. split; [exact Hp|]. intros k. rewrite Hl. cbn [texts].
    destruct (decide (k0 = k)) as [->|Hkk].
    + rewrite (texts_absent g k Hk0). cbn [decide]. rewrite lookup_insert_eq.
      destruct (decide (l0 = [])); [contradiction | reflexivity].
    + destruct (decide (texts g k = [])); [|reflexivity].
      rewrite lookup_insert_ne by exact Hkk. reflexivity.
Qed.

Lemma paint_raise g :
  forall cells : grid_t,
    (exists k, k ∈ g.*1 /\ cells !! k = None) ->
    paint hash cells g = Raise KeyError.
Proof.
  unfold paint. cbv zeta. induction g as [|[k0 l0] g IH]; intros cells (k & Hk & Hnone); cbn [foldM].
  - inversion Hk.
  - destruct (cells !! k0) as [lb|] eqn:Hk0.
    + rewrite config_cell_ret by (rewrite Hk0; eauto). cbn [bind]. apply IH.
      cbn [fmap list_fmap fst] in Hk. apply elem_of_cons in Hk as [-> | Hk]; [congruence|].
      exists k. split; [exact Hk|]. rewrite lookup_insert_ne by congruence. exact Hnone.
    + rewrite config_cell_raise by exact Hk0. reflexivity.
Qed.

Lemma clear_row (p : Z) (ds : list Z) :
  forall cells : grid_t,
    (forall d, d ∈ ds -> is_Some (cells !! (p, d))) ->
    exists cells',
      foldM (fun cells daycol => config_cell cells (p, daycol) [] WHITE) cells ds = Ret cells'
      /\ forall k, cells' !! k
                   = if decide (k.1 = p /\ k.2 ∈ ds) then Some (mkLabel [] WHITE)
                     else cells !! k.
Proof.
  induction ds as [|d0 ds IH]; intros cells Hdom; cbn [foldM].
  - exists cells. split; [reflexivity|]. intros k.
    destruct (decide _) as [[_ H]|_]; [inversion H | reflexivity].
  - rewrite config_cell_ret by (apply Hdom; left). cbn [bind].
    destruct (IH (<[(p, d0) := mkLabel [] WHITE]> cells)) as (cells' & Hc & Hl).
    { intros d Hd. destruct (decide (d = d0)) as [->|Hne].
      - rewrite lookup_insert_eq. eauto.
      - rewrite lookup_insert_ne by congruence. apply Hdom. right. exact Hd. }
    exists cells'. split; [exact Hc|]. intros [kp kd]. rewrite Hl. cbn [fst snd].
    destruct (decide (kp = p /\ kd ∈ ds)) as [[-> Hin]|Hn1].
    + destruct (decide (p = p /\ kd ∈ d0 :: ds)) as [_|Hn2]; [reflexivity|].
      exfalso. apply Hn2. split; [reflexivity | right; exact Hin].
    + destruct (decide (kp = p /\ kd ∈ d0 :: ds)) as [[-> Hin]|Hn2].
      * apply elem_of_cons in Hin as [-> | Hin]; [apply lookup_insert_eq|].
        exfalso. apply Hn1. auto.
      * apply lookup_insert_ne. intros [= <- <-]. apply Hn2. split; [reflexivity | left].
Qed.

Lemma clear_rows (ps ds : list Z) :
  forall cells : grid_t,
    (forall p d, p ∈ ps -> d ∈ ds -> is_Some (cells !! (p, d))) ->
    exists cells',
      foldM (fun cells period =>
               foldM (fun cells daycol => config_cell cells (period, daycol) [] WHITE) cells ds)
            cells ps = Ret cells'
      /\ forall k, cells' !! k
                   = if decide (k.1 ∈ ps /\ k.2 ∈ ds) then Some (mkLabel [] WHITE)
                     else cells !! k.
Proof.
  induction ps as [|p0 ps IH]; intros cells Hdom; cbn [foldM].
  - exists cells. split; [reflexivity|]. intros k.
    destruct (decide _) as [[H _]|_]; [inversion H | reflexivity].
  - destruct (clear_row p0 ds cells) as (cells1 & Hc1 & Hl1).
    { intros d Hd. apply Hdom; [left | exact Hd]. }
    rewrite Hc1. cbn [bind].
    destruct (IH cells1) as (cells' & Hc & Hl).
    { intros p d Hp Hd. rewrite Hl1. destruct (decide _); [eauto|].
      apply Hdom; [right; exact Hp | exact Hd]. }
    exists cells'. split; [exact Hc|]. intros k. rewrite Hl, Hl1.
    destruct (decide (k.1 ∈ ps /\ k.2 ∈ ds)) as [[Hp Hd]|Hn1].
    + destruct (decide (k.1 ∈ p0 :: ps /\ k.2 ∈ ds)) as [_|Hn2]; [reflexivity|].
      exfalso. apply Hn2. split; [right; exact Hp | exact Hd].
    + destruct (decide (k.1 = p0 /\ k.2 ∈ ds)) as [[Hp Hd]|Hn3];
        destruct (decide (k.1 ∈ p0 :: ps /\ k.2 ∈ ds)) as [[Hp' Hd']|Hn2]; try reflexivity.
      * exfalso. apply Hn2. split; [rewrite Hp; left | exact Hd].
      * exfalso. apply elem_of_cons in Hp' as [Hp' | Hp']; [apply Hn3 | apply Hn1]; auto.
Qed.

End TimetableFacts.

Lemma occurs_on_true (m : Meeting) (week d p : Z) :
  occurs_on m week d p = true <->
  occurs_on_week m week = true /\ d = weekday m /\ start_period m <= p <= end_period m.
Proof.
  unfold occurs_on. rewrite !andb_true_iff, Z.eqb_eq, !Z.leb_le. intuition congruence.
Qed.

Lemma elem_of_cell_entries {F : Type} (self : @CourseUI F) (week : Z) (ids : list uid_t)
    (p d : Z) (x : str) :
  x ∈ cell_entries self week ids p d <->
  exists id c m, id ∈ ids /\ ui_by_uid self !! id = Some c /\ m ∈ meetings c
                 /\ occurs_on m week d p = true /\ x = cell_entry c m.
Proof.
  unfold cell_entries, meeting_entries. rewrite list_elem_of_In, in_flat_map. split.
  - intros (id & Hid & Hx). destruct (ui_by_uid self !! id) as [c|] eqn:Hc; [|destruct Hx].
    apply in_flat_map in Hx as (m & Hm & Hx).
    destruct (occurs_on m week d p) eqn:Ho; [|destruct Hx].
    destruct Hx as [<- | []]. exists id, c, m.
    apply list_elem_of_In in Hid. apply list_elem_of_In in Hm. auto.
  - intros (id & c & m & Hid & Hc & Hm & Ho & ->). exists id.
    rewrite <- list_elem_of_In. split; [exact Hid|]. rewrite Hc.
    apply in_flat_map. exists m. rewrite <- list_elem_of_In. split; [exact Hm|].
    rewrite Ho. left. reflexivity.
Qed.

Lemma on_grid_body (p d : Z) :
  on_grid (p, d) -> (p ∈ range 1 13 /\ d ∈ range 1 8 <-> 1 <= p /\ 1 <= d).
Proof. unfold on_grid. cbn [fst snd]. rewrite !elem_of_range. lia. Qed.

Lemma body_on_grid (p d : Z) : p ∈ range 1 13 -> d ∈ range 1 8 -> on_grid (p, d).
Proof. unfold on_grid. cbn [fst snd]. rewrite !elem_of_range. lia. Qed.

Section TimetableTheorems.
Context {F : Type}.
Context (fsum : list F -> F) (ftruthy : F -> bool) (fzero : F).
Context (fmt_g : F -> str) (hash : str -> Z).
Context (iter_uids : gset uid_t -> list uid_t).
Hypothesis iter_uids_perm : forall X, iter_uids X ≡ₚ elements X.

Implicit Types (self : @CourseUI F) (tt : Timetable).

Lemma update_credit_status_ret self tt :
  (forall id, id ∈ selected self -> is_Some (ui_by_uid self !! id)) ->
  exists status,
    _update_credit_status fsum ftruthy fzero fmt_g iter_uids self tt
    = Ret (mkTimetable (week_var tt) (week_label tt) (grid_cells tt) status).
Proof.
  intros Hk. unfold _update_credit_status, _current_total_credits.
  destruct (mapM_credits_total ftruthy fzero self (iter_uids (selected self))) as [cs ->].
  { intros id Hid. apply Hk. apply (iter_uids_elem iter_uids iter_uids_perm), Hid. }
  cbn [bind]. eauto.
Qed.

(** The refresh, step by step: on a full grid, with the selected uids
    known and their meetings of the week on the grid. *)
Lemma refresh_timetable_spec self tt :
  (forall k, is_Some (grid_cells tt !! k) <-> on_grid k) ->
  (forall id, id ∈ selected self -> is_Some (ui_by_uid self !! id)) ->
  (forall id c m p, id ∈ selected self -> ui_by_uid self !! id = Some c -> m ∈ meetings c ->
     occurs_on m (week_var tt) (weekday m) p = true -> on_grid (p, weekday m)) ->
  exists tt',
    _refresh_timetable fsum ftruthy fzero fmt_g hash iter_uids self tt = Ret tt'
    /\ week_var tt' = week_var tt
    /\ (forall k, is_Some (grid_cells tt' !! k) <-> on_grid k)
    /\ forall p d, on_grid (p, d) ->
         let lines := cell_entries self (week_var tt) (iter_uids (selected self)) p d in
         grid_cells tt' !! (p, d)
         = if decide (lines = []) then
             if decide (1 <= p /\ 1 <= d) then Some (mkLabel [] WHITE)
             else grid_cells tt !! (p, d)
           else Some (cell_label hash lines).
Proof.
  intros Hgrid Hk Hfit. unfold _refresh_timetable. cbv zeta.
  assert (Hk' : forall id, id ∈ iter_uids (selected self) -> is_Some (ui_by_uid self !! id)).
  { intros id Hid. apply Hk. apply (iter_uids_elem iter_uids iter_uids_perm), Hid. }
  destruct (clear_rows (range 1 13) (range 1 8) (grid_cells tt)) as (cells1 & Hc1 & Hl1).
  { intros p d Hp Hd. apply Hgrid, body_on_grid; assumption. }
  unfold clear_cells. rewrite Hc1. cbn [bind].
  destruct (collect_grid_text_spec self (week_var tt) (iter_uids (selected self)) Hk')
    as (g & Hg & Hwf & Ht).
  rewrite Hg. cbn [bind].
  assert (Hdom1 : forall k, is_Some (cells1 !! k) <-> on_grid k).
  { intros k. rewrite Hl1. destruct (decide _) as [[Hp Hd]|_]; [|apply Hgrid].
    split; [intros _ | eauto]. destruct k as [p d]. apply body_on_grid; assumption. }
  destruct (paint_spec hash g Hwf cells1) as (cells2 & Hp2 & Hl2).
  { intros [p d] Hin. apply Hdom1.
    pose proof (texts_present g (p, d) (proj2 Hwf) Hin) as Hne. rewrite Ht in Hne.
    destruct (cell_entries self (week_var tt) (iter_uids (selected self)) p d) as [|x l] eqn:E;
      [contradiction|].
    assert (Hx : x ∈ cell_entries self (week_var tt) (iter_uids (selected self)) p d)
      by (rewrite E; left).
    apply elem_of_cell_entries in Hx as (id & c & m & Hid & Hc & Hm & Ho & _).
    pose proof Ho as Ho'. apply occurs_on_true in Ho' as (_ & -> & _).
    eapply Hfit; [|exact Hc|exact Hm|exact Ho].
    apply (iter_uids_elem iter_uids iter_uids_perm), Hid. }
  rewrite Hp2. cbn [bind].
  destruct (update_credit_status_ret self
              (mkTimetable (week_var tt)
                 (u "第 " ++ str_of_int (week_var tt) ++ u " 周（1~16 可切换）")
                 cells2 (credit_status tt)) Hk) as [status Hst].
  rewrite Hst. cbn [week_var week_label grid_cells].
  eexists. split; [reflexivity|]. cbn [week_var grid_cells]. split; [reflexivity|].
  assert (Hdom2 : forall k, is_Some (cells2 !! k) <-> on_grid k).
  { intros k. rewrite Hl2. destruct (decide (texts g k = [])) as [_|Hne]; [apply Hdom1|].
    split; [intros _ | eauto]. destruct k as [p d]. rewrite Ht in Hne.
    destruct (cell_entries self (week_var tt) (iter_uids (selected self)) p d) as [|x l] eqn:E;
      [contradiction|].
    assert (Hx : x ∈ cell_entries self (week_var tt) (iter_uids (selected self)) p d)
      by (rewrite E; left).
    apply elem_of_cell_entries in Hx as (id & c & m & Hid & Hc & Hm & Ho & _).
    pose proof Ho as Ho'. apply occurs_on_true in Ho' as (_ & -> & _).
    eapply Hfit; [|exact Hc|exact Hm|exact Ho].
    apply (iter_uids_elem iter_uids iter_uids_perm), Hid. }
  split; [exact Hdom2|].
  intros p d Hpd. cbv zeta. rewrite Hl2, Ht.
  destruct (decide (cell_entries _ _ _ p d = [])) as [_|_]; [|reflexivity].
  rewrite Hl1. cbn [fst snd].
  pose proof (on_grid_body p d Hpd) as Hb.
  destruct (decide (p ∈ range 1 13 /\ d ∈ range 1 8)), (decide (1 <= p /\ 1 <= d));
    tauto.
Qed.

End TimetableTheorems.

Lemma join_nil (sep : str) (lines : list str) :
  Forall (fun x => x <> []) lines -> join sep lines = [] -> lines = [].
Proof.
  destruct lines as [|x l]; [reflexivity|]. intros Hne. apply Forall_cons in Hne as [Hx _].
  cbn [join]. destruct l; intros E; [contradiction|].
  apply app_eq_nil in E as [E _]. contradiction.
Qed.

Lemma cell_entry_nonempty {F : Type} (c : Course F) (m : Meeting) : cell_entry c m <> [].
Proof.
  unfold cell_entry. intros E. apply app_eq_nil in E as [_ E]. discriminate E.
Qed.

Lemma flat_map_single {A B : Type} (f : A -> list B) (l : list A) (a : A) :
  (forall x, x ∈ l -> x <> a -> f x = []) -> NoDup l -> a ∈ l -> flat_map f l = f a.
Proof.
  induction l as [|x l IH]; intros Hf Hnd Ha; [inversion Ha|].
  apply NoDup_cons in Hnd as [Hx Hnd]. cbn [flat_map].
  assert (Hnil : forall l', (forall y, y ∈ l' -> f y = []) -> flat_map f l' = []).
  { induction l' as [|y l' IH']; intros H; [reflexivity|]. cbn [flat_map].
    rewrite (H y) by left. apply IH'. intros z Hz. apply H. right. exact Hz. }
  apply elem_of_cons in Ha as [<- | Ha].
  - rewrite Hnil; [apply app_nil_r|]. intros y Hy. apply Hf; [right; exact Hy|].
    intros ->. contradiction.
  - rewrite (Hf x) by (try left; intros ->; contradiction). cbn [app].
    apply IH; [|exact Hnd|exact Ha]. intros y Hy. apply Hf. right. exact Hy.
Qed.

Lemma grid_keys_elem (k : Z * Z) :
  k ∈ dom _build_timetable_grid <-> on_grid k.
Proof.
  assert (Hdom : dom _build_timetable_grid
                 = list_to_set (p ← range 0 13; d ← range 0 8; [(p, d)])).
  { vm_compute. reflexivity. }
  rewrite Hdom, elem_of_list_to_set, list_elem_of_bind. unfold on_grid. split.
  - intros (p & Hk & Hp). apply list_elem_of_bind in Hk as (d & Hk & Hd).
    apply list_elem_of_singleton in Hk. subst k. cbn [fst snd].
    apply elem_of_range in Hp, Hd. lia.
  - intros [Hp Hd]. destruct k as [p d]. cbn [fst snd] in Hp, Hd. exists p.
    split; [|apply elem_of_range; lia]. apply list_elem_of_bind. exists d.
    split; [left | apply elem_of_range; lia].
Qed.

Lemma build_grid_keys (k : Z * Z) : is_Some (_build_timetable_grid !! k) <-> on_grid k.
Proof. rewrite <- elem_of_dom. apply grid_keys_elem. Qed.

Section TimetableTheorems2.
Context {F : Type}.
Context (fsum : list F -> F) (ftruthy : F -> bool) (fzero : F).
Context (fmt_g : F -> str) (hash : str -> Z).
Context (iter_uids : gset uid_t -> list uid_t).
Hypothesis iter_uids_perm : forall X, iter_uids X ≡ₚ elements X.

Implicit Types (self : @CourseUI F) (tt : Timetable).

Lemma cell_entries_nonempty self (week : Z) (ids : list uid_t) (p d : Z) :
  Forall (fun x => x <> []) (cell_entries self week ids p d).
Proof.
  apply Forall_forall. intros x Hx.
  apply elem_of_cell_entries in Hx as (_ & c & m & _ & _ & _ & _ & ->).
  apply cell_entry_nonempty.
Qed.

Lemma cell_entries_occupied self (week p d : Z) :
  1 <= week <= 16 ->
  (forall id, id ∈ selected self -> is_Some (ui_by_uid self !! id)) ->
  cell_entries self week (iter_uids (selected self)) p d = [] <->
  forall id, id ∈ selected self -> (week, d, p) ∉ cells_of self id.
Proof.
  intros Hw Hk. split.
  - intros Hnil id Hid Hocc. destruct (Hk id Hid) as [c Hc].
    destruct (occ_cache_lookup self id c Hc) as [_ Hcells]. rewrite Hcells in Hocc.
    apply elem_of_occupied_cells in Hocc as (_ & m & Hm & Ho & Hd & Hp).
    assert (Hx : cell_entry c m ∈ cell_entries self week (iter_uids (selected self)) p d).
    { apply elem_of_cell_entries. exists id, c, m.
      split; [apply (iter_uids_elem iter_uids iter_uids_perm), Hid|].
      split; [exact Hc|]. split; [exact Hm|]. split; [|reflexivity].
      apply occurs_on_true. auto. }
    rewrite Hnil in Hx. inversion Hx.
  - intros Hfree.
    destruct (cell_entries self week (iter_uids (selected self)) p d) as [|x l] eqn:E;
      [reflexivity|]. exfalso.
    assert (Hx : x ∈ cell_entries self week (iter_uids (selected self)) p d)
      by (rewrite E; left).
    apply elem_of_cell_entries in Hx as (id & c & m & Hid & Hc & Hm & Ho & _).
    apply (iter_uids_elem iter_uids iter_uids_perm) in Hid.
    apply (Hfree id Hid). destruct (occ_cache_lookup self id c Hc) as [_ ->].
    apply elem_of_occupied_cells. split; [exact Hw|]. exists m. split; [exact Hm|].
    apply occurs_on_true in Ho. exact Ho.
Qed.

(** After a refresh every cell of the timetable body shows, joined by
    the separator line, the entries of the selected courses' meetings that
    occur on its day and period in the week shown; a cell without such a
    meeting is blank and white, and the grid keeps its cells. *)
Theorem timetable_shows_selected_meetings self tt :
  (forall k, is_Some (grid_cells tt !! k) <-> on_grid k) ->
  (forall id, id ∈ selected self -> is_Some (ui_by_uid self !! id)) ->
  (forall id c m p, id ∈ selected self -> ui_by_uid self !! id = Some c -> m ∈ meetings c ->
     occurs_on m (week_var tt) (weekday m) p = true -> on_grid (p, weekday m)) ->
  exists tt',
    _refresh_timetable fsum ftruthy fzero fmt_g hash iter_uids self tt = Ret tt'
    /\ week_var tt' = week_var tt
    /\ (forall k, is_Some (grid_cells tt' !! k) <-> on_grid k)
    /\ forall p d, 1 <= p <= 12 -> 1 <= d <= 7 ->
         let lines := cell_entries self (week_var tt) (iter_uids (selected self)) p d in
         exists lb,
           grid_cells tt' !! (p, d) = Some lb
           /\ label_text lb = join ENTRY_SEP lines
           /\ label_background lb
              = if decide (lines = []) then WHITE else color_for hash (first_name lines).
Proof.
  intros Hgrid Hk Hfit.
  destruct (refresh_timetable_spec fsum ftruthy fzero fmt_g hash iter_uids iter_uids_perm
              self tt Hgrid Hk Hfit) as (tt' & Hr & Hw & Hdom & Hcells).
  exists tt'. split; [exact Hr|]. split; [exact Hw|]. split; [exact Hdom|].
  intros p d Hp Hd. cbv zeta.
  rewrite (Hcells p d) by (unfold on_grid; cbn [fst snd]; lia). cbv zeta.
  destruct (decide (cell_entries _ _ _ p d = [])) as [E|_].
  - rewrite E. destruct (decide (1 <= p /\ 1 <= d)) as [_|Hn]; [|lia].
    eexists. split; [reflexivity|]. split; reflexivity.
  - eexists. split; [reflexivity|]. split; reflexivity.
Qed.

(** In the weeks 1 to 16 the timetable agrees with the occupancy the
    conflict check uses: after a refresh a cell of the body is blank
    exactly when no selected course occupies its day and period in the
    week shown. *)
Theorem timetable_blank_iff_unoccupied self tt (p d : Z) :
  (forall k, is_Some (grid_cells tt !! k) <-> on_grid k) ->
  (forall id, id ∈ selected self -> is_Some (ui_by_uid self !! id)) ->
  (forall id c m p, id ∈ selected self -> ui_by_uid self !! id = Some c -> m ∈ meetings c ->
     occurs_on m (week_var tt) (weekday m) p = true -> on_grid (p, weekday m)) ->
  1 <= week_var tt <= 16 -> 1 <= p <= 12 -> 1 <= d <= 7 ->
  exists tt' lb,
    _refresh_timetable fsum ftruthy fzero fmt_g hash iter_uids self tt = Ret tt'
    /\ grid_cells tt' !! (p, d) = Some lb
    /\ (label_text lb = [] <->
        forall id, id ∈ selected self -> (week_var tt, d, p) ∉ cells_of self id).
Proof.
  intros Hgrid Hk Hfit Hw Hp Hd.
  destruct (refresh_timetable_spec fsum ftruthy fzero fmt_g hash iter_uids iter_uids_perm
              self tt Hgrid Hk Hfit) as (tt' & Hr & _ & _ & Hcells).
  exists tt'. specialize (Hcells p d). cbv zeta in Hcells.
  rewrite Hcells by (unfold on_grid; cbn [fst snd]; lia).
  pose proof (cell_entries_occupied self (week_var tt) p d Hw Hk) as Hocc.
  destruct (decide (cell_entries _ _ _ p d = [])) as [E|Hne].
  - destruct (decide (1 <= p /\ 1 <= d)) as [_|Hn]; [|lia].
    eexists. split; [exact Hr|]. split; [reflexivity|]. cbn [label_text].
    split; [intros _; apply Hocc, E | reflexivity].
  - eexists. split; [exact Hr|]. split; [reflexivity|]. cbn [label_text cell_label].
    split; [|intros Hfree; exfalso; apply Hne, Hocc, Hfree]. intros E. exfalso. apply Hne.
    eapply join_nil; [apply cell_entries_nonempty | exact E].
Qed.

(** With a selection free of conflicts no cell of the timetable mixes
    courses: in the weeks 1 to 16 a cell is blank or shows the entries of
    one selected course only. *)
Theorem conflict_free_cell_shows_one_course self tt (p d : Z) :
  (forall k, is_Some (grid_cells tt !! k) <-> on_grid k) ->
  (forall id, id ∈ selected self -> is_Some (ui_by_uid self !! id)) ->
  (forall id c m p, id ∈ selected self -> ui_by_uid self !! id = Some c -> m ∈ meetings c ->
     occurs_on m (week_var tt) (weekday m) p = true -> on_grid (p, weekday m)) ->
  conflict_free self ->
  1 <= week_var tt <= 16 -> 1 <= p <= 12 -> 1 <= d <= 7 ->
  exists tt' lb,
    _refresh_timetable fsum ftruthy fzero fmt_g hash iter_uids self tt = Ret tt'
    /\ grid_cells tt' !! (p, d) = Some lb
    /\ (label_text lb = []
        \/ exists id c, id ∈ selected self /\ ui_by_uid self !! id = Some c
                        /\ label_text lb
                           = join ENTRY_SEP (meeting_entries (week_var tt) p d c)).
Proof.
  intros Hgrid Hk Hfit Hcf Hw Hp Hd.
  destruct (refresh_timetable_spec fsum ftruthy fzero fmt_g hash iter_uids iter_uids_perm
              self tt Hgrid Hk Hfit) as (tt' & Hr & _ & _ & Hcells).
  exists tt'. specialize (Hcells p d). cbv zeta in Hcells.
  rewrite Hcells by (unfold on_grid; cbn [fst snd]; lia).
  destruct (decide (cell_entries _ _ _ p d = [])) as [E|Hne].
  - destruct (decide (1 <= p /\ 1 <= d)) as [_|Hn]; [|lia].
    eexists. split; [exact Hr|]. split; [reflexivity|]. left. reflexivity.
  - eexists. split; [exact Hr|]. split; [reflexivity|]. right. cbn [label_text cell_label].
    destruct (cell_entries self (week_var tt) (iter_uids (selected self)) p d) as [|x l] eqn:E;
      [contradiction|].
    assert (Hx : x ∈ cell_entries self (week_var tt) (iter_uids (selected self)) p d)
      by (rewrite E; left).
    apply elem_of_cell_entries in Hx as (id & c & m & Hid & Hc & Hm & Ho & _).
    pose proof Hid as Hsel. apply (iter_uids_elem iter_uids iter_uids_perm) in Hsel.
    exists id, c. split; [exact Hsel|]. split; [exact Hc|]. rewrite <- E. f_equal.
    unfold cell_entries.
    rewrite (flat_map_single _ (iter_uids (selected self)) id); [rewrite Hc; reflexivity | |
      rewrite iter_uids_perm; apply NoDup_elements | exact Hid].
    intros id' Hid' Hne'. apply (iter_uids_elem iter_uids iter_uids_perm) in Hid'.
    destruct (ui_by_uid self !! id') as [c'|] eqn:Hc'; [|reflexivity].
    unfold meeting_entries.
    destruct (flat_map _ (meetings c')) as [|y l'] eqn:E'; [reflexivity|]. exfalso.
    assert (Hy : In y (flat_map (fun m => if occurs_on m (week_var tt) d p
                                          then [cell_entry c' m] else []) (meetings c')))
      by (rewrite E'; left; reflexivity).
    apply in_flat_map in Hy as (m' & Hm' & Hy). apply list_elem_of_In in Hm'.
    destruct (occurs_on m' (week_var tt) d p) eqn:Ho'; [|destruct Hy].
    apply (Hcf id' id Hid' Hsel Hne' (week_var tt, d, p)).
    + destruct (occ_cache_lookup self id' c' Hc') as [_ ->].
      apply elem_of_occupied_cells. split; [exact Hw|]. exists m'. split; [exact Hm'|].
      apply occurs_on_true in Ho'. exact Ho'.
    + destruct (occ_cache_lookup self id c Hc) as [_ ->].
      apply elem_of_occupied_cells. split; [exact Hw|]. exists m. split; [exact Hm|].
      apply occurs_on_true in Ho. exact Ho.
Qed.

(** A meeting of a selected course that occurs in the week shown with a
    period or weekday outside the grid makes the refresh raise: the cell
    it should be written to does not exist. *)
Theorem refresh_raises_off_grid self tt (id : uid_t) (c : Course F) (m : Meeting) (p : Z) :
  (forall k, is_Some (grid_cells tt !! k) <-> on_grid k) ->
  (forall id, id ∈ selected self -> is_Some (ui_by_uid self !! id)) ->
  id ∈ selected self -> ui_by_uid self !! id = Some c -> m ∈ meetings c ->
  occurs_on m (week_var tt) (weekday m) p = true ->
  ~ on_grid (p, weekday m) ->
  _refresh_timetable fsum ftruthy fzero fmt_g hash iter_uids self tt = Raise KeyError.
Proof.
  intros Hgrid Hk Hid Hc Hm Ho Hoff. unfold _refresh_timetable. cbv zeta.
  assert (Hk' : forall id, id ∈ iter_uids (selected self) -> is_Some (ui_by_uid self !! id)).
  { intros id' Hid'. apply Hk. apply (iter_uids_elem iter_uids iter_uids_perm), Hid'. }
  destruct (clear_rows (range 1 13) (range 1 8) (grid_cells tt)) as (cells1 & Hc1 & Hl1).
  { intros p' d' Hp' Hd'. apply Hgrid, body_on_grid; assumption. }
  unfold clear_cells. rewrite Hc1. cbn [bind].
  destruct (collect_grid_text_spec self (week_var tt) (iter_uids (selected self)) Hk')
    as (g & Hg & Hwf & Ht).
  rewrite Hg. cbn [bind]. rewrite (paint_raise hash g cells1); [reflexivity|].
  exists (p, weekday m). split.
  - destruct (decide ((p, weekday m) ∈ g.*1)) as [Hin|Hout]; [exact Hin|]. exfalso.
    apply texts_absent in Hout. rewrite Ht in Hout.
    assert (Hx : cell_entry c m
                 ∈ cell_entries self (week_var tt) (iter_uids (selected self)) p (weekday m)).
    { apply elem_of_cell_entries. exists id, c, m.
      split; [apply (iter_uids_elem iter_uids iter_uids_perm), Hid|]. auto. }
    rewrite Hout in Hx. inversion Hx.
  - rewrite Hl1. cbn [fst snd].
    destruct (decide (p ∈ range 1 13 /\ weekday m ∈ range 1 8)) as [[Hp Hd]|_].
    + exfalso. apply Hoff, body_on_grid; assumption.
    + destruct (grid_cells tt !! (p, weekday m)) as [lb|] eqn:E; [|reflexivity].
      exfalso. apply Hoff, Hgrid. rewrite E. eauto.
Qed.

End TimetableTheorems2.

Lemma int_of_str_nonneg (w : str) (n : Z) : int_of_str w = Ret n -> 0 <= n.
Proof.
  unfold int_of_str. destruct w as [|c w]; [discriminate|].
  destruct (forallb is_digit (c :: w)) eqn:Hd; [|discriminate]. intros [= <-].
  assert (H : forall (l : str) (acc : Z),
             forallb is_digit l = true -> 0 <= acc ->
             0 <= fold_left (fun acc c => 10 * acc + digit_val c) l acc).
  { induction l as [|x l IH]; intros acc Hl Hacc; cbn [fold_left]; [exact Hacc|].
    cbn [forallb] in Hl. apply andb_true_iff in Hl as [Hx Hl]. apply IH; [exact Hl|].
    unfold is_digit in Hx. apply andb_true_iff in Hx as [H1 H2].
    apply Z.leb_le in H1, H2. unfold digit_val. lia. }
  apply (H (c :: w) 0); [exact Hd | lia].
Qed.

Lemma int_group_nonneg (o : option str) (n : Z) : int_group o = Ret n -> 0 <= n.
Proof. destruct o as [w|]; [apply int_of_str_nonneg | discriminate]. Qed.

Lemma parsed_meeting_on_days (line : str) (m : Meeting) :
  parse_meeting_line line = Ret (Some m) ->
  1 <= weekday m <= 7 /\ 0 <= start_period m <= end_period m.
Proof.
  unfold parse_meeting_line.
  destruct (negb (nonempty (strip line)) || _is_exam_line (strip line)); [discriminate|].
  destruct (re_match MEETING_PERIOD_RE _) as [g|] eqn:Hp.
  - intros H. do 2 exc_step.
    destruct (WEEKDAY_MAP_get (group g "wd")) as [wd|] eqn:Hwd; [|discriminate H].
    do 2 exc_step. rename a1 into ps, a2 into pe.
    apply weekday_map_range in Hwd.
    apply int_group_nonneg in E1, E2.
    destruct (ps >? pe) eqn:Hgt; injection H as <-; cbn [weekday start_period end_period];
      (rewrite Z.gtb_ltb in Hgt;
       [apply Z.ltb_lt in Hgt || apply Z.ltb_ge in Hgt]); lia.
  - destruct (re_match MEETING_CLOCK_RE _) as [g|]; [|discriminate].
    intros H. do 2 exc_step.
    destruct (WEEKDAY_MAP_get (group g "wd")) as [wd|] eqn:Hwd; [|discriminate H].
    do 2 exc_step.
    apply weekday_map_range in Hwd.
    destruct (_clock_to_periods _ _ _) as [[p1 p2]|] eqn:Hpp; [|discriminate H].
    apply clock_to_periods_range in Hpp.
    injection H as <-. cbn [weekday start_period end_period].
    destruct Hpp as [[= -> ->] | [= -> ->]]; lia.
Qed.

Section LoadedCourses.
Context {F : Type} (float_of_str : str -> option F) (fzero : F).

Lemma parse_course_row_meetings (row : row_t) (c : Course F) (m : Meeting) :
  parse_course_row float_of_str fzero row = Ret c -> m ∈ meetings c ->
  exists ln, parse_meeting_line ln = Ret (Some m).
Proof.
  unfold parse_course_row.
  rewrite (row_loop_contrib _ (info_lines_stripped _)). cbn [bind]. intros [= <-].
  cbn [meetings acc_meetings app]. intros Hm.
  apply list_elem_of_omap in Hm as (ln & _ & Hln). exists ln.
  unfold line_meeting in Hln. destruct (_is_exam_line ln); [discriminate|].
  destruct (parse_meeting_line ln) as [[m'|]|]; try discriminate.
  injection Hln as ->. reflexivity.
Qed.

Lemma loaded_course_parsed (rows : list row_t) (c : Course F) :
  c ∈ courses (parse_rows float_of_str fzero rows) ->
  exists row, row ∈ rows /\ parse_course_row float_of_str fzero row = Ret c.
Proof.
  unfold parse_rows.
  destruct (load_loop_rows float_of_str fzero rows
              (mkResult [] ∅ ∅ [] [] [] [] (length rows)) 2) as (cs & Hall & -> & _).
  cbn [courses app]. intros Hc.
  apply list_elem_of_lookup in Hc as [i Hi].
  destruct (Forall2_lookup_r _ _ _ _ _ Hall Hi) as (row & Hrow & Hp).
  exists row. split; [|exact Hp]. eapply list_elem_of_lookup_2, Hrow.
Qed.

Lemma by_uid_in_courses (rows : list row_t) (id : uid_t) (c : Course F) :
  by_uid (parse_rows float_of_str fzero rows) !! id = Some c ->
  c ∈ courses (parse_rows float_of_str fzero rows) /\ uid c = id.
Proof.
  destruct (load_inv_parse_rows float_of_str fzero rows) as (Hu & _).
  rewrite Hu. intros Hl. apply last_Some in Hl as [l Hl].
  assert (Hin : c ∈ filter (fun c => uid c = id) (courses (parse_rows float_of_str fzero rows))).
  { rewrite Hl. apply elem_of_app. right. left. }
  apply list_elem_of_filter in Hin as [Hid Hin]. auto.
Qed.

(** The meetings of the courses loaded from a file have a weekday from 1
    to 7 and periods [0 <= start_period <= end_period], in the list of
    courses and in the index by uid alike. *)
Lemma loaded_meeting_bounds (rows : list row_t) (c : Course F) (m : Meeting) :
  c ∈ courses (parse_rows float_of_str fzero rows) -> m ∈ meetings c ->
  1 <= weekday m <= 7 /\ 0 <= start_period m <= end_period m.
Proof.
  intros Hc Hm. apply loaded_course_parsed in Hc as (row & _ & Hrow).
  destruct (parse_course_row_meetings row c m Hrow Hm) as [ln Hln].
  exact (parsed_meeting_on_days ln m Hln).
Qed.

End LoadedCourses.

Section TimetableTheorems3.
Context {F : Type}.
Context (float_of_str : str -> option F).
Context (fsum : list F -> F) (ftruthy : F -> bool) (fzero : F).
Context (fmt_g : F -> str) (hash : str -> Z).
Context (iter_uids : gset uid_t -> list uid_t).
Hypothesis iter_uids_perm : forall X, iter_uids X ≡ₚ elements X.

Implicit Types (self : @CourseUI F) (tt : Timetable).

(** The timetable of courses loaded from a file: with every selected
    course's periods up to 12 the refresh succeeds in any week, the parser
    seeing to the weekdays and to the lower bound of the periods. *)
Theorem loaded_timetable_refreshes (rows : list row_t) self tt :
  ui_by_uid self = by_uid (parse_rows float_of_str fzero rows) ->
  (forall k, is_Some (grid_cells tt !! k) <-> on_grid k) ->
  (forall id, id ∈ selected self -> is_Some (ui_by_uid self !! id)) ->
  (forall id c m, id ∈ selected self -> ui_by_uid self !! id = Some c -> m ∈ meetings c ->
     end_period m <= 12) ->
  exists tt',
    _refresh_timetable fsum ftruthy fzero fmt_g hash iter_uids self tt = Ret tt'
    /\ week_var tt' = week_var tt
    /\ forall k, is_Some (grid_cells tt' !! k) <-> on_grid k.
Proof.
  intros Hload Hgrid Hk Hlate.
  destruct (refresh_timetable_spec fsum ftruthy fzero fmt_g hash iter_uids iter_uids_perm
              self tt Hgrid Hk) as (tt' & Hr & Hw & Hdom & _).
  { intros id c m p Hid Hc Hm Ho. pose proof (Hlate id c m Hid Hc Hm) as Hend.
    rewrite Hload in Hc. apply by_uid_in_courses in Hc as [Hc _].
    destruct (loaded_meeting_bounds float_of_str fzero rows c m Hc Hm) as [Hwd Hper].
    apply occurs_on_true in Ho as (_ & _ & Hp). unfold on_grid. cbn [fst snd]. lia. }
  exists tt'. auto.
Qed.

(** The week shown stays within 1 to 16 however the two week buttons are
    pressed: each press succeeds, a press at the end of the range changes
    nothing, and any other moves the week by one. *)
Theorem week_navigation_stays_in_range self tt (bs : list week_button) :
  (forall k, is_Some (grid_cells tt !! k) <-> on_grid k) ->
  (forall id, id ∈ selected self -> is_Some (ui_by_uid self !! id)) ->
  (forall id c m p, id ∈ selected self -> ui_by_uid self !! id = Some c -> m ∈ meetings c ->
     start_period m <= p <= end_period m -> on_grid (p, weekday m)) ->
  1 <= week_var tt <= 16 ->
  exists tt',
    foldM (press fsum ftruthy fzero fmt_g hash iter_uids self) tt bs = Ret tt'
    /\ 1 <= week_var tt' <= 16
    /\ week_var tt'
       = foldl (fun w b => match b with
                           | PrevWeek => Z.max 1 (w - 1)
                           | NextWeek => Z.min 16 (w + 1)
                           end) (week_var tt) bs.
Proof.
  intros Hgrid Hk Hfit. revert tt Hgrid.
  assert (Hfit' : forall tt0 id c m p,
             id ∈ selected self -> ui_by_uid self !! id = Some c -> m ∈ meetings c ->
             occurs_on m (week_var tt0) (weekday m) p = true -> on_grid (p, weekday m)).
  { intros tt0 id c m p Hid Hc Hm Ho. apply occurs_on_true in Ho as (_ & _ & Hp). eauto. }
  induction bs as [|b bs IH]; intros tt Hgrid Hw; cbn [foldM foldl].
  - exists tt. auto.
  - assert (Hstep : exists tt1,
               press fsum ftruthy fzero fmt_g hash iter_uids self tt b = Ret tt1
               /\ (forall k, is_Some (grid_cells tt1 !! k) <-> on_grid k)
               /\ week_var tt1 = match b with
                                 | PrevWeek => Z.max 1 (week_var tt - 1)
                                 | NextWeek => Z.min 16 (week_var tt + 1)
                                 end).
    { destruct b; cbn [press]; unfold _prev_week, _next_week, WEEK_MIN, WEEK_MAX; cbv zeta.
      - destruct (week_var tt >? 1) eqn:Hgt.
        + apply Z.gtb_lt in Hgt.
          destruct (refresh_timetable_spec fsum ftruthy fzero fmt_g hash iter_uids
                      iter_uids_perm self
                      (mkTimetable (week_var tt - 1) (week_label tt) (grid_cells tt)
                                   (credit_status tt)) Hgrid Hk (Hfit' _))
            as (tt1 & Hr & Hw1 & Hdom & _).
          exists tt1. split; [exact Hr|]. split; [exact Hdom|].
          rewrite Hw1. cbn [week_var]. lia.
        + rewrite Z.gtb_ltb in Hgt. apply Z.ltb_ge in Hgt.
          exists tt. split; [reflexivity|]. split; [exact Hgrid|]. lia.
      - destruct (week_var tt <? 16) eqn:Hlt.
        + apply Z.ltb_lt in Hlt.
          destruct (refresh_timetable_spec fsum ftruthy fzero fmt_g hash iter_uids
                      iter_uids_perm self
                      (mkTimetable (week_var tt + 1) (week_label tt) (grid_cells tt)
                                   (credit_status tt)) Hgrid Hk (Hfit' _))
            as (tt1 & Hr & Hw1 & Hdom & _).
          exists tt1. split; [exact Hr|]. split; [exact Hdom|].
          rewrite Hw1. cbn [week_var]. lia.
        + apply Z.ltb_ge in Hlt.
          exists tt. split; [reflexivity|]. split; [exact Hgrid|]. lia. }
    destruct Hstep as (tt1 & Hr & Hdom & Hw1). rewrite Hr. cbn [bind].
    destruct (IH tt1 Hdom) as (tt' & Hr' & Hw' & Hfold); [destruct b; lia|].
    exists tt'. split; [exact Hr'|]. split; [exact Hw'|]. rewrite Hfold, Hw1.
    reflexivity.
Qed.

End TimetableTheorems3.

(** The labels the interface prints for the weekdays 1 to 7 read back: each
    is the character for week followed by a key that the parser's
    weekday table maps to the same weekday. *)
Theorem weekday_label_reads_back (d : Z) :
  1 <= d <= 7 ->
  exists w, weekday_to_label d = u "周" ++ w /\ WEEKDAY_MAP_get (Some w) = Some d.
Proof.
  intros Hd.
  assert (H : d = 1 \/ d = 2 \/ d = 3 \/ d = 4 \/ d = 5 \/ d = 6 \/ d = 7) by lia.
  destruct H as [-> | [-> | [-> | [-> | [-> | [-> | ->]]]]]];
    eexists; split; vm_compute; reflexivity.
Qed.

Lemma str_eqb_eq (a b : str) : str_eqb a b = true <-> a = b.
Proof.
  revert b. induction a as [|x a IH]; intros [|y b]; cbn [str_eqb];
    try (split; [discriminate | intros [=]]); [tauto|].
  rewrite andb_true_iff, Z.eqb_eq, IH. split; [intros [-> ->]; reflexivity | intros [= -> ->]; auto].
Qed.

Lemma str_ltb_asym (a b : str) : str_ltb a b = true -> str_ltb b a = false.
Proof.
  revert b. induction a as [|x a IH]; intros [|y b]; cbn [str_ltb]; try discriminate;
    try reflexivity.
  destruct (x =? y) eqn:E.
  - apply Z.eqb_eq in E. subst y. rewrite Z.eqb_refl. apply IH.
  - rewrite Z.eqb_sym, E. intros H. apply Z.ltb_lt in H. apply Z.ltb_ge. lia.
Qed.

Lemma str_eqb_sym (a b : str) : str_eqb a b = str_eqb b a.
Proof.
  destruct (str_eqb a b) eqn:E1, (str_eqb b a) eqn:E2; try reflexivity.
  - apply str_eqb_eq in E1. subst b. rewrite (proj2 (str_eqb_eq a a) eq_refl) in E2. discriminate.
  - apply str_eqb_eq in E2. subst b. rewrite (proj2 (str_eqb_eq a a) eq_refl) in E1. discriminate.
Qed.

Lemma key_ltb_asym (a b : str * str * str * str) : key_ltb a b = true -> key_ltb b a = false.
Proof.
  destruct a as [[[a1 a2] a3] a4], b as [[[b1 b2] b3] b4]. unfold key_ltb.
  rewrite (str_eqb_sym b1 a1), (str_eqb_sym b2 a2), (str_eqb_sym b3 a3).
  destruct (str_eqb a1 b1); cbn [negb]; [|apply str_ltb_asym].
  destruct (str_eqb a2 b2); cbn [negb]; [|apply str_ltb_asym].
  destruct (str_eqb a3 b3); cbn [negb]; apply str_ltb_asym.
Qed.

Lemma insert_sorted_perm {A : Type} (ltb : A -> A -> bool) (x : A) (l : list A) :
  insert_sorted ltb x l ≡ₚ x :: l.
Proof.
  induction l as [|y l IH]; cbn [insert_sorted]; [reflexivity|].
  destruct (ltb y x); [|reflexivity]. rewrite IH. apply perm_swap.
Qed.

Lemma list_sort_perm {A : Type} (ltb : A -> A -> bool) (l : list A) : list_sort ltb l ≡ₚ l.
Proof.
  induction l as [|x l IH]; cbn [list_sort foldr]; [reflexivity|].
  fold (list_sort ltb l). rewrite insert_sorted_perm, IH. reflexivity.
Qed.

Lemma insert_sorted_Sorted {A : Type} (ltb : A -> A -> bool) (x : A) (l : list A) :
  (forall a b, ltb a b = true -> ltb b a = false) ->
  Sorted (fun a b => ltb b a = false) l ->
  Sorted (fun a b => ltb b a = false) (insert_sorted ltb x l).
Proof.
  intros Hasym. induction l as [|y l IH]; intros Hs; cbn [insert_sorted].
  - repeat constructor.
  - apply Sorted_inv in Hs as [Hs Hhd]. destruct (ltb y x) eqn:E.
    + constructor; [exact (IH Hs)|].
      destruct l as [|z l]; cbn [insert_sorted].
      * constructor. apply Hasym, E.
      * destruct (ltb z x); constructor; [|apply Hasym, E].
        inversion Hhd; assumption.
    + constructor; [constructor; assumption|]. constructor. exact E.
Qed.

Lemma list_sort_Sorted {A : Type} (ltb : A -> A -> bool) (l : list A) :
  (forall a b, ltb a b = true -> ltb b a = false) ->
  Sorted (fun a b => ltb b a = false) (list_sort ltb l).
Proof.
  intros Hasym. induction l as [|x l IH]; cbn [list_sort foldr]; [constructor|].
  apply insert_sorted_Sorted; assumption.
Qed.

Lemma Sorted_fmap_elem {A B : Type} (f : A -> B) (R : B -> B -> Prop) (l : list A) :
  Sorted (fun a b => R (f a) (f b)) l -> Sorted R (f <$> l).
Proof.
  induction 1 as [|x l Hs IH Hhd]; cbn [fmap list_fmap]; constructor; [exact IH|].
  destruct Hhd; cbn [fmap list_fmap]; constructor; assumption.
Qed.

Lemma Sorted_weaken {A : Type} (R R' : A -> A -> Prop) (l : list A) :
  (forall a b, a ∈ l -> b ∈ l -> R a b -> R' a b) -> Sorted R l -> Sorted R' l.
Proof.
  intros Himp Hs. induction Hs as [|x l Hs IH Hhd]; constructor.
  - apply IH. intros a b Ha Hb. apply Himp; right; assumption.
  - destruct Hhd; constructor. apply Himp; [left | right; left | assumption].
Qed.

Section CourseListFacts.
Context {F : Type}.
Context (iter_items : gmap uid_t (Course F) -> list (uid_t * Course F)).
Context (iter_uids : gset uid_t -> list uid_t).
Hypothesis iter_items_perm : forall m, iter_items m ≡ₚ map_to_list m.
Hypothesis iter_uids_perm : forall X, iter_uids X ≡ₚ elements X.

Implicit Types (self : @CourseUI F).

Lemma sort_uids_spec self (uids : list uid_t) :
  (forall id, id ∈ uids -> is_Some (ui_by_uid self !! id)) ->
  exists l, sort_uids self uids = Ret l
            /\ l ≡ₚ uids
            /\ Sorted (fun a b => key_ltb (uid_key self b) (uid_key self a) = false) l.
Proof.
  intros Hk. unfold sort_uids.
  assert (Hm : mapM (fun id => c <- getitem (ui_by_uid self) id ;; Ret (sort_key c, id)) uids
               = Ret ((fun id => (uid_key self id, id)) <$> uids)).
  { induction uids as [|id uids IH]; cbn [mapM fmap list_fmap]; [reflexivity|].
    destruct (Hk id) as [c Hc]; [left|].
    rewrite IH by (intros id' H; apply Hk; right; exact H).
    unfold getitem, uid_key. rewrite Hc. reflexivity. }
  rewrite Hm. cbn [bind]. eexists. split; [reflexivity|].
  set (keyed := (fun id => (uid_key self id, id)) <$> uids).
  pose proof (list_sort_perm (fun a b : (str * str * str * str) * uid_t => key_ltb a.1 b.1) keyed)
    as Hperm.
  split.
  - rewrite Hperm. unfold keyed. clear. induction uids as [|id uids IH]; [reflexivity|].
    cbn [fmap list_fmap snd]. constructor. exact IH.
  - apply Sorted_fmap_elem.
    eapply Sorted_weaken;
      [|apply (list_sort_Sorted (fun a b : (str * str * str * str) * uid_t => key_ltb a.1 b.1));
        intros a b; apply key_ltb_asym].
    intros a b Ha Hb Hab. cbn beta in Hab.
    rewrite Hperm in Ha, Hb. unfold keyed in Ha, Hb.
    apply list_elem_of_fmap in Ha as (ia & -> & _).
    apply list_elem_of_fmap in Hb as (ib & -> & _). exact Hab.
Qed.

Lemma omap_NoDup_fst {A B : Type} (f : A * B -> option A) (l : list (A * B)) :
  (forall x y, f x = Some y -> y = x.1) -> NoDup l.*1 -> NoDup (omap f l).
Proof.
  intros Hf. induction l as [|x l IH]; cbn [fmap list_fmap omap list_omap]; intros Hnd;
    [constructor|].
  apply NoDup_cons in Hnd as [Hx Hnd]. destruct (f x) as [y|] eqn:E; [|exact (IH Hnd)].
  apply NoDup_cons. split; [|exact (IH Hnd)].
  intros Hin. apply list_elem_of_omap in Hin as (x' & Hx' & E').
  apply Hf in E, E'. apply Hx. rewrite <- E, E'. apply list_elem_of_fmap. eauto.
Qed.

Lemma unselected_candidates_spec self (dept_var : str) :
  let uids := omap (unselected_candidate self (strip dept_var)) (iter_items (ui_by_uid self)) in
  NoDup uids
  /\ forall id, id ∈ uids <->
                exists c, ui_by_uid self !! id = Some c /\ (id ∉ selected self)
                          /\ dept_matches dept_var c.
Proof.
  cbv zeta. split.
  - apply omap_NoDup_fst; [|rewrite iter_items_perm; apply NoDup_fst_map_to_list].
    intros [id c] y. unfold unselected_candidate. destruct (decide _); [discriminate|].
    destruct (_ && _); [discriminate|]. intros [= <-]. reflexivity.
  - intros id. rewrite list_elem_of_omap. split.
    + intros ([id' c] & Hx & E). rewrite iter_items_perm in Hx.
      apply elem_of_map_to_list in Hx. unfold unselected_candidate in E.
      destruct (decide (id' ∈ selected self)) as [|Hsel]; [discriminate|].
      destruct (str_eqb (strip dept_var) (u "全部")) eqn:E1; cbn [negb andb] in E.
      * injection E as <-. exists c. repeat split; try assumption.
        left. apply str_eqb_eq, E1.
      * destruct (str_eqb (strip (department c)) (strip dept_var)) eqn:E2; cbn [negb] in E;
          [|discriminate].
        injection E as <-. exists c. repeat split; try assumption.
        right. apply str_eqb_eq, E2.
    + intros (c & Hc & Hsel & Hd). exists (id, c). split.
      * rewrite iter_items_perm. apply elem_of_map_to_list, Hc.
      * unfold unselected_candidate. destruct (decide (id ∈ selected self)); [contradiction|].
        destruct Hd as [Hd | Hd]; apply str_eqb_eq in Hd; rewrite Hd; cbn [negb andb];
          [reflexivity|]. rewrite andb_false_r. reflexivity.
Qed.

(** The list of courses to choose from shows, once each, the courses
    that are not selected and pass the department filter, in the order of
    their sort keys. *)
Theorem unselected_list_shows_filtered_courses self (dept_var : str) :
  exists l,
    _filtered_unselected_uids iter_items self dept_var = Ret l
    /\ NoDup l
    /\ (forall id, id ∈ l <->
                   exists c, ui_by_uid self !! id = Some c /\ (id ∉ selected self)
                             /\ dept_matches dept_var c)
    /\ Sorted (fun a b => key_ltb (uid_key self b) (uid_key self a) = false) l.
Proof.
  unfold _filtered_unselected_uids. cbv zeta.
  destruct (unselected_candidates_spec self dept_var) as [Hnd Hin].
  destruct (sort_uids_spec self
              (omap (unselected_candidate self (strip dept_var)) (iter_items (ui_by_uid self))))
    as (l & Hl & Hp & Hs).
  { intros id Hid. apply Hin in Hid as (c & Hc & _). eauto. }
  exists l. split; [exact Hl|]. split; [rewrite Hp; exact Hnd|]. split; [|exact Hs].
  intros id. rewrite Hp. apply Hin.
Qed.

(** Without a department filter every course of the file is in exactly
    one of the two lists: the selected ones in the list of selected
    courses, the others in the list to choose from. *)
Theorem course_lists_partition self :
  (forall id, id ∈ selected self -> is_Some (ui_by_uid self !! id)) ->
  exists un sel,
    _filtered_unselected_uids iter_items self (u "全部") = Ret un
    /\ _selected_uids_sorted iter_uids self = Ret sel
    /\ sel ≡ₚ elements (selected self)
    /\ un ++ sel ≡ₚ elements (dom (ui_by_uid self))
    /\ Sorted (fun a b => key_ltb (uid_key self b) (uid_key self a) = false) sel.
Proof.
  intros Hk. destruct (unselected_candidates_spec self (u "全部")) as [Hnd0 Hin0].
  destruct (sort_uids_spec self
              (omap (unselected_candidate self (strip (u "全部"))) (iter_items (ui_by_uid self))))
    as (un & Hun & Hpu & _).
  { intros id Hid. apply Hin0 in Hid as (c & Hc & _). eauto. }
  assert (Hnd : NoDup un) by (rewrite Hpu; exact Hnd0).
  assert (Hin : forall id, id ∈ un <->
                           exists c, ui_by_uid self !! id = Some c /\ (id ∉ selected self)
                                     /\ dept_matches (u "全部") c)
    by (intros id; rewrite Hpu; apply Hin0).
  destruct (sort_uids_spec self (iter_uids (selected self))) as (sel & Hsel & Hp & Hs).
  { intros id Hid. rewrite iter_uids_perm in Hid. apply elem_of_elements in Hid. auto. }
  exists un, sel. split; [exact Hun|]. split; [exact Hsel|].
  rewrite iter_uids_perm in Hp. split; [exact Hp|]. split; [|exact Hs].
  apply NoDup_Permutation.
  - apply NoDup_app. split; [exact Hnd|]. split; [|rewrite Hp; apply NoDup_elements].
    intros id Hu Hs'. apply Hin in Hu as (_ & _ & Hns & _). rewrite Hp in Hs'.
    apply elem_of_elements in Hs'. contradiction.
  - apply NoDup_elements.
  - intros id. rewrite elem_of_app, elem_of_elements, elem_of_dom, Hin, Hp, elem_of_elements.
    split.
    + intros [(c & Hc & _) | Hs']; [eauto | auto].
    + intros [c Hc]. destruct (decide (id ∈ selected self)) as [Hs' | Hs']; [auto|].
      left. exists c. split; [exact Hc|]. split; [exact Hs'|]. left. vm_compute. reflexivity.
Qed.

End CourseListFacts.

Section ListedBatch.
Context {F : Type}.
Context (fadd : F -> F -> F) (fgt : F -> F -> bool) (fsum : list F -> F).
Context (ftruthy : F -> bool) (fzero tol : F).
Context (iter_items : gmap uid_t (Course F) -> list (uid_t * Course F)).
Context (iter_uids : gset uid_t -> list uid_t).
Context (iter_cells : gset cell -> list cell).
Hypothesis iter_items_perm : forall m, iter_items m ≡ₚ map_to_list m.
Hypothesis iter_uids_perm : forall X, iter_uids X ≡ₚ elements X.
Hypothesis iter_cells_perm : forall X, iter_cells X ≡ₚ elements X.

Implicit Types (self : @CourseUI F).



End ListedBatch.

(** ** Instances *)

Lemma split_info_lines_clean_witness :
  u "1~16周 周一 1~2节" ∈ _split_info_lines (u "1~16周 周一 1~2节" ++ NL :: u "考试时间：待定")
  /\ u "1~16周 周一 1~2节" <> []
  /\ strip (u "1~16周 周一 1~2节") = u "1~16周 周一 1~2节"
  /\ ~ In NL (u "1~16周 周一 1~2节").
Proof.
  assert (H : u "1~16周 周一 1~2节" ∈ _split_info_lines (u "1~16周 周一 1~2节" ++ NL :: u "考试时间：待定")).
  { apply list_elem_of_In. vm_compute. left. reflexivity. }
  split; [exact H|].
  exact (split_info_lines_clean (u "1~16周 周一 1~2节" ++ NL :: u "考试时间：待定") (u "1~16周 周一 1~2节") H).
Defined.

Lemma clock_periods_start_after_noon_witness :
  _clock_to_periods None (13 * 60 + 10) (16 * 60 + 20) = Some (5, 8)
  /\ (((5, 8) = (5, 8) /\ 12 * 60 <= 13 * 60 + 10)
      \/ ((5, 8) = (9, 12) /\ 17 * 60 <= 13 * 60 + 10)).
Proof.
  split; [vm_compute; reflexivity|].
  apply (clock_periods_start_after_noon None (13 * 60 + 10) (16 * 60 + 20) (5, 8)).
  vm_compute. reflexivity.
Defined.

Lemma clock_slot_within_tolerance_witness :
  In (u "晚", 18 * 60, 21 * 60 + 30, (9, 12)) CLOCK_SLOT_MAP
  /\ _clock_to_periods (Some (u "晚")) (18 * 60 + 20) (21 * 60 + 10) = Some (9, 12).
Proof.
  assert (H : In (u "晚", 18 * 60, 21 * 60 + 30, (9, 12)) CLOCK_SLOT_MAP)
    by (right; left; reflexivity).
  split; [exact H|].
  apply (clock_slot_within_tolerance (Some (u "晚")) (u "晚") (18 * 60) (21 * 60 + 30) (9, 12)
           (18 * 60 + 20) (21 * 60 + 10) H); [right; reflexivity | vm_compute; discriminate ..].
Defined.

Lemma normalize_room_no_space_witness :
  In 49 (_normalize_room (u " 理教 107 "))
  /\ is_space 49 = false /\ In 49 (u " 理教 107 ").
Proof.
  assert (H : In 49 (_normalize_room (u " 理教 107 "))) by (vm_compute; tauto).
  split; [exact H|].
  exact (normalize_room_no_space (u " 理教 107 ") 49 H).
Defined.

Lemma normalize_spaces_clean_witness :
  In 59 (_normalize_spaces (u "1~16周；考试"))
  /\ 59 <> CR /\ 59 <> TAB /\ 59 <> 65307 /\ 59 <> 65292
  /\ (In 59 (u "1~16周；考试") \/ In 59 [NL; 59; 44; SP]).
Proof.
  assert (H : In 59 (_normalize_spaces (u "1~16周；考试"))) by (vm_compute; tauto).
  split; [exact H|].
  exact (normalize_spaces_clean (u "1~16周；考试") 59 H).
Defined.

Lemma sample_conflict_free (limit : Q) : conflict_free (sample_ui limit).
Proof.
  intros a b Ha Hb Hab. cbn [selected sample_ui] in Ha, Hb.
  apply elem_of_singleton in Ha, Hb. congruence.
Qed.

Lemma selection_stays_conflict_free_witness :
  known (sample_ui 25) [uid course_c]
  /\ conflict_free (sample_ui 25)
  /\ conflict_free (_remove_selected_courses (sample_ui 25) [uid course_c]).1.
Proof.
  pose proof (sample_known 25 (uid course_c) (or_intror (or_intror (or_introl eq_refl)))) as Hk.
  pose proof (sample_conflict_free 25) as Hcf.
  split; [exact Hk|]. split; [exact Hcf|].
  exact (proj2 (selection_stays_conflict_free Qplus q_gt q_sum q_truthy 0%Q q_tol
                  elements elements
                  (fun X => reflexivity (elements X)) (fun X => reflexivity (elements X))
                  (sample_ui 25) [uid course_c] Hk Hcf)).
Defined.



Lemma sample_known2 (limit : Q) : known (sample_ui limit) ([uid course_c] ++ [uid course_b]).
Proof.
  destruct (sample_lookup limit) as (Ha & Hb & Hc). split.
  - intros x Hx. cbn [selected sample_ui] in Hx. apply elem_of_singleton in Hx.
    subst x. eauto.
  - intros x Hx. apply elem_of_app in Hx as [Hx | Hx];
      apply list_elem_of_singleton in Hx; subst x; eauto.
Qed.

Lemma conflict_check_batch_split_witness :
  known (sample_ui 25) ([uid course_c] ++ [uid course_b])
  /\ (_find_conflict_between elements elements (sample_ui 25) ([uid course_c] ++ [uid course_b])
      = Ret None <->
      _find_conflict_between elements elements (sample_ui 25) [uid course_c] = Ret None
      /\ _find_conflict_between elements elements
           (mkUI (ui_by_uid (sample_ui 25)) (selected (sample_ui 25) ∪ list_to_set [uid course_c])
                 (credit_limit_var (sample_ui 25))) [uid course_b]
         = Ret None).
Proof.
  split; [exact (sample_known2 25)|].
  exact (conflict_check_batch_split elements elements
           (fun X => reflexivity (elements X)) (fun X => reflexivity (elements X))
           (sample_ui 25) [uid course_c] [uid course_b] (sample_known2 25)).
Defined.

Lemma conflict_verdict_order_free_witness :
  known (sample_ui 25) ([uid course_c] ++ [uid course_b])
  /\ [uid course_c] ++ [uid course_b] ≡ₚ [uid course_b; uid course_c]
  /\ (_find_conflict_between elements elements (sample_ui 25) ([uid course_c] ++ [uid course_b])
      = Ret None <->
      _find_conflict_between elements elements (sample_ui 25) [uid course_b; uid course_c]
      = Ret None).
Proof.
  assert (Hp : [uid course_c] ++ [uid course_b] ≡ₚ [uid course_b; uid course_c])
    by apply perm_swap.
  split; [exact (sample_known2 25)|]. split; [exact Hp|].
  exact (conflict_verdict_order_free elements elements elements elements (sample_ui 25)
           ([uid course_c] ++ [uid course_b]) [uid course_b; uid course_c]
           (fun X => reflexivity (elements X)) (fun X => reflexivity (elements X))
           (fun X => reflexivity (elements X)) (fun X => reflexivity (elements X))
           (sample_known2 25) Hp).
Defined.

Lemma sample_selected_known (limit : Q) (id : uid_t) :
  id ∈ selected (sample_ui limit) -> is_Some (ui_by_uid (sample_ui limit) !! id).
Proof.
  intros Hid. cbn [selected sample_ui] in Hid. apply elem_of_singleton in Hid. subst id.
  destruct (sample_lookup limit) as (Ha & _). eauto.
Qed.

Lemma sample_selected_meeting (limit : Q) (id : uid_t) (c : Course Q) (m : Meeting) :
  id ∈ selected (sample_ui limit) -> ui_by_uid (sample_ui limit) !! id = Some c ->
  m ∈ meetings c ->
  weekday m = 3 /\ start_period m = 3 /\ end_period m = 4.
Proof.
  intros Hid Hc Hm. cbn [selected sample_ui] in Hid. apply elem_of_singleton in Hid. subst id.
  destruct (sample_lookup limit) as (Ha & _). rewrite Ha in Hc. injection Hc as <-.
  cbn in Hm. apply list_elem_of_singleton in Hm. subst m. cbn. auto.
Qed.

Lemma sample_fits (limit : Q) (week : Z) (id : uid_t) (c : Course Q) (m : Meeting) (p : Z) :
  id ∈ selected (sample_ui limit) -> ui_by_uid (sample_ui limit) !! id = Some c ->
  m ∈ meetings c -> occurs_on m week (weekday m) p = true -> on_grid (p, weekday m).
Proof.
  intros Hid Hc Hm Ho. destruct (sample_selected_meeting limit id c m Hid Hc Hm) as (Hd & Hs & He).
  apply occurs_on_true in Ho as (_ & _ & Hp). unfold on_grid. cbn [fst snd]. lia.
Qed.

Lemma timetable_shows_selected_meetings_witness :
  (forall k, is_Some (grid_cells (sample_timetable 1) !! k) <-> on_grid k)
  /\ exists tt',
       _refresh_timetable q_sum q_truthy 0%Q (fun _ => []) (fun _ => 0) elements
         (sample_ui 25) (sample_timetable 1) = Ret tt'
       /\ week_var tt' = 1.
Proof.
  split; [exact build_grid_keys|].
  destruct (timetable_shows_selected_meetings q_sum q_truthy 0%Q (fun _ => []) (fun _ => 0)
              elements (fun X => reflexivity (elements X))
              (sample_ui 25) (sample_timetable 1) build_grid_keys
              (sample_selected_known 25) (sample_fits 25 1))
    as (tt' & Hr & Hw & _).
  exists tt'. split; [exact Hr | exact Hw].
Defined.

Lemma timetable_blank_iff_unoccupied_witness :
  (forall k, is_Some (grid_cells (sample_timetable 1) !! k) <-> on_grid k)
  /\ exists tt' lb,
       _refresh_timetable q_sum q_truthy 0%Q (fun _ => []) (fun _ => 0) elements
         (sample_ui 25) (sample_timetable 1) = Ret tt'
       /\ grid_cells tt' !! (3, 3) = Some lb
       /\ (label_text lb = [] <->
           forall id, id ∈ selected (sample_ui 25) -> (1, 3, 3) ∉ cells_of (sample_ui 25) id).
Proof.
  split; [exact build_grid_keys|].
  apply (timetable_blank_iff_unoccupied q_sum q_truthy 0%Q (fun _ => []) (fun _ => 0)
           elements (fun X => reflexivity (elements X))
           (sample_ui 25) (sample_timetable 1) 3 3 build_grid_keys
           (sample_selected_known 25) (sample_fits 25 1)); cbn [week_var sample_timetable]; lia.
Defined.

Lemma conflict_free_cell_shows_one_course_witness :
  conflict_free (sample_ui 25)
  /\ exists tt' lb,
       _refresh_timetable q_sum q_truthy 0%Q (fun _ => []) (fun _ => 0) elements
         (sample_ui 25) (sample_timetable 1) = Ret tt'
       /\ grid_cells tt' !! (3, 3) = Some lb
       /\ (label_text lb = []
           \/ exists id c, id ∈ selected (sample_ui 25)
                           /\ ui_by_uid (sample_ui 25) !! id = Some c
                           /\ label_text lb = join ENTRY_SEP (meeting_entries 1 3 3 c)).
Proof.
  assert (Hcf : conflict_free (sample_ui 25)).
  { intros a b Ha Hb Hab. cbn [selected sample_ui] in Ha, Hb.
    apply elem_of_singleton in Ha, Hb. congruence. }
  split; [exact Hcf|].
  apply (conflict_free_cell_shows_one_course q_sum q_truthy 0%Q (fun _ => []) (fun _ => 0)
           elements (fun X => reflexivity (elements X))
           (sample_ui 25) (sample_timetable 1) 3 3 build_grid_keys
           (sample_selected_known 25) (sample_fits 25 1) Hcf);
    cbn [week_var sample_timetable]; lia.
Defined.

Lemma late_lookup : ui_by_uid late_ui !! uid course_late = Some course_late.
Proof. vm_compute. reflexivity. Qed.

Lemma refresh_raises_off_grid_witness :
  uid course_late ∈ selected late_ui
  /\ occurs_on (mkMeeting 1 16 EVERY 1 13 14 [] []) 1 1 13 = true
  /\ ~ on_grid (13, 1)
  /\ _refresh_timetable q_sum q_truthy 0%Q (fun _ => []) (fun _ => 0) elements
       late_ui (sample_timetable 1) = Raise KeyError.
Proof.
  assert (Hsel : uid course_late ∈ selected late_ui) by (apply elem_of_singleton; reflexivity).
  assert (Hoff : ~ on_grid (13, 1)) by (unfold on_grid; cbn [fst snd]; lia).
  split; [exact Hsel|]. split; [reflexivity|]. split; [exact Hoff|].
  apply (refresh_raises_off_grid q_sum q_truthy 0%Q (fun _ => []) (fun _ => 0)
           elements (fun X => reflexivity (elements X))
           late_ui (sample_timetable 1) (uid course_late) course_late
           (mkMeeting 1 16 EVERY 1 13 14 [] []) 13 build_grid_keys).
  - intros id Hid. cbn [selected late_ui] in Hid. apply elem_of_singleton in Hid. subst id.
    rewrite late_lookup. eauto.
  - exact Hsel.
  - exact late_lookup.
  - left.
  - reflexivity.
  - exact Hoff.
Defined.

Lemma loaded_lookup :
  exists c, ui_by_uid loaded_ui !! (u "00130201", u "1") = Some c
            /\ meetings c = [mkMeeting 1 16 EVERY 1 1 2 (u "理教107") (u "1~16周 周一 1~2节 理教107")].
Proof. eexists. split; vm_compute; reflexivity. Qed.

Lemma loaded_timetable_refreshes_witness :
  ui_by_uid loaded_ui = by_uid (parse_rows (fun _ => None) 0%Q [sample_row])
  /\ exists tt',
       _refresh_timetable q_sum q_truthy 0%Q (fun _ => []) (fun _ => 0) elements
         loaded_ui (sample_timetable 1) = Ret tt'
       /\ week_var tt' = 1.
Proof.
  split; [reflexivity|].
  destruct loaded_lookup as (c0 & Hc0 & Hm0).
  destruct (loaded_timetable_refreshes (fun _ => None) q_sum q_truthy 0%Q (fun _ => [])
              (fun _ => 0) elements (fun X => reflexivity (elements X))
              [sample_row] loaded_ui (sample_timetable 1) eq_refl build_grid_keys)
    as (tt' & Hr & Hw & _).
  - intros id Hid. cbn [selected loaded_ui] in Hid. apply elem_of_singleton in Hid. subst id.
    rewrite Hc0. eauto.
  - intros id c m Hid Hc Hm. cbn [selected loaded_ui] in Hid.
    apply elem_of_singleton in Hid. subst id. rewrite Hc0 in Hc. injection Hc as <-.
    rewrite Hm0 in Hm. apply list_elem_of_singleton in Hm. subst m. cbn. lia.
  - exists tt'. split; [exact Hr | exact Hw].
Defined.

Lemma week_navigation_stays_in_range_witness :
  1 <= week_var (sample_timetable 16) <= 16
  /\ exists tt',
       foldM (press q_sum q_truthy 0%Q (fun _ => []) (fun _ => 0) elements (sample_ui 25))
             (sample_timetable 16) [NextWeek; PrevWeek] = Ret tt'
       /\ 1 <= week_var tt' <= 16
       /\ week_var tt' = 15.
Proof.
  assert (Hw : 1 <= week_var (sample_timetable 16) <= 16) by (cbn; lia).
  split; [exact Hw|].
  apply (week_navigation_stays_in_range q_sum q_truthy 0%Q (fun _ => []) (fun _ => 0)
           elements (fun X => reflexivity (elements X))
           (sample_ui 25) (sample_timetable 16) [NextWeek; PrevWeek] build_grid_keys
           (sample_selected_known 25)); [|exact Hw].
  intros id c m p Hid Hc Hm Hp.
  destruct (sample_selected_meeting 25 id c m Hid Hc Hm) as (Hd & Hs & He).
  unfold on_grid. cbn [fst snd]. lia.
Defined.

Lemma weekday_label_reads_back_witness :
  1 <= 3 <= 7
  /\ exists w, weekday_to_label 3 = u "周" ++ w /\ WEEKDAY_MAP_get (Some w) = Some 3.
Proof.
  assert (H : 1 <= 3 <= 7) by lia.
  split; [exact H|]. exact (weekday_label_reads_back 3 H).
Defined.



Lemma unselected_list_shows_filtered_courses_witness :
  (forall m : gmap uid_t (Course Q), map_to_list m ≡ₚ map_to_list m)
  /\ exists l,
       _filtered_unselected_uids map_to_list (sample_ui 25) (u "全部") = Ret l
       /\ NoDup l.
Proof.
  split; [reflexivity|].
  destruct (unselected_list_shows_filtered_courses map_to_list
              (fun m => reflexivity (map_to_list m)) (sample_ui 25) (u "全部"))
    as (l & Hl & Hnd & _).
  exists l. split; [exact Hl | exact Hnd].
Defined.

Lemma course_lists_partition_witness :
  (forall id, id ∈ selected (sample_ui 25) -> is_Some (ui_by_uid (sample_ui 25) !! id))
  /\ exists un sel,
       _filtered_unselected_uids map_to_list (sample_ui 25) (u "全部") = Ret un
       /\ _selected_uids_sorted elements (sample_ui 25) = Ret sel
       /\ un ++ sel ≡ₚ elements (dom (ui_by_uid (sample_ui 25))).
Proof.
  pose proof (sample_selected_known 25) as Hk.
  split; [exact Hk|].
  destruct (course_lists_partition map_to_list elements
              (fun m => reflexivity (map_to_list m)) (fun X => reflexivity (elements X))
              (sample_ui 25) Hk)
    as (un & sel & Hun & Hsel & _ & Hp & _).
  exists un, sel. auto.
Defined.


